(** * The buildpack packager (package [packager], file packager.go)

    A shallow embedding of the packaging pipeline: the dependency fetcher
    ([downloadDependency], [downloadFromURI], [checkSha256]), the archive
    builder ([ZipFiles]), the directory stager ([copyDirectory]) and the
    orchestrator ([Package]), over an explicit model of the file system,
    the network and the process environment.

    The program is written in a state monad over the world, with four
    outcomes of a call: it returns, it returns an error, it panics, the
    process exits.  What the model of the environment assumes:
    - the file system is a finite tree; paths are resolved lexically from
      the root, which is also the working directory, except by
      [os.MkdirAll], which is handed the cache directory as the caller
      wrote it and follows it one component after the other, as the system
      does; symbolic links are leaves that are copied but never followed;
      permission bits are kept but refuse nothing, so a call of the
      operating system fails only for the shape of the tree (a missing
      parent, a directory where a file is expected, an existing name);
    - the environment refuses what [setenv] refuses: an empty key, a key
      with [=] or a NUL byte, a value with a NUL byte;
    - the network is a table from URIs to responses; a URI that is not in
      the table refuses the connection;
    - [filepath.Walk] lists the tree it finds when it starts;
    - the hash functions are the real MD5 and SHA-256;
    - URL parsing, the YAML codec, the manifest model of libbuildpack, the
      commands that are run and the byte layout of zip archives are
      parameters.
    [CompileExtensionPackage], which stages the directory with
    [copyDirectory] and hands it to an external command, is left out. *)

From Stdlib Require Import Strings.String Strings.Ascii Strings.Byte.
From Stdlib Require Import ZArith List Bool Lia DecimalString.
Import ListNotations.
Local Open Scope string_scope.
Local Open Scope list_scope.
Local Open Scope Z_scope.

(** ** Bytes and hexadecimal text *)

Module Bytes.

Definition byte_to_Z (b : byte) : Z := Z.of_N (Byte.to_N b).

Definition Z_to_byte (z : Z) : byte :=
  match Byte.of_N (Z.to_N (z mod 256)) with
  | Some b => b
  | None => x00
  end.

(** Go's [[]byte(s)] and [string(b)]. *)
Definition of_string (s : string) : list byte := list_byte_of_string s.
Definition to_string (b : list byte) : string := string_of_list_byte b.

(** The digit table of [encoding/hex]. *)
Definition hextable : list ascii :=
  ["0"; "1"; "2"; "3"; "4"; "5"; "6"; "7"; "8"; "9";
   "a"; "b"; "c"; "d"; "e"; "f"]%char.

Definition hexdigit (n : Z) : ascii := nth (Z.to_nat n) hextable "f"%char.

(** [hex.EncodeToString], also what [fmt.Sprintf("%x", ...)] prints for a
    byte array. *)
Fixpoint hex_EncodeToString (bs : list byte) : string :=
  match bs with
  | [] => EmptyString
  | b :: rest =>
      String (hexdigit (Z.shiftr (byte_to_Z b) 4))
        (String (hexdigit (Z.land (byte_to_Z b) 15)) (hex_EncodeToString rest))
  end.

(** Big-endian and little-endian encodings of a [w]-byte word. *)
Fixpoint be_bytes (w : nat) (x : Z) : list byte :=
  match w with
  | O => []
  | S w' => Z_to_byte (Z.shiftr x (8 * Z.of_nat w')) :: be_bytes w' x
  end.

Fixpoint le_bytes (w : nat) (x : Z) : list byte :=
  match w with
  | O => []
  | S w' => Z_to_byte x :: le_bytes w' (Z.shiftr x 8)
  end.

Definition be_word (bs : list byte) : Z :=
  fold_left (fun acc b => Z.lor (Z.shiftl acc 8) (byte_to_Z b)) bs 0.

Definition le_word (bs : list byte) : Z := be_word (rev bs).

(** Cut a list into chunks of [n] elements ([len] bounds the recursion). *)
Fixpoint chunks {A} (n : nat) (len : nat) (l : list A) : list (list A) :=
  match len with
  | O => []
  | S len' =>
      match l with
      | [] => []
      | _ => firstn n l :: chunks n len' (skipn n l)
      end
  end.

Definition w32 (x : Z) : Z := x mod 2 ^ 32.
Definition add32 (x y : Z) : Z := w32 (x + y).
Definition not32 (x : Z) : Z := Z.lxor x 0xffffffff.
Definition rotr32 (n x : Z) : Z :=
  Z.lor (Z.shiftr x n) (w32 (Z.shiftl x (32 - n))).
Definition rotl32 (n x : Z) : Z :=
  Z.lor (w32 (Z.shiftl x n)) (Z.shiftr x (32 - n)).

(** Merkle-Damgard padding shared by MD5 and SHA-256: a 0x80 byte, zeros
    up to 56 mod 64, then the bit length on 8 bytes. *)
Definition pad (len_bytes : Z -> list byte) (msg : list byte) : list byte :=
  let n := Z.of_nat (length msg) in
  let zeros := Z.to_nat ((55 - n) mod 64) in
  msg ++ x80 :: repeat x00 zeros ++ len_bytes (8 * n).

End Bytes.

(** ** SHA-256 (crypto/sha256) *)

Module Sha256.
Import Bytes.

(** The constants of FIPS 180-4: the first 32 bits of the fractional parts
    of the cube roots of the first 64 primes, and of the square roots of
    the first 8. *)
Definition is_prime (n : Z) : bool :=
  (1 <? n) && forallb (fun d => negb (n mod d =? 0))
                      (map Z.of_nat (seq 2 (Z.to_nat n - 2))).

Definition primes : list Z := filter is_prime (map Z.of_nat (seq 2 310)).

(** The integer cube root, found bit by bit from bit [k - 1] down. *)
Fixpoint cbrt_bits (k : nat) (n r : Z) : Z :=
  match k with
  | O => r
  | S k' =>
      let c := r + 2 ^ Z.of_nat k' in
      if c * c * c <=? n then cbrt_bits k' n c else cbrt_bits k' n r
  end.

Definition K : list Z :=
  Eval vm_compute in map (fun p => w32 (cbrt_bits 36 (p * 2 ^ 96) 0)) primes.

Definition H0 : list Z :=
  Eval vm_compute in map (fun p => w32 (Z.sqrt (p * 2 ^ 64))) (firstn 8 primes).

Definition Ch (x y z : Z) := Z.lxor (Z.land x y) (Z.land (not32 x) z).
Definition Maj (x y z : Z) :=
  Z.lxor (Z.lxor (Z.land x y) (Z.land x z)) (Z.land y z).
Definition Sigma0 x := Z.lxor (Z.lxor (rotr32 2 x) (rotr32 13 x)) (rotr32 22 x).
Definition Sigma1 x := Z.lxor (Z.lxor (rotr32 6 x) (rotr32 11 x)) (rotr32 25 x).
Definition sigma0 x := Z.lxor (Z.lxor (rotr32 7 x) (rotr32 18 x)) (Z.shiftr x 3).
Definition sigma1 x := Z.lxor (Z.lxor (rotr32 17 x) (rotr32 19 x)) (Z.shiftr x 10).

(** The message schedule; [recent] holds the words computed so far, the
    latest first. *)
Fixpoint schedule (n : nat) (recent : list Z) : list Z :=
  match n with
  | O => rev recent
  | S n' =>
      let w := add32 (add32 (sigma1 (nth 1 recent 0)) (nth 6 recent 0))
                     (add32 (sigma0 (nth 14 recent 0)) (nth 15 recent 0)) in
      schedule n' (w :: recent)
  end.

Definition round (st : list Z) (kw : Z * Z) : list Z :=
  match st with
  | [a; b; c; d; e; f; g; h] =>
      let t1 := add32 (add32 (add32 h (Sigma1 e))
                             (add32 (Ch e f g) (fst kw))) (snd kw) in
      let t2 := add32 (Sigma0 a) (Maj a b c) in
      [add32 t1 t2; a; b; c; add32 d t1; e; f; g]
  | _ => st
  end.

Definition block (st : list Z) (blk : list byte) : list Z :=
  let w := schedule 48 (rev (map be_word (chunks 4 16 blk))) in
  map (fun p => add32 (fst p) (snd p))
      (combine st (fold_left round (combine K w) st)).

(** [sha256.Sum256]. *)
Definition Sum256 (msg : list byte) : list byte :=
  let p := pad (be_bytes 8) msg in
  flat_map (be_bytes 4) (fold_left block (chunks 64 (length p) p) H0).

End Sha256.

(** ** MD5 (crypto/md5) *)

Module Md5.
Import Bytes.

Definition T : list Z :=
  [0xd76aa478; 0xe8c7b756; 0x242070db; 0xc1bdceee; 0xf57c0faf; 0x4787c62a;
   0xa8304613; 0xfd469501; 0x698098d8; 0x8b44f7af; 0xffff5bb1; 0x895cd7be;
   0x6b901122; 0xfd987193; 0xa679438e; 0x49b40821; 0xf61e2562; 0xc040b340;
   0x265e5a51; 0xe9b6c7aa; 0xd62f105d; 0x02441453; 0xd8a1e681; 0xe7d3fbc8;
   0x21e1cde6; 0xc33707d6; 0xf4d50d87; 0x455a14ed; 0xa9e3e905; 0xfcefa3f8;
   0x676f02d9; 0x8d2a4c8a; 0xfffa3942; 0x8771f681; 0x6d9d6122; 0xfde5380c;
   0xa4beea44; 0x4bdecfa9; 0xf6bb4b60; 0xbebfbc70; 0x289b7ec6; 0xeaa127fa;
   0xd4ef3085; 0x04881d05; 0xd9d4d039; 0xe6db99e5; 0x1fa27cf8; 0xc4ac5665;
   0xf4292244; 0x432aff97; 0xab9423a7; 0xfc93a039; 0x655b59c3; 0x8f0ccc92;
   0xffeff47d; 0x85845dd1; 0x6fa87e4f; 0xfe2ce6e0; 0xa3014314; 0x4e0811a1;
   0xf7537e82; 0xbd3af235; 0x2ad7d2bb; 0xeb86d391].

Definition shifts : list Z :=
  [7; 12; 17; 22; 7; 12; 17; 22; 7; 12; 17; 22; 7; 12; 17; 22;
   5; 9; 14; 20; 5; 9; 14; 20; 5; 9; 14; 20; 5; 9; 14; 20;
   4; 11; 16; 23; 4; 11; 16; 23; 4; 11; 16; 23; 4; 11; 16; 23;
   6; 10; 15; 21; 6; 10; 15; 21; 6; 10; 15; 21; 6; 10; 15; 21].

Definition A0 : list Z := [0x67452301; 0xefcdab89; 0x98badcfe; 0x10325476].

Definition round (m : list Z) (st : list Z) (its : Z * (Z * Z)) : list Z :=
  let '(i, (t, s)) := its in
  match st with
  | [a; b; c; d] =>
      let '(f, g) :=
        if i <? 16 then (Z.lor (Z.land b c) (Z.land (not32 b) d), i)
        else if i <? 32 then
          (Z.lor (Z.land d b) (Z.land (not32 d) c), (5 * i + 1) mod 16)
        else if i <? 48 then (Z.lxor (Z.lxor b c) d, (3 * i + 5) mod 16)
        else (Z.lxor c (Z.lor b (not32 d)), (7 * i) mod 16) in
      let x := add32 (add32 a f) (add32 t (nth (Z.to_nat g) m 0)) in
      [d; add32 b (rotl32 s x); b; c]
  | _ => st
  end.

Definition block (st : list Z) (blk : list byte) : list Z :=
  let m := map le_word (chunks 4 16 blk) in
  let idx := map Z.of_nat (seq 0 64) in
  map (fun p => add32 (fst p) (snd p))
      (combine st (fold_left (round m) (combine idx (combine T shifts)) st)).

(** [md5.Sum]. *)
Definition Sum (msg : list byte) : list byte :=
  let p := pad (le_bytes 8) msg in
  flat_map (le_bytes 4) (fold_left block (chunks 64 (length p) p) A0).

End Md5.

(** ** Lexical path functions (path/filepath, Unix flavour) *)

Module Filepath.

Definition Separator : ascii := "/"%char.

(** [strings.Split(s, "/")]: the components between separators, empty ones
    included. *)
Fixpoint split (s : string) : list string :=
  match s with
  | EmptyString => [EmptyString]
  | String c rest =>
      if Ascii.eqb c Separator then EmptyString :: split rest
      else match split rest with
           | h :: t => String c h :: t
           | [] => [String c EmptyString]
           end
  end.

Definition IsAbs (s : string) : bool :=
  match s with
  | String c _ => Ascii.eqb c Separator
  | EmptyString => false
  end.

(** One step of [Clean]: [stack] holds the components kept so far, the
    latest on top. *)
Definition push (rooted : bool) (stack : list string) (c : string)
  : list string :=
  if ((c =? "") || (c =? "."))%string then stack
  else if (c =? "..")%string then
    match stack with
    | top :: below => if (top =? "..")%string then c :: stack else below
    | [] => if rooted then [] else [c]
    end
  else c :: stack.

Definition norm (rooted : bool) (comps : list string) : list string :=
  rev (fold_left (push rooted) comps []).

Definition render (rooted : bool) (comps : list string) : string :=
  if rooted then ("/" ++ String.concat "/" comps)%string
  else match comps with
       | [] => "."
       | _ => String.concat "/" comps
       end.

Definition Clean (path : string) : string :=
  if (path =? "")%string then "."
  else render (IsAbs path) (norm (IsAbs path) (split path)).

(** [filepath.Join]: leading empty elements are ignored, the rest is joined
    with separators and cleaned. *)
Fixpoint Join (elem : list string) : string :=
  match elem with
  | [] => ""
  | e :: rest =>
      if (e =? "")%string then Join rest else Clean (String.concat "/" elem)
  end.

Fixpoint drop_empty (l : list string) : list string :=
  match l with
  | [] => []
  | c :: rest => if (c =? "")%string then drop_empty rest else l
  end.

(** [filepath.Base]: the last element, trailing separators removed. *)
Definition Base (path : string) : string :=
  if (path =? "")%string then "."
  else match drop_empty (rev (split path)) with
       | [] => "/"
       | c :: _ => c
       end.

(** [filepath.Dir]: everything up to the last separator, cleaned. *)
Definition Dir (path : string) : string :=
  match removelast (split path) with
  | [] => Clean ""
  | cs => Clean (String.concat "/" cs ++ "/")
  end.

Fixpoint strip_common (b t : list string) : list string * list string :=
  match b, t with
  | x :: b', y :: t' => if (x =? y)%string then strip_common b' t' else (b, t)
  | _, _ => (b, t)
  end.

Definition nonempty (c : string) : bool := negb (c =? "")%string.

(** [filepath.Rel]; [None] is its error "can't make targ relative to
    base". *)
Definition Rel (basepath targpath : string) : option string :=
  let base := Clean basepath in
  let targ := Clean targpath in
  if (targ =? base)%string then Some "."
  else
    let base := if (base =? ".")%string then "" else base in
    if negb (Bool.eqb (IsAbs base) (IsAbs targ)) then None
    else
      let '(b, t) := strip_common (filter nonempty (split base))
                                  (filter nonempty (split targ)) in
      match b, t with
      | [], _ => Some (String.concat "/" t)
      | _ :: _, [] => Some (String.concat "/" (map (fun _ => "..") b))
      | bh :: _, _ :: _ =>
          if (bh =? "..")%string then None
          else Some (String.concat "/" (map (fun _ => "..") b ++ t))
      end.

End Filepath.

(** ** The file-system tree

    A file system is a finite tree.  Path resolution is lexical, except
    in [os.MkdirAll], and does not follow symbolic links: a link is a leaf
    that [Lstat], [Readlink] and [Symlink] see, and through which no path
    resolves.  Permission bits are stored and copied but never refuse an
    operation. *)

Module Fs.

Unset Elimination Schemes.
Inductive node :=
| Reg (perm : Z) (content : list byte)
| Link (target : string)
| Dir (perm : Z) (entries : list (string * node)).
Set Elimination Schemes.

Fixpoint find (name : string) (es : list (string * node)) : option node :=
  match es with
  | [] => None
  | (k, v) :: rest => if (k =? name)%string then Some v else find name rest
  end.

(** A new entry goes to its place in the byte order of the names, the
    order in which [ReadDir] and [Walk] list them; an existing entry is
    replaced where it stands. *)
Fixpoint es_insert (name : string) (new : node) (es : list (string * node))
  : list (string * node) :=
  match es with
  | [] => [(name, new)]
  | (k, v) :: rest =>
      if (name <=? k)%string then (name, new) :: es
      else (k, v) :: es_insert name new rest
  end.

Fixpoint es_replace (name : string) (new : node) (es : list (string * node))
  : list (string * node) :=
  match es with
  | [] => []
  | (k, v) :: rest =>
      if (k =? name)%string then (k, new) :: rest
      else (k, v) :: es_replace name new rest
  end.

Definition es_put (name : string) (new : node) (es : list (string * node))
  : list (string * node) :=
  match find name es with
  | Some _ => es_replace name new es
  | None => es_insert name new es
  end.

Fixpoint lookup (p : list string) (n : node) : option node :=
  match p with
  | [] => Some n
  | c :: p' =>
      match n with
      | Dir _ es =>
          match find c es with
          | Some child => lookup p' child
          | None => None
          end
      | _ => None
      end
  end.

(** [put p new n] places [new] at path [p]; every proper prefix of [p] must
    already be a directory. *)
Fixpoint put (p : list string) (new : node) (n : node) : option node :=
  match p with
  | [] => Some new
  | c :: p' =>
      match n with
      | Dir m es =>
          match p' with
          | [] => Some (Dir m (es_put c new es))
          | _ =>
              match find c es with
              | Some child =>
                  match put p' new child with
                  | Some child' => Some (Dir m (es_put c child' es))
                  | None => None
                  end
              | None => None
              end
          end
      | _ => None
      end
  end.

End Fs.
Export Fs.

(** ** Errors, outcomes and the world *)

Inductive errno := ENOENT | ENOTDIR | EEXIST | EISDIR | ELOOP.

Inductive error :=
| PathError (op path : string) (e : errno)
| Errorf (msg : string)
| SkipDir
| ErrOther (msg : string).

Definition errno_string (e : errno) : string :=
  match e with
  | ENOENT => "no such file or directory"
  | ENOTDIR => "not a directory"
  | EEXIST => "file exists"
  | EISDIR => "is a directory"
  | ELOOP => "too many levels of symbolic links"
  end.

(** [err.Error()], what [%v] prints. *)
Definition error_string (e : error) : string :=
  match e with
  | PathError op path e => (op ++ " " ++ path ++ ": " ++ errno_string e)%string
  | Errorf msg => msg
  | SkipDir => "skip this directory"
  | ErrOther msg => msg
  end.

(** How a call ends: it returns with a nil error, returns a non-nil error,
    panics, or the process exits ([log.Fatalf]). *)
Inductive outcome (A : Type) :=
| Ok (a : A)
| Err (e : error)
| Panic (msg : string)
| Exit (code : Z).
Arguments Ok {A} a.
Arguments Err {A} e.
Arguments Panic {A} msg.
Arguments Exit {A} code.

(** What [http.Get] finds at a URI: a status, the body, and whether reading
    the body breaks off with an error after those bytes. *)
Record response := Response {
  StatusCode : Z;
  Body : list byte;
  body_fails : bool
}.

Record World := mkWorld {
  fs : node;                       (* the root directory *)
  env : list (string * string);    (* the process environment *)
  net : list (string * response);  (* URIs that answer; others fail to connect *)
  tmpnames : list string;          (* the random suffixes TempDir will draw *)
  stdout : list string;            (* what was printed on Stdout *)
  transfers : list string          (* ghost: sources opened for download *)
}.

Definition set_fs (w : World) (f : node) : World :=
  mkWorld f (env w) (net w) (tmpnames w) (stdout w) (transfers w).
Definition set_env (w : World) (e : list (string * string)) : World :=
  mkWorld (fs w) e (net w) (tmpnames w) (stdout w) (transfers w).
Definition set_tmpnames (w : World) (t : list string) : World :=
  mkWorld (fs w) (env w) (net w) t (stdout w) (transfers w).
Definition add_stdout (w : World) (s : string) : World :=
  mkWorld (fs w) (env w) (net w) (tmpnames w) (stdout w ++ [s]) (transfers w).
Definition add_transfer (w : World) (uri : string) : World :=
  mkWorld (fs w) (env w) (net w) (tmpnames w) (stdout w) (transfers w ++ [uri]).

(** The monad of the program: state passing over the world, with the four
    outcomes. *)
Definition M (A : Type) : Type := World -> outcome A * World.

Definition ret {A} (a : A) : M A := fun w => (Ok a, w).
Definition fail {A} (e : error) : M A := fun w => (Err e, w).
Definition panic {A} (msg : string) : M A := fun w => (Panic msg, w).

Definition bind {A B} (m : M A) (k : A -> M B) : M B :=
  fun w =>
    match m w with
    | (Ok a, w') => k a w'
    | (Err e, w') => (Err e, w')
    | (Panic msg, w') => (Panic msg, w')
    | (Exit c, w') => (Exit c, w')
    end.

(** A call whose error value the caller receives ([v, err := f()]) instead
    of returning it at once. *)
Definition try {A} (m : M A) : M (A + error) :=
  fun w =>
    match m w with
    | (Ok a, w') => (Ok (inl a), w')
    | (Err e, w') => (Ok (inr e), w')
    | (Panic msg, w') => (Panic msg, w')
    | (Exit c, w') => (Exit c, w')
    end.

(** [defer cleanup] around a body: the clean-up runs when the body returns
    or panics, not when the process exits. *)
Definition defer {A} (cleanup : World -> World) (body : M A) : M A :=
  fun w =>
    match body w with
    | (Exit c, w') => (Exit c, w')
    | (r, w') => (r, cleanup w')
    end.

Declare Scope go_scope.
Delimit Scope go_scope with go.
Notation "x <- m ;; k" := (bind m (fun x => k))
  (at level 61, m at next level, right associativity) : go_scope.
Notation "m ;; k" := (bind m (fun _ => k))
  (at level 61, right associativity) : go_scope.
Open Scope go_scope.

(** ** Operating-system calls (packages os, io, io/ioutil, net/http) *)

Definition ModeDir : Z := 2 ^ 31.
Definition ModeSymlink : Z := 2 ^ 27.
Definition ModePerm : Z := 511.

Record FileInfo := mkFileInfo { fi_Name : string; Mode : Z }.

Definition IsDir (fi : FileInfo) : bool := negb (Z.land (Mode fi) ModeDir =? 0).

Definition node_mode (n : node) : Z :=
  match n with
  | Reg perm _ => Z.land perm ModePerm
  | Link _ => Z.lor ModeSymlink ModePerm
  | Dir perm _ => Z.lor ModeDir (Z.land perm ModePerm)
  end.

Definition node_info (name : string) (n : node) : FileInfo :=
  mkFileInfo (Filepath.Base name) (node_mode n).

(** Where a path string leads: its components from the root.  The working
    directory of the process is taken to be the root. *)
Definition resolve (name : string) : list string :=
  Filepath.norm true (Filepath.split name).

(** An open file ([*os.File]) is the resolved path it was opened at. *)
Definition handle : Type := list string.

Definition os_Lstat (name : string) : M FileInfo :=
  fun w =>
    match lookup (resolve name) (fs w) with
    | Some n => (Ok (node_info name n), w)
    | None => (Err (PathError "lstat" name ENOENT), w)
    end.

Definition os_Stat (name : string) : M FileInfo :=
  fun w =>
    match lookup (resolve name) (fs w) with
    | Some (Link _) => (Err (PathError "stat" name ELOOP), w)
    | Some n => (Ok (node_info name n), w)
    | None => (Err (PathError "stat" name ENOENT), w)
    end.

(** The walk of [os.MkdirAll] along the components of its path, from the
    directory [cur]: an empty component and [.] stay, [..] goes to the
    parent, a name enters the directory of that name, which is made with
    [perm] when nothing has the name.  The walk stops at a name that is
    not a directory; what it made before stays.  It returns the tree and,
    when it stopped, the components that were left and whether a directory
    had been made by then. *)
Fixpoint mkdir_walk (perm : Z) (cur comps : list string) (made : bool) (n : node)
  : node * option (list string * bool) :=
  match comps with
  | [] => (n, None)
  | c :: rest =>
      if ((c =? "") || (c =? "."))%string then mkdir_walk perm cur rest made n
      else if (c =? "..")%string then mkdir_walk perm (removelast cur) rest made n
      else
        match lookup (cur ++ [c]) n with
        | Some (Dir _ _) => mkdir_walk perm (cur ++ [c]) rest made n
        | Some _ => (n, Some (comps, made))
        | None =>
            match put (cur ++ [c]) (Dir perm []) n with
            | Some n' => mkdir_walk perm (cur ++ [c]) rest true n'
            | None => (n, Some (comps, made))
            end
        end
  end.

(** [os.MkdirAll]: [Stat] answers at once for a path that exists;
    otherwise the parent is made first, then [Mkdir] is called, and an
    existing directory is no error.  On the tree this is the walk above.
    The path is followed as the system follows it, so a [..] behind a
    missing name goes through the directory made for that name, and a
    [..] behind a file fails.  The error names the part of the path the
    walk stopped at: not a directory when nothing had to be made on the
    way ([Stat] found the file), file exists otherwise ([Mkdir] found it).
    The empty path names nothing. *)
Definition os_MkdirAll (path : string) (perm : Z) : M unit :=
  fun w =>
    if (path =? "")%string then (Err (PathError "mkdir" path ENOENT), w)
    else
      match fs w with
      | Dir _ _ =>
          let comps := Filepath.split path in
          match mkdir_walk (Z.land perm ModePerm) [] comps false (fs w) with
          | (f, None) => (Ok tt, set_fs w f)
          | (f, Some (rest, made)) =>
              let stopped :=
                firstn (length comps - length (Filepath.drop_empty (tl rest)))
                       comps in
              (Err (PathError "mkdir" (String.concat "/" stopped)
                      (if made then EEXIST else ENOTDIR)),
               set_fs w f)
          end
      | _ => (Err (PathError "mkdir" path ENOTDIR), w)
      end.

Definition os_Mkdir (name : string) (perm : Z) : M unit :=
  fun w =>
    match lookup (resolve name) (fs w) with
    | Some _ => (Err (PathError "mkdir" name EEXIST), w)
    | None =>
        match put (resolve name) (Dir (Z.land perm ModePerm) []) (fs w) with
        | Some f => (Ok tt, set_fs w f)
        | None => (Err (PathError "mkdir" name ENOENT), w)
        end
    end.

(** [os.OpenFile(name, O_RDWR|O_CREATE|O_TRUNC, perm)]: an existing file is
    emptied and keeps its permissions, a missing one is created. *)
Definition os_OpenFile_create_trunc (name : string) (perm : Z) : M handle :=
  fun w =>
    match lookup (resolve name) (fs w) with
    | Some (Dir _ _) => (Err (PathError "open" name EISDIR), w)
    | Some (Link _) => (Err (PathError "open" name ELOOP), w)
    | Some (Reg old _) =>
        match put (resolve name) (Reg old []) (fs w) with
        | Some f => (Ok (resolve name), set_fs w f)
        | None => (Err (PathError "open" name ENOENT), w)
        end
    | None =>
        match put (resolve name) (Reg (Z.land perm ModePerm) []) (fs w) with
        | Some f => (Ok (resolve name), set_fs w f)
        | None => (Err (PathError "open" name ENOENT), w)
        end
    end.

Definition os_Create (name : string) : M handle :=
  os_OpenFile_create_trunc name 438.

(** [os.Open]: directories can be opened too; reading them fails later. *)
Definition os_Open (name : string) : M handle :=
  fun w =>
    match lookup (resolve name) (fs w) with
    | Some (Link _) => (Err (PathError "open" name ELOOP), w)
    | Some _ => (Ok (resolve name), w)
    | None => (Err (PathError "open" name ENOENT), w)
    end.

(** [f.Stat()] on an open file. *)
Definition file_Stat (name : string) (h : handle) : M FileInfo :=
  fun w =>
    match lookup h (fs w) with
    | Some n => (Ok (node_info name n), w)
    | None => (Err (PathError "stat" name ENOENT), w)
    end.

(** Reading an open file to its end. *)
Definition file_ReadAll (h : handle) : M (list byte) :=
  fun w =>
    match lookup h (fs w) with
    | Some (Reg _ c) => (Ok c, w)
    | Some (Dir _ _) => (Err (PathError "read" (Filepath.render true h) EISDIR), w)
    | _ => (Err (PathError "read" (Filepath.render true h) ENOENT), w)
    end.

(** Writing at the end of an open file. *)
Definition file_Write (h : handle) (data : list byte) : M unit :=
  fun w =>
    match lookup h (fs w) with
    | Some (Reg perm c) =>
        match put h (Reg perm (c ++ data)) (fs w) with
        | Some f => (Ok tt, set_fs w f)
        | None => (Err (PathError "write" (Filepath.render true h) ENOENT), w)
        end
    | _ => (Err (PathError "write" (Filepath.render true h) ENOENT), w)
    end.

Definition ioutil_ReadFile (name : string) : M (list byte) :=
  (h <- os_Open name ;; file_ReadAll h)%go.

Definition ioutil_WriteFile (name : string) (data : list byte) (perm : Z)
  : M unit :=
  (h <- os_OpenFile_create_trunc name perm ;; file_Write h data)%go.

Definition os_Readlink (name : string) : M string :=
  fun w =>
    match lookup (resolve name) (fs w) with
    | Some (Link target) => (Ok target, w)
    | Some _ => (Err (PathError "readlink" name ENOTDIR), w)
    | None => (Err (PathError "readlink" name ENOENT), w)
    end.

Definition os_Symlink (oldname newname : string) : M unit :=
  fun w =>
    match lookup (resolve newname) (fs w) with
    | Some _ => (Err (PathError "symlink" newname EEXIST), w)
    | None =>
        match put (resolve newname) (Link oldname) (fs w) with
        | Some f => (Ok tt, set_fs w f)
        | None => (Err (PathError "symlink" newname ENOENT), w)
        end
    end.

Fixpoint assoc {A} (k : string) (l : list (string * A)) : option A :=
  match l with
  | [] => None
  | (k', v) :: rest => if (k' =? k)%string then Some v else assoc k rest
  end.

Fixpoint assoc_set {A} (k : string) (v : A) (l : list (string * A))
  : list (string * A) :=
  match l with
  | [] => [(k, v)]
  | (k', v') :: rest =>
      if (k' =? k)%string then (k, v) :: rest else (k', v') :: assoc_set k v rest
  end.

Definition assoc_del {A} (k : string) (l : list (string * A))
  : list (string * A) :=
  filter (fun kv => negb (fst kv =? k)%string) l.

Definition os_Getenv (key : string) (w : World) : string :=
  match assoc key (env w) with
  | Some v => v
  | None => ""
  end.

Fixpoint has_byte (c : ascii) (s : string) : bool :=
  match s with
  | EmptyString => false
  | String a rest => Ascii.eqb a c || has_byte c rest
  end.

(** [os.Setenv]: [EINVAL] for an empty key, a key with [=] or a NUL byte,
    and a value with a NUL byte. *)
Definition os_Setenv (key value : string) : M unit :=
  fun w =>
    if (key =? "")%string || has_byte "="%char key || has_byte Ascii.zero key
       || has_byte Ascii.zero value
    then (Err (ErrOther "setenv: invalid argument"), w)
    else (Ok tt, set_env w (assoc_set key value (env w))).

Definition os_Unsetenv (key : string) (w : World) : World :=
  set_env w (assoc_del key (env w)).

(** [os.TempDir]. *)
Definition os_TempDir (w : World) : string :=
  let d := os_Getenv "TMPDIR" w in
  if (d =? "")%string then "/tmp" else d.

Fixpoint TempDir_try (dir prefix : string) (names : list string) : M string :=
  match names with
  | [] => fail (PathError "mkdir" (Filepath.Join [dir; prefix]) EEXIST)
  | r :: rest =>
      fun w =>
        let name := Filepath.Join [dir; (prefix ++ r)%string] in
        match os_Mkdir name 448 w with
        | (Ok _, w') => (Ok name, set_tmpnames w' rest)
        | (Err (PathError _ _ EEXIST), _) => TempDir_try dir prefix rest w
        | (Err e, w') => (Err e, w')
        | (Panic msg, w') => (Panic msg, w')
        | (Exit c, w') => (Exit c, w')
        end
  end.

(** [ioutil.TempDir(dir, prefix)]: a new directory with a random suffix,
    drawn again when the name is taken. *)
Definition ioutil_TempDir (dir prefix : string) : M string :=
  fun w =>
    let dir := if (dir =? "")%string then os_TempDir w else dir in
    TempDir_try dir prefix (tmpnames w) w.

(** What [io.Copy] reads from. *)
Inductive reader :=
| FileReader (h : handle)
| BodyReader (r : response).

Definition io_Copy (dst : handle) (src : reader) : M unit :=
  match src with
  | FileReader h => (c <- file_ReadAll h ;; file_Write dst c)%go
  | BodyReader r =>
      (file_Write dst (Body r) ;;
       if body_fails r then fail (ErrOther "unexpected EOF") else ret tt)%go
  end.

(** [http.Get]. *)
Definition http_Get (uri : string) : M response :=
  fun w =>
    match assoc uri (net w) with
    | Some r => (Ok r, add_transfer w uri)
    | None =>
        (Err (ErrOther ("Get " ++ uri ++ ": dial tcp: connection refused")%string),
         add_transfer w uri)
    end.

(** [filepath.SkipDir] is the only error [Walk] treats specially. *)
Definition is_SkipDir (e : error) : bool :=
  match e with
  | SkipDir => true
  | _ => false
  end.

Definition is_dir (n : node) : bool :=
  match n with
  | Dir _ _ => true
  | _ => false
  end.

Section Walk.

Variable walkFn : string -> option FileInfo -> option error -> M unit.

(** The loop of [filepath.walk] over the entries of a directory. *)
Fixpoint walk_entries (walk_child : string -> node -> M unit)
    (path : string) (es : list (string * node)) : M unit :=
  match es with
  | [] => ret tt
  | (name, child) :: rest =>
      let filename := Filepath.Join [path; name] in
      r <- try (walk_child filename child) ;;
      match r with
      | inr err =>
          if negb (is_dir child) || negb (is_SkipDir err) then fail err
          else walk_entries walk_child path rest
      | inl _ => walk_entries walk_child path rest
      end
  end.

(** [filepath.walk].  The tree below the root is the one found when the
    walk starts: what the visiting function writes elsewhere does not
    change what is listed. *)
Fixpoint walk (path : string) (n : node) {struct n} : M unit :=
  match n with
  | Dir _ es =>
      r <- try (walkFn path (Some (node_info path n)) None) ;;
      match r with
      | inr err1 => fail err1
      | inl _ => walk_entries walk path es
      end
  | _ => walkFn path (Some (node_info path n)) None
  end.

(** [filepath.Walk]. *)
Definition Walk (root : string) : M unit :=
  fun w =>
    let visit :=
      match lookup (resolve root) (fs w) with
      | Some n => walk root n
      | None => walkFn root None (Some (PathError "lstat" root ENOENT))
      end in
    match visit w with
    | (Err err, w') => if is_SkipDir err then (Ok tt, w') else (Err err, w')
    | r => r
    end.

End Walk.

(** ** The packager: data *)

(** Modelled from the spec: the struct declarations [File], [Dependency]
    and [Manifest] of this package are outside packager.go; the fields are
    those packager.go reads ([File{file, path}] is [Name] then [Path]). *)
Record File := mkFile { Name : string; Path : string }.

Record Dependency := mkDependency {
  URI : string;
  SHA256 : string;
  Stacks : list string
}.

Record Manifest := mkManifest {
  Language : string;
  PrePackage : string;
  IncludeFiles : list string;
  Dependencies : list Dependency
}.

(** A document as [yaml.Unmarshal] hands it over in an [interface{}]: a
    sequence is a [[]interface{}], a mapping a
    [map[interface{}]interface{}]. *)
Unset Elimination Schemes.
Inductive yaml :=
| YNull
| YBool (b : bool)
| YInt (z : Z)
| YStr (s : string)
| YSeq (items : list yaml)
| YMap (pairs : list (yaml * yaml)).
Set Elimination Schemes.

Definition is_key (k : string) (y : yaml) : bool :=
  match y with
  | YStr s => (s =? k)%string
  | _ => false
  end.

(** [dep[k] = v] on a [map[interface{}]interface{}]. *)
Fixpoint ymap_set (k : string) (v : yaml) (pairs : list (yaml * yaml))
  : list (yaml * yaml) :=
  match pairs with
  | [] => [(YStr k, v)]
  | (k', v') :: rest =>
      if is_key k k' then (k', v) :: rest else (k', v') :: ymap_set k v rest
  end.

Fixpoint ymap_get (k : string) (pairs : list (yaml * yaml)) : option yaml :=
  match pairs with
  | [] => None
  | (k', v') :: rest => if is_key k k' then Some v' else ymap_get k rest
  end.

(** The manifest model of package libbuildpack, as far as [validateStack]
    reads it. *)
Module Libbuildpack.
Record Dependency := mkDependency { Name : string; Version : string }.
Record ManifestEntry := mkManifestEntry {
  EntryDependency : Dependency;
  CFStacks : list string
}.
Record Manifest := mkManifest {
  ManifestEntries : list ManifestEntry;
  DefaultVersions : list Dependency
}.
End Libbuildpack.

Record URL := mkURL { Scheme : string; UrlPath : string }.

(** One member of a zip archive: its name, mode and uncompressed bytes. *)
Record zip_entry := mkZipEntry {
  ze_name : string;
  ze_mode : Z;
  ze_data : list byte
}.

(** [%d]. *)
Definition decimal (z : Z) : string :=
  DecimalString.NilZero.string_of_int (Z.to_int z).

(** ** The packager: operations *)

Section Packager.

(** Collaborators outside packager.go: URL parsing, the manifest model
    of libbuildpack, the YAML codec, running a command, and the byte
    layout of zip archives. *)
Variable url_Parse : string -> URL + error.
Variable libbuildpack_NewManifest : string -> M Libbuildpack.Manifest.
Variable Manifest_DefaultVersion :
  Libbuildpack.Manifest -> string -> M Libbuildpack.Dependency.
Variable yaml_Unmarshal_Manifest : list byte -> Manifest + error.
Variable yaml_Unmarshal : list byte -> option (list (string * yaml)) + error.
Variable yaml_Marshal : list (string * yaml) -> list byte + error.
Variable exec_CombinedOutput : string -> string -> World -> (list byte * option error) * World.
Variable zip_local : zip_entry -> list byte.
Variable zip_central : list zip_entry -> list byte.

Definition lift {A} (r : A + error) : M A :=
  match r with
  | inl a => ret a
  | inr e => fail e
  end.

(** [log.Fatalf]: the message goes to the log and the process exits with
    status 1. *)
Definition log_Fatalf {A} (msg : string) : M A := fun w => (Exit 1, w).

(** Ghost step: a source is about to be read for a download. *)
Definition ghost_transfer (uri : string) : M unit :=
  fun w => (Ok tt, add_transfer w uri).

Definition hasStack (manifest : Libbuildpack.Manifest) (stack : string)
  : bool :=
  existsb (fun e => existsb (fun s => (s =? stack)%string)
                            (Libbuildpack.CFStacks e))
          (Libbuildpack.ManifestEntries manifest).

Fixpoint validateStack_defaults (manifest : Libbuildpack.Manifest)
    (stack : string) (ds : list Libbuildpack.Dependency) : M unit :=
  match ds with
  | [] => ret tt
  | d :: rest =>
      r <- try (Manifest_DefaultVersion manifest (Libbuildpack.Name d)) ;;
      match r with
      | inr _ =>
          fail (Errorf ("No matching default dependency `"
                        ++ Libbuildpack.Name d ++ "` for stack `"
                        ++ stack ++ "`")%string)
      | inl _ => validateStack_defaults manifest stack rest
      end
  end.

Definition validateStack (stack bpDir : string) : M unit :=
  if (stack =? "")%string then ret tt
  else
    manifest <- libbuildpack_NewManifest bpDir ;;
    if negb (hasStack manifest stack) then
      fail (Errorf ("Stack `" ++ stack ++ "` not found in manifest")%string)
    else
      os_Setenv "CF_STACK" stack ;;
      defer (os_Unsetenv "CF_STACK")
        (validateStack_defaults manifest stack
           (Libbuildpack.DefaultVersions manifest)).

(** [updateDependencyMap]: the map is changed in place; the result is the
    map after the call, or the error with the value left as it was. *)
Definition updateDependencyMap (dependencyMap : yaml) (file : File)
  : yaml + error :=
  match dependencyMap with
  | YMap dep => inl (YMap (ymap_set "file" (YStr (Name file)) dep))
  | _ => inr (Errorf "Could not cast deps[idx] to map[interface{}]interface{}")
  end.

Definition downloadFromURI (uri fileName : string) : M unit :=
  os_MkdirAll (Filepath.Dir fileName) 493 ;;
  output <- os_Create fileName ;;
  u <- lift (url_Parse uri) ;;
  if (Scheme u =? "file")%string then
    ghost_transfer uri ;;
    source <- os_Open (UrlPath u) ;;
    io_Copy output (FileReader source)
  else
    response <- http_Get uri ;;
    if (StatusCode response <? 200) || (StatusCode response >? 299) then
      fail (Errorf ("could not download: "
                    ++ decimal (StatusCode response))%string)
    else io_Copy output (BodyReader response).

Definition checkSha256 (filePath expectedSha256 : string) : M unit :=
  content <- ioutil_ReadFile filePath ;;
  let sum := Sha256.Sum256 content in
  let actualSha256 := Bytes.hex_EncodeToString sum in
  if negb (actualSha256 =? expectedSha256)%string then
    fail (Errorf ("dependency sha256 mismatch: expected sha256 "
                  ++ expectedSha256 ++ ", actual sha256 "
                  ++ actualSha256)%string)
  else ret tt.

(** The cache-relative name of a dependency's file. *)
Definition cacheFile (dependency : Dependency) : string :=
  Filepath.Join
    ["dependencies";
     Bytes.hex_EncodeToString (Md5.Sum (Bytes.of_string (URI dependency)));
     Filepath.Base (URI dependency)].

Definition downloadDependency (dependency : Dependency) (cacheDir : string)
  : M File :=
  let file := cacheFile dependency in
  r <- try (os_MkdirAll cacheDir 493) ;;
  match r with
  | inr err => log_Fatalf ("error: " ++ error_string err)%string
  | inl _ => ret tt
  end ;;
  r <- try (os_Stat (Filepath.Join [cacheDir; file])) ;;
  match r with
  | inr _ => downloadFromURI (URI dependency) (Filepath.Join [cacheDir; file])
  | inl _ => ret tt
  end ;;
  checkSha256 (Filepath.Join [cacheDir; file]) (SHA256 dependency) ;;
  ret (mkFile file (Filepath.Join [cacheDir; file])).

(** The loop of [ZipFiles].  [written] are the members the zip writer
    holds; the deferred [zipWriter.Close()] writes their central
    directory on every way out of the loop. *)
Definition zip_close {A} (newfile : handle) (written : list zip_entry)
    (result : error + A) : M A :=
  file_Write newfile (zip_central written) ;;
  match result with
  | inl err => fail err
  | inr a => ret a
  end.

Fixpoint ZipFiles_loop (newfile : handle) (written : list zip_entry)
    (files : list File) : M unit :=
  match files with
  | [] => zip_close newfile written (inr tt)
  | file :: rest =>
      r <- try (os_Open (Path file)) ;;
      match r with
      | inr err => zip_close newfile written (inl err)
      | inl zipfile =>
          r <- try (file_Stat (Path file) zipfile) ;;
          match r with
          | inr err => zip_close newfile written (inl err)
          | inl info =>
              (* header.Method = zip.Deflate; header.Name = file.Name *)
              r <- try (file_ReadAll zipfile) ;;
              match r with
              | inr err =>
                  let entry := mkZipEntry (Name file) (Mode info) [] in
                  file_Write newfile (zip_local entry) ;;
                  zip_close newfile (written ++ [entry]) (inl err)
              | inl data =>
                  let entry := mkZipEntry (Name file) (Mode info) data in
                  file_Write newfile (zip_local entry) ;;
                  ZipFiles_loop newfile (written ++ [entry]) rest
              end
          end
      end
  end.

Definition ZipFiles (filename : string) (files : list File) : M unit :=
  newfile <- os_Create filename ;;
  ZipFiles_loop newfile [] files.

(** The function [copyDirectory] hands to [filepath.Walk]. *)
Definition copyDirectory_visit (srcDir destDir : string)
    (path : string) (info : option FileInfo) (err : option error) : M unit :=
  match err, info with
  | Some err, _ => fail err
  | None, None => panic "invalid memory address or nil pointer dereference"
  | None, Some info =>
      match Filepath.Rel srcDir path with
      | None =>
          fail (ErrOther ("Rel: can't make " ++ path ++ " relative to "
                          ++ srcDir)%string)
      | Some path =>
          if (path =? ".git")%string || (path =? "tests")%string then
            fail SkipDir
          else
            let dest := Filepath.Join [destDir; path] in
            if negb (Z.land (Mode info) ModeSymlink =? 0) then
              let srcPath := Filepath.Join [srcDir; path] in
              r <- try (os_Readlink srcPath) ;;
              match r with
              | inr err =>
                  fail (Errorf ("Error while reading symlink '" ++ srcPath
                                ++ "': " ++ error_string err)%string)
              | inl target =>
                  r <- try (os_Symlink target dest) ;;
                  match r with
                  | inr err =>
                      fail (Errorf ("Error while creating '" ++ dest
                                    ++ "' as symlink to '" ++ target
                                    ++ "': " ++ error_string err)%string)
                  | inl _ => ret tt
                  end
              end
            else if IsDir info then os_MkdirAll dest (Mode info)
            else
              src <- os_Open (Filepath.Join [srcDir; path]) ;;
              os_MkdirAll (Filepath.Dir dest) 493 ;;
              fh <- os_OpenFile_create_trunc dest (Mode info) ;;
              io_Copy fh (FileReader src)
      end
  end.

Definition copyDirectory (srcDir : string) : M string :=
  destDir <- ioutil_TempDir "" "buildpack-packager" ;;
  Walk (copyDirectory_visit srcDir destDir) srcDir ;;
  ret destDir.

(** Modelled from the spec: [readManifest] is outside packager.go; it
    loads the typed view of [manifest.yml] in the given directory. *)
Definition readManifest (dir : string) : M Manifest :=
  data <- ioutil_ReadFile (Filepath.Join [dir; "manifest.yml"]) ;;
  lift (yaml_Unmarshal_Manifest data).

(** Modelled from the spec: [libbuildpack.NewYAML().Load] and [.Write]
    are outside packager.go; they read and decode, encode and write a
    document. *)
Definition YAML_Load (file : string)
  : M (option (list (string * yaml))) :=
  data <- ioutil_ReadFile file ;;
  lift (yaml_Unmarshal data).

Definition YAML_Write (dest : string) (obj : list (string * yaml)) : M unit :=
  data <- lift (yaml_Marshal obj) ;;
  ioutil_WriteFile dest data 438.

(** [filepath.Abs], the working directory being the root. *)
Definition filepath_Abs (path : string) : M string :=
  if Filepath.IsAbs path then ret (Filepath.Clean path)
  else ret (Filepath.Join ["/"; path]).

(** The inner loop of [Package] over [d.Stacks]: the first stack that
    matches retains the dependency and leaves the loop ([break]). *)
Fixpoint Package_stacks (cacheDir stack : string) (cached : bool)
    (deps : list yaml) (idx : nat) (d : Dependency) (stacks : list string)
    (files : list File) (dependenciesForStack : list yaml)
  : M (list File * list yaml) :=
  match stacks with
  | [] => ret (files, dependenciesForStack)
  | s :: rest =>
      if (stack =? "")%string || (s =? stack)%string then
        match nth_error deps idx with
        | None => panic "runtime error: index out of range"
        | Some dependencyMap =>
            if cached then
              file <- downloadDependency d cacheDir ;;
              (* the error of updateDependencyMap is dropped *)
              let dependencyMap :=
                match updateDependencyMap dependencyMap file with
                | inl updated => updated
                | inr _ => dependencyMap
                end in
              ret (files ++ [file], dependenciesForStack ++ [dependencyMap])
            else ret (files, dependenciesForStack ++ [dependencyMap])
        end
      else
        Package_stacks cacheDir stack cached deps idx d rest
          files dependenciesForStack
  end.

(** The outer loop of [Package] over [manifest.Dependencies]. *)
Fixpoint Package_dependencies (cacheDir stack : string) (cached : bool)
    (deps : list yaml) (idx : nat) (ds : list Dependency)
    (files : list File) (dependenciesForStack : list yaml)
  : M (list File * list yaml) :=
  match ds with
  | [] => ret (files, dependenciesForStack)
  | d :: rest =>
      r <- Package_stacks cacheDir stack cached deps idx d (Stacks d)
             files dependenciesForStack ;;
      Package_dependencies cacheDir stack cached deps (S idx) rest
        (fst r) (snd r)
  end.

(** [Package] up to the call of [ZipFiles]: everything that prepares the
    staged directory, and the name and members of the archive. *)
Definition Package_prepare (bpDir cacheDir version stack : string)
    (cached : bool) : M (string * list File) :=
  bpDir <- filepath_Abs bpDir ;;
  validateStack stack bpDir ;;
  dir <- copyDirectory bpDir ;;
  ioutil_WriteFile (Filepath.Join [dir; "VERSION"])
    (Bytes.of_string version) 420 ;;
  manifest <- readManifest dir ;;
  (if negb (PrePackage manifest =? "")%string then
     fun w =>
       match exec_CombinedOutput (PrePackage manifest) dir w with
       | ((out, Some err), w') =>
           (Err err, add_stdout w' (Bytes.to_string out))
       | ((_, None), w') => (Ok tt, w')
       end
   else ret tt) ;;
  let files :=
    map (fun name => mkFile name (Filepath.Join [dir; name]))
        (IncludeFiles manifest) in
  m <- YAML_Load (Filepath.Join [dir; "manifest.yml"]) ;;
  (* a document that is empty leaves the map nil: it reads as an empty
     map, and assigning to it panics *)
  m <- (if negb (stack =? "")%string then
          match m with
          | Some m => ret (assoc_set "stack" (YStr stack) m)
          | None => panic "assignment to entry in nil map"
          end
        else
          match m with
          | Some m => ret m
          | None => ret []
          end) ;;
  match assoc "dependencies" m with
  | Some (YSeq deps) =>
      r <- Package_dependencies cacheDir stack cached deps 0
             (Dependencies manifest) files [] ;;
      let '(files, dependenciesForStack) := r in
      let m := assoc_set "dependencies" (YSeq dependenciesForStack) m in
      YAML_Write (Filepath.Join [dir; "manifest.yml"]) m ;;
      let zipFile :=
        if cached
        then (Language manifest ++ "_buildpack-cached-v" ++ version ++ ".zip")%string
        else (Language manifest ++ "_buildpack-v" ++ version ++ ".zip")%string in
      let zipFile := Filepath.Join [bpDir; zipFile] in
      ret (zipFile, files)
  | _ => fail (Errorf "Could not cast dependencies to []interface{}")
  end.

(** [Package]: its last two statements are [ZipFiles(zipFile, files)],
    whose error is not assigned, and [return zipFile, err], where [err]
    was last set by [readManifest] and is nil. *)
Definition Package (bpDir cacheDir version stack : string) (cached : bool)
  : M string :=
  r <- Package_prepare bpDir cacheDir version stack cached ;;
  let '(zipFile, files) := r in
  _ <- try (ZipFiles zipFile files) ;;
  ret zipFile.

End Packager.

(** ** Notions used in the statements *)

(** Two paths diverge when they differ at a component before either
    ends. *)
Fixpoint diverge (p q : list string) : bool :=
  match p, q with
  | a :: p', b :: q' => if (a =? b)%string then diverge p' q' else true
  | _, _ => false
  end.

(** Components without a separator, and components [Clean] keeps. *)
Fixpoint slashfree (s : string) : bool :=
  match s with
  | EmptyString => true
  | String c rest => negb (Ascii.eqb c Filepath.Separator) && slashfree rest
  end.

Definition plain (c : string) : bool :=
  negb (c =? "")%string && negb (c =? ".")%string && negb (c =? "..")%string.

(** Nothing empty and no dot is ever kept. *)
Definition kept (c : string) : bool := negb (c =? "")%string && negb (c =? ".")%string.

(** A call returns, with or without an error: it neither panics nor ends
    the process. *)
Definition returns {A} (r : outcome A) : Prop :=
  match r with
  | Ok _ | Err _ => True
  | _ => False
  end.

Definition normal {A} (m : M A) : Prop := forall w, returns (fst (m w)).

(** [strings.ToLower] on ASCII text. *)
Definition lower_char (c : ascii) : ascii :=
  let n := Ascii.nat_of_ascii c in
  if ((65 <=? n) && (n <=? 90))%nat then Ascii.ascii_of_nat (n + 32) else c.

Fixpoint ToLower (s : string) : string :=
  match s with
  | EmptyString => EmptyString
  | String c rest => String (lower_char c) (ToLower rest)
  end.


(** What [checkSha256] answers for a file with a given content. *)
Definition verdict (content : list byte) (expectedSha256 : string)
  : outcome unit :=
  let actualSha256 := Bytes.hex_EncodeToString (Sha256.Sum256 content) in
  if (actualSha256 =? expectedSha256)%string then Ok tt
  else Err (Errorf ("dependency sha256 mismatch: expected sha256 "
                    ++ expectedSha256 ++ ", actual sha256 "
                    ++ actualSha256)%string).

(** What [downloadDependency] returns once the checksum has answered. *)
Definition fetched (d : Dependency) (cacheDir : string) (v : outcome unit)
  : outcome File :=
  match v with
  | Ok _ => Ok (mkFile (cacheFile d) (Filepath.Join [cacheDir; cacheFile d]))
  | Err e => Err e
  | Panic msg => Panic msg
  | Exit c => Exit c
  end.

(** The test of the loops of [Package], [stack == "" || s == stack], and
    the dependencies of which some stack passes it. *)
Definition stack_passes (stack s : string) : bool :=
  (stack =? "")%string || (s =? stack)%string.

Definition retained (stack : string) (d : Dependency) : bool :=
  existsb (stack_passes stack) (Stacks d).

(** Which dependencies stay, in words: with a target stack, those that
    list it; without one, those that list any stack at all. *)
Definition keeps (stack : string) (d : Dependency) : bool :=
  if (stack =? "")%string then
    match Stacks d with
    | [] => false
    | _ :: _ => true
    end
  else existsb (String.eqb stack) (Stacks d).

(** The entry of a retained dependency in cached mode: a mapping gets its
    ["file"] key, anything else stays as it is. *)
Definition with_file (d : Dependency) (entry : yaml) : yaml :=
  match entry with
  | YMap dep => YMap (ymap_set "file" (YStr (cacheFile d)) dep)
  | _ => entry
  end.

Definition cached_file (cacheDir : string) (d : Dependency) : File :=
  mkFile (cacheFile d) (Filepath.Join [cacheDir; cacheFile d]).

Definition kept_pair (stack : string) (p : Dependency * yaml) : bool :=
  keeps stack (fst p).

(** What the loop of [Package] over the stacks does once a stack matches:
    the body of its [if]. *)
Definition retain (url_Parse : string -> URL + error) (cacheDir : string)
    (cached : bool) (deps : list yaml) (idx : nat) (d : Dependency)
    (files : list File) (dependenciesForStack : list yaml)
  : M (list File * list yaml) :=
  match nth_error deps idx with
  | None => panic "runtime error: index out of range"
  | Some dependencyMap =>
      if cached then
        file <- downloadDependency url_Parse d cacheDir ;;
        let dependencyMap :=
          match updateDependencyMap dependencyMap file with
          | inl updated => updated
          | inr _ => dependencyMap
          end in
        ret (files ++ [file], dependenciesForStack ++ [dependencyMap])
      else ret (files, dependenciesForStack ++ [dependencyMap])
  end.

(** [downloadFromURI] after it has created the destination file. *)
Definition download_rest (url_Parse : string -> URL + error)
    (uri : string) (output : handle) : M unit :=
  u <- lift (url_Parse uri) ;;
  if (Scheme u =? "file")%string then
    ghost_transfer uri ;;
    source <- os_Open (UrlPath u) ;;
    io_Copy output (FileReader source)
  else
    response <- http_Get uri ;;
    if (StatusCode response <? 200) || (StatusCode response >? 299) then
      fail (Errorf ("could not download: "
                    ++ decimal (StatusCode response))%string)
    else io_Copy output (BodyReader response).


(** What is known of a world in which [output] is an open regular file,
    compared with the world [w] at the start of the download. *)
Definition file_at (output : handle) (w w' : World) (log : list string) : Prop :=
  (exists perm c, lookup output (fs w') = Some (Reg perm c)) /\
  net w' = net w /\ transfers w' = transfers w ++ log.

(** What [os.MkdirAll] does for a path that was cleaned, on its
    components: existing directories are kept, missing ones are created
    with [perm]; a prefix that is not a directory makes it fail, before
    anything was created. *)
Fixpoint mkdirAll (perm : Z) (p : list string) (n : node) : option node :=
  match n with
  | Dir m es =>
      match p with
      | [] => Some n
      | c :: p' =>
          let child := match find c es with
                       | Some ch => ch
                       | None => Dir perm []
                       end in
          match mkdirAll perm p' child with
          | Some child' => Some (Dir m (es_put c child' es))
          | None => None
          end
      end
  | _ => None
  end.

(** What is kept of a walk: the tree, and whether it came to its end. *)
Definition walked (x : node * option (list string * bool)) : node * bool :=
  (fst x, match snd x with None => true | Some _ => false end).

(** A path is cleaned when it is what [Clean] returns, or empty, the one
    other thing [Join] returns. *)
Definition cleaned (path : string) : Prop :=
  path = "" \/ exists s, path = Filepath.Clean s.

(** The directories of a tree stay when every directory of [n] is a
    directory of [n'], with the same permissions. *)
Definition dirs_stay (n n' : node) : Prop :=
  forall q m es, lookup q n = Some (Dir m es) ->
                 exists es', lookup q n' = Some (Dir m es').

(** The walk of [os.MkdirAll] finds every directory in place. *)
Fixpoint walks (cur comps : list string) (n : node) : bool :=
  match comps with
  | [] => true
  | c :: rest =>
      if ((c =? "") || (c =? "."))%string then walks cur rest n
      else if (c =? "..")%string then walks (removelast cur) rest n
      else match lookup (cur ++ [c]) n with
           | Some (Dir _ _) => walks (cur ++ [c]) rest n
           | _ => false
           end
  end.

(** The ways through [downloadDependency] on which the checksum is
    taken. *)
Definition reaches_checksum (url_Parse : string -> URL + error)
    (d : Dependency) (cacheDir : string) (w0 wm : World) : Prop :=
  let path := Filepath.Join [cacheDir; cacheFile d] in
  ((exists fi, os_Stat path w0 = (Ok fi, w0)) /\ wm = w0) \/
  ((exists err, os_Stat path w0 = (Err err, w0)) /\
   downloadFromURI url_Parse (URI d) path w0 = (Ok tt, wm)).

(** The stack of a cleaned relative path: names on top of a run of
    [".."] components. *)
Fixpoint stack_ok (st : list string) : bool :=
  match st with
  | [] => true
  | c :: rest =>
      if (c =? "..")%string then forallb (String.eqb "..") rest
      else plain c && stack_ok rest
  end.

(** The stacks [Clean] ends with: for a rooted path only names, for a
    relative path names on top of [".."] components. *)
Definition stack_nf (rooted : bool) (st : list string) : bool :=
  (if rooted then forallb plain st else stack_ok st) && forallb slashfree st.

Fixpoint is_prefix (p q : list string) : bool :=
  match p, q with
  | [], _ => true
  | a :: p', b :: q' => (a =? b)%string && is_prefix p' q'
  | _ :: _, [] => false
  end.

(** Every entry below a node has a real file name: not empty, not a dot
    or two, without a separator. *)
Fixpoint names_ok (n : node) : bool :=
  match n with
  | Dir _ es =>
      forallb (fun e : string * node =>
                 let (name, child) := e in
                 plain name && slashfree name && names_ok child) es
  | _ => true
  end.

(** A node without an entry of its own: what [put] places. *)
Definition leaf (n : node) : Prop :=
  match n with
  | Dir _ (_ :: _) => False
  | _ => True
  end.

(** What [copyDirectory] does for an entry it does not skip: the part of
    its visiting function after the test on [.git] and [tests], for the
    path [path] relative to the source. *)
Definition copy_entry (srcDir destDir path : string) (info : FileInfo)
  : M unit :=
  let dest := Filepath.Join [destDir; path] in
  if negb (Z.land (Mode info) ModeSymlink =? 0) then
    let srcPath := Filepath.Join [srcDir; path] in
    r <- try (os_Readlink srcPath) ;;
    match r with
    | inr err =>
        fail (Errorf ("Error while reading symlink '" ++ srcPath
                      ++ "': " ++ error_string err)%string)
    | inl target =>
        r <- try (os_Symlink target dest) ;;
        match r with
        | inr err =>
            fail (Errorf ("Error while creating '" ++ dest
                          ++ "' as symlink to '" ++ target
                          ++ "': " ++ error_string err)%string)
        | inl _ => ret tt
        end
    end
  else if IsDir info then os_MkdirAll dest (Mode info)
  else
    src <- os_Open (Filepath.Join [srcDir; path]) ;;
    os_MkdirAll (Filepath.Dir dest) 493 ;;
    fh <- os_OpenFile_create_trunc dest (Mode info) ;;
    io_Copy fh (FileReader src).

(** The names [copyDirectory] tests for. *)
Definition skipped (name : string) : bool :=
  (name =? ".git")%string || (name =? "tests")%string.

(** The path [Walk] builds for the entry reached by [names] from the
    source directory. *)
Definition walk_path (srcDir : string) (names : list string) : string :=
  Filepath.render (Filepath.IsAbs srcDir)
    (rev (rev names ++
          fold_left (Filepath.push (Filepath.IsAbs srcDir))
                    (Filepath.split srcDir) [])).

(** ** A concrete setting for the examples

    Collaborators simple enough to run: a URL parser for
    [scheme://host/path] and [scheme:rest], a YAML codec that knows the
    documents of the examples, a manifest model with one stack, and a zip
    layout that lists the members. *)

Module Scenario.

Fixpoint scheme_of (s : string) : option (string * string) :=
  match s with
  | EmptyString => None
  | String c rest =>
      if Ascii.eqb c ":" then Some (EmptyString, rest)
      else match scheme_of rest with
           | Some (sch, r) => Some (String c sch, r)
           | None => None
           end
  end.

Definition url_Parse (s : string) : URL + error :=
  match scheme_of s with
  | Some (EmptyString, _) =>
      inr (ErrOther ("parse " ++ s ++ ": missing protocol scheme")%string)
  | Some (sch, rest) =>
      match Filepath.split rest with
      | EmptyString :: EmptyString :: host :: path =>
          inl (mkURL sch ("/" ++ String.concat "/" path)%string)
      | _ => inl (mkURL sch rest)
      end
  | None => inl (mkURL "" s)
  end.

Definition world (root : node) (net : list (string * response)) : World :=
  mkWorld root [] net ["001"; "002"] [] [].


(** A dependency served over HTTP, and the path of its file in the cache
    [/cache]. *)
Definition dep_uri : string := "http://example.com/x/a.tgz".
Definition sha_abc : string :=
  "ba7816bf8f01cfea414140de5dae2223b00361a396177a9cb410ff61f20015ad".
Definition sha_abc_upper : string :=
  "BA7816BF8F01CFEA414140DE5DAE2223B00361A396177A9CB410FF61F20015AD".
Definition sha_empty : string :=
  "e3b0c44298fc1c149afbf4c8996fb92427ae41e4649b934ca495991b7852b855".
Definition dep_good : Dependency := mkDependency dep_uri sha_abc ["cflinuxfs3"].
Definition dep_bad : Dependency :=
  mkDependency dep_uri
    "0000000000000000000000000000000000000000000000000000000000000000"
    ["cflinuxfs3"].

Definition abc : list byte := Bytes.of_string "abc".

(** A cache that holds the file of [dep_uri] with content [abc]. *)
Definition cache_with (content : list byte) : node :=
  Dir 493
    [("cache",
      Dir 493
        [("dependencies",
          Dir 493
            [("2f67f96d623098d1b533c71d2562a686",
              Dir 493 [("a.tgz", Reg 420 content)])])])].

Definition empty_cache : node := Dir 493 [("cache", Dir 493 [])].

(** The same cache in the working directory, the one an empty cache
    directory names. *)
Definition cache_here (content : list byte) : node :=
  Dir 493
    [("dependencies",
      Dir 493
        [("2f67f96d623098d1b533c71d2562a686",
          Dir 493 [("a.tgz", Reg 420 content)])])].

(** The cache [/cache] with a regular file [f] beside [dependencies]. *)
Definition cache_beside_file (content : list byte) : node :=
  Dir 493
    [("cache",
      Dir 493
        [("dependencies",
          Dir 493
            [("2f67f96d623098d1b533c71d2562a686",
              Dir 493 [("a.tgz", Reg 420 content)])]);
         ("f", Reg 420 [])])].

Definition serving (content : list byte) : list (string * response) :=
  [(dep_uri, Response 200 content false)].

(** Raw manifest entries, and dependencies for the filter. *)
Definition entry (name : string) : yaml :=
  YMap [(YStr "name", YStr name); (YStr "uri", YStr dep_uri)].

Definition dep_on (stacks : list string) : Dependency :=
  mkDependency dep_uri sha_abc stacks.

(** A buildpack in [/bp]: its manifest declares language ruby, two
    included files, of which [missing.txt] is not there, and two
    dependencies, one for each of two stacks. *)
Definition manifest_text : list byte := Bytes.of_string "manifest of ruby".
Definition short_manifest_text : list byte := Bytes.of_string "short manifest".

Definition manifest (hook : string) : Manifest :=
  mkManifest "ruby" hook ["bin/run"; "missing.txt"]
    [dep_on ["cflinuxfs3"]; dep_on ["cflinuxfs2"]].

Definition document : list (string * yaml) :=
  [("language", YStr "ruby");
   ("dependencies", YSeq [entry "a"; entry "b"])].

Definition yaml_Unmarshal_Manifest (hook : string) (data : list byte)
  : Manifest + error :=
  if (Bytes.to_string data =? Bytes.to_string manifest_text)%string
  then inl (manifest hook)
  else inr (ErrOther "yaml: unmarshal errors").

Definition yaml_Unmarshal (data : list byte)
  : option (list (string * yaml)) + error :=
  if (Bytes.to_string data =? Bytes.to_string manifest_text)%string
  then inl (Some document)
  else if (Bytes.to_string data =? Bytes.to_string short_manifest_text)%string
  then inl (Some [("language", YStr "ruby"); ("dependencies", YSeq [])])
  else inr (ErrOther "yaml: unmarshal errors").

Fixpoint show (y : yaml) : string :=
  match y with
  | YNull => "null"
  | YBool b => if b then "true" else "false"
  | YInt z => decimal z
  | YStr s => s
  | YSeq items => ("[" ++ String.concat ", " (map show items) ++ "]")%string
  | YMap pairs =>
      ("{" ++ String.concat ", "
                (map (fun kv => (show (fst kv) ++ ": " ++ show (snd kv))%string)
                     pairs) ++ "}")%string
  end.

Definition yaml_Marshal (m : list (string * yaml)) : list byte + error :=
  inl (Bytes.of_string
         (String.concat "; "
            (map (fun kv => (fst kv ++ ": " ++ show (snd kv))%string) m))).

Definition libbuildpack_NewManifest (bpDir : string) : M Libbuildpack.Manifest :=
  ret (Libbuildpack.mkManifest
         [Libbuildpack.mkManifestEntry
            (Libbuildpack.mkDependency "ruby" "2.4.1") ["cflinuxfs3"]]
         []).

Definition Manifest_DefaultVersion (m : Libbuildpack.Manifest) (name : string)
  : M Libbuildpack.Dependency :=
  fail (ErrOther ("no default version for " ++ name)%string).

(** The only command that runs is [shrink]: it replaces the manifest in
    its working directory by the short one. *)
Definition exec_CombinedOutput (command dir : string) (w : World)
  : (list byte * option error) * World :=
  if (command =? "shrink")%string then
    match ioutil_WriteFile (Filepath.Join [dir; "manifest.yml"])
            short_manifest_text 420 w with
    | (Ok _, w') => (([], None), w')
    | (_, w') => (([], Some (ErrOther "exit status 1")), w')
    end
  else (([], Some (ErrOther "exec: file not found")), w).

Definition zip_local (e : zip_entry) : list byte :=
  Bytes.of_string (ze_name e) ++ ze_data e.

Definition zip_central (es : list zip_entry) : list byte :=
  Bytes.of_string (String.concat "," (map ze_name es)).

Definition buildpack : node :=
  Dir 493
    [("bp",
      Dir 493
        [("bin", Dir 493 [("run", Reg 493 (Bytes.of_string "#!/bin/sh"))]);
         ("manifest.yml", Reg 420 manifest_text)]);
     ("tmp", Dir 511 [])].

Definition Package (hook : string) :=
  Package url_Parse libbuildpack_NewManifest Manifest_DefaultVersion
    (yaml_Unmarshal_Manifest hook) yaml_Unmarshal yaml_Marshal
    exec_CombinedOutput zip_local zip_central.

Definition Package_prepare (hook : string) :=
  Package_prepare url_Parse libbuildpack_NewManifest Manifest_DefaultVersion
    (yaml_Unmarshal_Manifest hook) yaml_Unmarshal yaml_Marshal
    exec_CombinedOutput.

(** A source tree with [.git] and [tests] at the top and, inside [lib],
    at depth two. *)
Definition source_tree : node :=
  Dir 493
    [("bp",
      Dir 493
        [(".git", Dir 493 [("HEAD", Reg 420 (Bytes.of_string "ref"))]);
         ("bin", Dir 493 [("run", Reg 493 (Bytes.of_string "#!/bin/sh"))]);
         ("lib",
          Dir 493
            [(".git", Dir 493 [("HEAD", Reg 420 (Bytes.of_string "ref"))]);
             ("tests", Dir 493 [("unit.rb", Reg 420 (Bytes.of_string "assert"))])]);
         ("tests", Dir 493 [("spec.rb", Reg 420 (Bytes.of_string "it"))])]);
     ("tmp", Dir 511 [])].

End Scenario.

(** ** A manifest with default versions

    A manifest model in which [DefaultVersion] looks for an entry of the
    given name that lists the stack found in [CF_STACK]. *)

Module Defaults.

Definition manifest : Libbuildpack.Manifest :=
  Libbuildpack.mkManifest
    [Libbuildpack.mkManifestEntry
       (Libbuildpack.mkDependency "ruby" "2.4.1") ["cflinuxfs2"; "cflinuxfs3"];
     Libbuildpack.mkManifestEntry
       (Libbuildpack.mkDependency "node" "8.9.0") ["cflinuxfs2"]]
    [Libbuildpack.mkDependency "ruby" "2.4.1";
     Libbuildpack.mkDependency "node" "8.9.0"].

Definition libbuildpack_NewManifest (bpDir : string) : M Libbuildpack.Manifest :=
  ret manifest.

(** A manifest that lists a stack whose name is a NUL byte. *)
Definition manifest_nul : Libbuildpack.Manifest :=
  Libbuildpack.mkManifest
    [Libbuildpack.mkManifestEntry
       (Libbuildpack.mkDependency "ruby" "2.4.1") [String Ascii.zero ""]]
    [].

Definition Manifest_DefaultVersion (m : Libbuildpack.Manifest) (name : string)
  : M Libbuildpack.Dependency :=
  fun w =>
    match List.find
            (fun e =>
               (Libbuildpack.Name (Libbuildpack.EntryDependency e) =? name)%string
               && existsb (String.eqb (os_Getenv "CF_STACK" w))
                          (Libbuildpack.CFStacks e))
            (Libbuildpack.ManifestEntries m) with
    | Some e => (Ok (Libbuildpack.EntryDependency e), w)
    | None => (Err (ErrOther ("no match found for " ++ name)%string), w)
    end.

Definition world (stack : string) : World :=
  mkWorld (Dir 493 []) [("CF_STACK", stack); ("HOME", "/home/vcap")] []
    ["001"] [] [].

End Defaults.



(** No directory below a node lists a name twice. *)
Fixpoint distinct (l : list string) : bool :=
  match l with
  | [] => true
  | a :: rest => negb (existsb (String.eqb a) rest) && distinct rest
  end.

Fixpoint names_once (n : node) : bool :=
  match n with
  | Dir _ es =>
      distinct (map fst es)
      && forallb (fun e : string * node => names_once (snd e)) es
  | _ => true
  end.

(** What the copy of a file or link has to be: for a regular file a
    regular file with the same bytes, for a symbolic link a link with the
    same target.  Directories are not compared. *)
Definition copied (x : node) (y : option node) : Prop :=
  match x with
  | Reg _ content => exists perm, y = Some (Reg perm content)
  | Link target => y = Some (Link target)
  | Dir _ _ => True
  end.

(** Every file and link that is not at or below [p] is in [w'] what it
    was in [w]. *)
Definition keeps_outside (p : list string) (w w' : World) : Prop :=
  forall q x, is_dir x = false -> is_prefix p q = false ->
              lookup q (fs w) = Some x -> lookup q (fs w') = Some x.

(** The files and links of the node [n], found at [names] below the
    source [src], are in the world what they are in [n]. *)
Definition source_intact (src names : list string) (n : node) (w : World)
  : Prop :=
  forall q x, is_dir x = false -> lookup q n = Some x ->
              lookup (src ++ names ++ q) (fs w) = Some x.

(** The files and links of [n] have their copies at [names] below the
    destination [dst]. *)
Definition stages (dst names : list string) (n : node) (w : World) : Prop :=
  forall q x, is_dir x = false -> lookup q n = Some x ->
              copied x (lookup (dst ++ names ++ q) (fs w)).

(** A path below the source whose first name is not one of those skipped
    at the top. *)
Definition first_ok (names : list string) : Prop :=
  forall k rest, names = k :: rest -> skipped k = false.

(** A computation that never returns [filepath.SkipDir]. *)
Definition no_skip {A} (m : M A) : Prop :=
  forall w e w', m w = (Err e, w') -> is_SkipDir e = false.


(** * Test vectors of the library models *)

Example sha256_empty :
  Bytes.hex_EncodeToString (Sha256.Sum256 []) =
  "e3b0c44298fc1c149afbf4c8996fb92427ae41e4649b934ca495991b7852b855".
Proof. vm_compute. reflexivity. Qed.

Example sha256_abc :
  Bytes.hex_EncodeToString (Sha256.Sum256 (Bytes.of_string "abc")) =
  "ba7816bf8f01cfea414140de5dae2223b00361a396177a9cb410ff61f20015ad".
Proof. vm_compute. reflexivity. Qed.

Example md5_empty :
  Bytes.hex_EncodeToString (Md5.Sum []) = "d41d8cd98f00b204e9800998ecf8427e".
Proof. vm_compute. reflexivity. Qed.

Example md5_abc :
  Bytes.hex_EncodeToString (Md5.Sum (Bytes.of_string "abc")) =
  "900150983cd24fb0d6963f7d28e17f72".
Proof. vm_compute. reflexivity. Qed.

Example Clean_examples :
  map Filepath.Clean ["a/c"; "a//c"; "a/c/."; "a/c/b/.."; "/../a/c";
                      "/../a/b/../././/c"; ""; "/"; "../../a"; "a/../.."] =
  ["a/c"; "a/c"; "a/c"; "a/c"; "/a/c"; "/a/c"; "."; "/"; "../../a"; ".."].
Proof. reflexivity. Qed.

Example Join_examples :
  map Filepath.Join [["a"; "b"; "c"]; ["a"; "b/c"]; ["a/b"; "/c"]; ["a"; ""];
                     [""; "a"]; ["/tmp"; "."]; ["a/b"; "../../../xyz"]; [""; ""]] =
  ["a/b/c"; "a/b/c"; "a/b/c"; "a"; "a"; "/tmp"; "../xyz"; ""].
Proof. reflexivity. Qed.

Example Base_examples :
  map Filepath.Base ["/foo/bar/baz.js"; "/foo/bar/baz"; "/foo/bar/baz/"; "dev.txt";
                     "../todo.txt"; ".."; "."; "/"; ""; "http://h/x/.."] =
  ["baz.js"; "baz"; "baz"; "dev.txt"; "todo.txt"; ".."; "."; "/"; "."; ".."].
Proof. reflexivity. Qed.

Example Dir_examples :
  map Filepath.Dir ["/foo/bar/baz.js"; "/foo/bar/baz"; "/foo/bar/baz/"; "/dirty//path///";
                    "dev.txt"; "../todo.txt"; ".."; "."; "/"; ""] =
  ["/foo/bar"; "/foo/bar"; "/foo/bar/baz"; "/dirty/path"; "."; ".."; "."; "."; "/"; "."].
Proof. reflexivity. Qed.

Example Rel_examples :
  map (Filepath.Rel "/a") ["/a/b/c"; "/b/c"; "./b/c"; "/a"; "/a/.git"; "/"] =
  [Some "b/c"; Some "../b/c"; None; Some "."; Some ".git"; Some ".."].
Proof. reflexivity. Qed.

Example decimal_404 : decimal 404 = "404".
Proof. reflexivity. Qed.

(** * Properties of the file-system tree *)

Module FsFacts.

Lemma find_es_replace_same name new es v :
  find name es = Some v -> find name (es_replace name new es) = Some new.
Proof.
  induction es as [|[k x] rest IH]; simpl; [discriminate|].
  destruct (k =? name)%string eqn:E; simpl; rewrite E; auto.
Qed.

Lemma find_es_replace_other name other new es :
  name <> other -> find other (es_replace name new es) = find other es.
Proof.
  intros Hne. induction es as [|[k x] rest IH]; simpl; [reflexivity|].
  destruct (k =? name)%string eqn:E; simpl.
  - apply String.eqb_eq in E. subst k.
    destruct (name =? other)%string eqn:E'; [|reflexivity].
    apply String.eqb_eq in E'. contradiction.
  - rewrite IH. reflexivity.
Qed.

Lemma find_es_insert_same name new es :
  find name es = None -> find name (es_insert name new es) = Some new.
Proof.
  induction es as [|[k x] rest IH]; simpl.
  - rewrite String.eqb_refl. reflexivity.
  - destruct (k =? name)%string eqn:E; [discriminate|]. intros Hn.
    destruct (name <=? k)%string; simpl.
    + rewrite String.eqb_refl. reflexivity.
    + rewrite E. auto.
Qed.

Lemma find_es_insert_other name other new es :
  name <> other -> find other (es_insert name new es) = find other es.
Proof.
  intros Hne. apply String.eqb_neq in Hne.
  induction es as [|[k x] rest IH]; simpl.
  - rewrite Hne. reflexivity.
  - destruct (name <=? k)%string; simpl.
    + rewrite Hne. reflexivity.
    + rewrite IH. reflexivity.
Qed.

Lemma find_es_put_same name new es : find name (es_put name new es) = Some new.
Proof.
  unfold es_put. destruct (find name es) eqn:E.
  - eapply find_es_replace_same; eauto.
  - apply find_es_insert_same; auto.
Qed.

Lemma find_es_put_other name other new es :
  name <> other -> find other (es_put name new es) = find other es.
Proof.
  intros Hne. unfold es_put. destruct (find name es).
  - apply find_es_replace_other; auto.
  - apply find_es_insert_other; auto.
Qed.

Lemma es_replace_id name v es : find name es = Some v -> es_replace name v es = es.
Proof.
  induction es as [|[k x] rest IH]; simpl; [reflexivity|].
  destruct (k =? name)%string.
  - intros [= ->]. reflexivity.
  - intros H. rewrite IH; auto.
Qed.

Lemma es_put_id name v es : find name es = Some v -> es_put name v es = es.
Proof.
  intros H. unfold es_put. rewrite H. apply es_replace_id; auto.
Qed.

Lemma lookup_app p q n :
  lookup (p ++ q) n =
  match lookup p n with
  | Some m => lookup q m
  | None => None
  end.
Proof.
  revert n. induction p as [|c p IH]; intros n; simpl; [reflexivity|].
  destruct n; try reflexivity.
  destruct (find c entries); [apply IH|reflexivity].
Qed.

Lemma lookup_app_None p q n : lookup p n = None -> lookup (p ++ q) n = None.
Proof. intros H. rewrite lookup_app, H. reflexivity. Qed.

Lemma diverge_app r a b p q : a <> b -> diverge (r ++ a :: p) (r ++ b :: q) = true.
Proof.
  intros Hne. induction r as [|c r IH]; simpl.
  - apply String.eqb_neq in Hne. rewrite Hne. reflexivity.
  - rewrite String.eqb_refl. exact IH.
Qed.

Lemma lookup_put_same p new n n' : put p new n = Some n' -> lookup p n' = Some new.
Proof.
  revert n n'. induction p as [|c p IH]; intros n n'; simpl.
  - intros [= <-]. reflexivity.
  - destruct n; try discriminate.
    destruct p as [|c' p'].
    + intros [= <-]. simpl. rewrite find_es_put_same. reflexivity.
    + destruct (find c entries) eqn:Ef; try discriminate.
      destruct (put (c' :: p') new n) eqn:Ep; try discriminate.
      intros [= <-]. cbn [lookup]. rewrite find_es_put_same.
      apply (IH _ _ Ep).
Qed.

Lemma lookup_put_diverge p q new n n' :
  put p new n = Some n' -> diverge p q = true -> lookup q n' = lookup q n.
Proof.
  revert q n n'. induction p as [|c p IH]; intros q n n'; simpl; [discriminate|].
  destruct q as [|d q]; [discriminate|].
  destruct n; try discriminate.
  destruct (c =? d)%string eqn:Ecd.
  - apply String.eqb_eq in Ecd. subst d.
    destruct p as [|c' p']; [simpl; discriminate|].
    destruct (find c entries) eqn:Ef; try discriminate.
    destruct (put (c' :: p') new n) eqn:Ep; try discriminate.
    intros [= <-] Hd. cbn [lookup]. rewrite find_es_put_same, Ef.
    apply (IH _ _ _ Ep Hd).
  - apply String.eqb_neq in Ecd. intros Hp _.
    assert (exists child, n' = Dir perm (es_put c child entries)) as [child ->].
    { destruct p as [|c' p'].
      - injection Hp as <-. eauto.
      - destruct (find c entries); try discriminate.
        destruct (put (c' :: p') new n); try discriminate.
        injection Hp as <-. eauto. }
    cbn [lookup]. rewrite find_es_put_other by assumption. reflexivity.
Qed.

Lemma mkdirAll_id perm p n m es :
  lookup p n = Some (Dir m es) -> mkdirAll perm p n = Some n.
Proof.
  revert n. induction p as [|c p IH]; intros n; simpl.
  - intros [= ->]. reflexivity.
  - destruct n; try discriminate.
    destruct (find c entries) eqn:Ef; try discriminate.
    intros Hl. rewrite (IH _ Hl). rewrite es_put_id by assumption. reflexivity.
Qed.

Lemma mkdirAll_nil perm n n' : mkdirAll perm [] n = Some n' -> n' = n.
Proof. destruct n; simpl; congruence. Qed.

Lemma mkdirAll_lookup_diverge perm p q n n' :
  mkdirAll perm p n = Some n' -> diverge p q = true -> lookup q n' = lookup q n.
Proof.
  revert q n n'. induction p as [|c p IH]; intros q n n'; [simpl; discriminate|].
  destruct q as [|d q]; [simpl; discriminate|].
  destruct n; try discriminate. cbn [mkdirAll diverge].
  destruct (mkdirAll perm p _) eqn:Em; try discriminate.
  intros [= <-]. cbn [lookup].
  destruct (c =? d)%string eqn:Ecd.
  - apply String.eqb_eq in Ecd. subst d. intros Hd.
    rewrite find_es_put_same. rewrite (IH _ _ _ Em Hd).
    destruct (find c entries); [reflexivity|].
    destruct q; simpl in *; [destruct p; discriminate|reflexivity].
  - apply String.eqb_neq in Ecd. intros _.
    rewrite find_es_put_other by assumption. reflexivity.
Qed.

(** [MkdirAll] only adds directories: a regular file stays what it was. *)
Lemma mkdirAll_lookup_reg perm p q n n' a c :
  mkdirAll perm p n = Some n' -> lookup q n = Some (Reg a c) ->
  lookup q n' = Some (Reg a c).
Proof.
  revert q n n'. induction p as [|d p IH]; intros q n n' Hm Hl.
  - apply mkdirAll_nil in Hm. subst. assumption.
  - destruct n; try discriminate. cbn [mkdirAll] in Hm.
    destruct (mkdirAll perm p _) eqn:Em; try discriminate.
    injection Hm as <-.
    destruct q as [|e q]; [discriminate|]. cbn [lookup] in *.
    destruct (String.eqb_spec d e) as [->|Hne].
    + rewrite find_es_put_same.
      destruct (find e entries) eqn:Ef; [|discriminate].
      apply (IH _ _ _ Em Hl).
    + rewrite find_es_put_other by assumption. assumption.
Qed.

(** When [MkdirAll] fails, nothing exists below the path. *)
Lemma mkdirAll_None_lookup perm p q n :
  mkdirAll perm p n = None -> q <> [] -> lookup (p ++ q) n = None.
Proof.
  revert n. induction p as [|c p IH]; intros n; simpl.
  - destruct n; try discriminate; destruct q; intros; try reflexivity; contradiction.
  - destruct n; try reflexivity.
    destruct (find c entries) eqn:Ef.
    + destruct (mkdirAll perm p n) eqn:Em; [discriminate|]. intros _. apply IH, Em.
    + reflexivity.
Qed.

End FsFacts.

(** * Properties of the lexical path functions *)

Module PathFacts.
Import Filepath.

Lemma split_not_nil s : split s <> [].
Proof.
  destruct s as [|c s]; simpl; [discriminate|].
  destruct (Ascii.eqb c Separator); [discriminate|].
  destruct (split s); discriminate.
Qed.

Lemma split_sep_app a b : split (a ++ String Separator b) = split a ++ split b.
Proof.
  induction a as [|c a IH]; simpl.
  - reflexivity.
  - destruct (Ascii.eqb c Separator).
    + rewrite IH. reflexivity.
    + rewrite IH. destruct (split a) eqn:E; [apply split_not_nil in E; contradiction|].
      reflexivity.
Qed.

Lemma split_slashfree c : slashfree c = true -> split c = [c].
Proof.
  induction c as [|a c IH]; simpl; [reflexivity|].
  destruct (Ascii.eqb a Separator); simpl; [discriminate|].
  intros H. rewrite (IH H). reflexivity.
Qed.

Lemma split_all_slashfree s : forallb slashfree (split s) = true.
Proof.
  induction s as [|a s IH]; simpl; [reflexivity|].
  destruct (Ascii.eqb a Separator) eqn:E; simpl; [exact IH|].
  destruct (split s) as [|h t]; simpl in *; rewrite E; simpl; [reflexivity|exact IH].
Qed.

Lemma split_concat cs :
  cs <> [] -> forallb slashfree cs = true -> split (String.concat "/" cs) = cs.
Proof.
  induction cs as [|c cs IH]; [contradiction|]. intros _ H.
  simpl in H. apply andb_true_iff in H as [Hc Hcs].
  destruct cs as [|c' cs'].
  - simpl. apply split_slashfree; assumption.
  - change (String.concat "/" (c :: c' :: cs'))
      with (c ++ String Separator (String.concat "/" (c' :: cs')))%string.
    rewrite split_sep_app, split_slashfree by assumption.
    rewrite IH by (assumption || discriminate). reflexivity.
Qed.

(** A component [Clean] keeps as it is. *)
Lemma push_plain r st c : plain c = true -> push r st c = c :: st.
Proof.
  unfold plain, push. intros H.
  apply andb_true_iff in H as [H H3]. apply andb_true_iff in H as [H1 H2].
  apply negb_true_iff in H1, H2, H3. rewrite H1, H2, H3. reflexivity.
Qed.

Lemma fold_push_plain r cs st :
  forallb plain cs = true -> fold_left (push r) cs st = rev cs ++ st.
Proof.
  revert st. induction cs as [|c cs IH]; intros st H; simpl in *; [reflexivity|].
  apply andb_true_iff in H as [Hc Hcs].
  rewrite push_plain by assumption. rewrite IH by assumption.
  rewrite <- app_assoc. reflexivity.
Qed.

Lemma push_kept r st c :
  forallb kept st = true -> forallb kept (push r st c) = true.
Proof.
  intros H. unfold push.
  destruct (c =? "")%string eqn:E1; simpl; [assumption|].
  destruct (c =? ".")%string eqn:E2; simpl; [assumption|].
  destruct (c =? "..")%string eqn:E3.
  - destruct st as [|top below].
    + destruct r; [reflexivity|]. simpl. unfold kept. rewrite E1, E2. reflexivity.
    + destruct (top =? "..")%string.
      * simpl. unfold kept at 1. rewrite E1, E2. exact H.
      * simpl in H. apply andb_true_iff in H as [_ H]. exact H.
  - simpl. unfold kept at 1. rewrite E1, E2. exact H.
Qed.

Lemma push_true_plain st c :
  forallb plain st = true -> forallb plain (push true st c) = true.
Proof.
  intros H. unfold push.
  destruct (c =? "")%string eqn:E1; simpl; [assumption|].
  destruct (c =? ".")%string eqn:E2; simpl; [assumption|].
  destruct (c =? "..")%string eqn:E3.
  - destruct st as [|top below]; [reflexivity|].
    simpl in H. apply andb_true_iff in H as [Ht H].
    destruct (top =? "..")%string eqn:E4.
    + unfold plain in Ht. rewrite E4 in Ht. rewrite andb_false_r in Ht. discriminate.
    + exact H.
  - simpl. unfold plain at 1. rewrite E1, E2, E3. exact H.
Qed.

Lemma fold_push_true_plain cs st :
  forallb plain st = true -> forallb plain (fold_left (push true) cs st) = true.
Proof.
  revert st. induction cs as [|c cs IH]; intros st H; simpl; [assumption|].
  apply IH, push_true_plain, H.
Qed.

Lemma fold_push_kept r cs st :
  forallb kept st = true -> forallb kept (fold_left (push r) cs st) = true.
Proof.
  revert st. induction cs as [|c cs IH]; intros st H; simpl; [assumption|].
  apply IH, push_kept, H.
Qed.

Lemma push_slashfree r st c :
  slashfree c = true -> forallb slashfree st = true ->
  forallb slashfree (push r st c) = true.
Proof.
  intros Hc H. unfold push.
  destruct ((c =? "") || (c =? "."))%string; [assumption|].
  destruct (c =? "..")%string.
  - destruct st as [|top below].
    + destruct r; simpl; [reflexivity|]. rewrite Hc. reflexivity.
    + destruct (top =? "..")%string.
      * simpl. simpl in H. rewrite Hc. exact H.
      * simpl in H. apply andb_true_iff in H as [_ H]. exact H.
  - simpl. rewrite Hc. exact H.
Qed.

Lemma fold_push_slashfree r cs st :
  forallb slashfree cs = true -> forallb slashfree st = true ->
  forallb slashfree (fold_left (push r) cs st) = true.
Proof.
  revert st. induction cs as [|c cs IH]; intros st Hcs H; simpl in *; [assumption|].
  apply andb_true_iff in Hcs as [Hc Hcs].
  apply IH; [assumption|]. apply push_slashfree; assumption.
Qed.

Lemma forallb_rev {A} (f : A -> bool) l : forallb f (rev l) = forallb f l.
Proof.
  induction l as [|a l IH]; simpl; [reflexivity|].
  rewrite forallb_app, IH. simpl. rewrite andb_true_r. apply andb_comm.
Qed.

(** Cleaning as a relative path first changes nothing for the resolution
    from the root. *)
Lemma push_relative_then_rooted st' st c :
  forallb kept st' = true ->
  fold_left (push true) (rev (push false st' c)) st =
  push true (fold_left (push true) (rev st') st) c.
Proof.
  intros Hk. unfold push at 2 3.
  destruct (c =? "")%string eqn:E1; simpl; [reflexivity|].
  destruct (c =? ".")%string eqn:E2; simpl; [reflexivity|].
  destruct (c =? "..")%string eqn:E3.
  - apply String.eqb_eq in E3. subst c.
    destruct st' as [|top below].
    + simpl. reflexivity.
    + destruct (top =? "..")%string eqn:E4.
      * change (rev (".." :: top :: below)) with (rev (top :: below) ++ [".."]).
        rewrite fold_left_app. reflexivity.
      * simpl in Hk. apply andb_true_iff in Hk as [Ht _].
        simpl rev. rewrite fold_left_app. simpl.
        assert (Hp : plain top = true).
        { unfold plain. unfold kept in Ht. rewrite Ht, E4. reflexivity. }
        rewrite (push_plain true _ top Hp). unfold push. simpl. rewrite E4.
        reflexivity.
  - change (rev (c :: st')) with (rev st' ++ [c]). rewrite fold_left_app. simpl.
    unfold push. rewrite E1, E2, E3. reflexivity.
Qed.

Lemma fold_relative_then_rooted xs st' st :
  forallb kept st' = true ->
  fold_left (push true) (rev (fold_left (push false) xs st')) st =
  fold_left (push true) xs (fold_left (push true) (rev st') st).
Proof.
  revert st'. induction xs as [|c xs IH]; intros st' Hk; simpl; [reflexivity|].
  rewrite IH by (apply push_kept; assumption).
  rewrite push_relative_then_rooted by assumption. reflexivity.
Qed.

Lemma fold_split_Clean_relative s st :
  IsAbs s = false ->
  fold_left (push true) (split (Clean s)) st = fold_left (push true) (split s) st.
Proof.
  intros Hrel. unfold Clean.
  destruct (s =? "")%string eqn:Es.
  - apply String.eqb_eq in Es. subst s. reflexivity.
  - rewrite Hrel. unfold render, norm.
    pose proof (fold_relative_then_rooted (split s) [] st eq_refl) as G.
    simpl in G. rewrite <- G.
    destruct (rev (fold_left (push false) (split s) [])) as [|c cs] eqn:Ec.
    + reflexivity.
    + rewrite split_concat; [reflexivity|discriminate|].
      rewrite <- Ec, forallb_rev.
      apply fold_push_slashfree; [apply split_all_slashfree|reflexivity].
Qed.

Lemma fold_split_Clean_rooted s :
  IsAbs s = true ->
  fold_left (push true) (split (Clean s)) [] = fold_left (push true) (split s) [].
Proof.
  intros Habs. unfold Clean.
  destruct (s =? "")%string eqn:Es.
  - apply String.eqb_eq in Es. subst s. discriminate.
  - rewrite Habs. unfold render, norm.
    set (st := fold_left (push true) (split s) []).
    assert (Hp : forallb plain st = true) by (apply fold_push_true_plain; reflexivity).
    assert (Hs : forallb slashfree st = true)
      by (apply fold_push_slashfree; [apply split_all_slashfree|reflexivity]).
    change (split ("/" ++ String.concat "/" (rev st))%string)
      with ("" :: split (String.concat "/" (rev st))).
    destruct (rev st) as [|c cs] eqn:Ec.
    + simpl. apply (f_equal (@rev string)) in Ec. rewrite rev_involutive in Ec.
      symmetry. exact Ec.
    + rewrite split_concat; [|discriminate|rewrite <- Ec, forallb_rev; exact Hs].
      change (fold_left (push true) ("" :: c :: cs) [])
        with (fold_left (push true) (c :: cs) []).
      rewrite fold_push_plain by (rewrite <- Ec, forallb_rev; exact Hp).
      rewrite <- Ec, rev_involutive, app_nil_r. reflexivity.
Qed.

Lemma resolve_Clean s : resolve (Clean s) = resolve s.
Proof.
  unfold resolve, norm. f_equal.
  destruct (IsAbs s) eqn:E.
  - apply fold_split_Clean_rooted; assumption.
  - apply fold_split_Clean_relative; assumption.
Qed.

(** Where a joined path leads: the second element is followed from where
    the first one leads. *)
Lemma resolve_Join2 a b :
  resolve (Join [a; b]) =
  rev (fold_left (push true) (split b) (rev (resolve a))).
Proof.
  unfold resolve at 2, norm. rewrite rev_involutive.
  cbn [Join]. destruct (a =? "")%string eqn:Ea.
  - apply String.eqb_eq in Ea. subst a.
    destruct (b =? "")%string eqn:Eb.
    + apply String.eqb_eq in Eb. subst b. reflexivity.
    + change (String.concat "/" [b]) with b. rewrite resolve_Clean. reflexivity.
  - change (String.concat "/" [a; b]) with (a ++ String Separator b)%string.
    rewrite resolve_Clean. unfold resolve, norm.
    rewrite split_sep_app, fold_left_app. reflexivity.
Qed.

Lemma resolve_Join2_plain a cs :
  cs <> [] -> forallb plain cs = true -> forallb slashfree cs = true ->
  resolve (Join [a; String.concat "/" cs]) = resolve a ++ cs.
Proof.
  intros Hne Hp Hs. rewrite resolve_Join2, split_concat by assumption.
  rewrite fold_push_plain by assumption.
  rewrite rev_app_distr, !rev_involutive. reflexivity.
Qed.

Lemma resolve_plain s : forallb plain (resolve s) = true.
Proof.
  unfold resolve, norm. rewrite forallb_rev.
  apply fold_push_true_plain. reflexivity.
Qed.

Lemma resolve_slashfree s : forallb slashfree (resolve s) = true.
Proof.
  unfold resolve, norm. rewrite forallb_rev.
  apply fold_push_slashfree; [apply split_all_slashfree|reflexivity].
Qed.



End PathFacts.

(** * Properties of the hash encodings and of the cache path *)

Module CacheFacts.
Import Filepath PathFacts.

Lemma hexdigit_in n : In (Bytes.hexdigit n) Bytes.hextable.
Proof.
  unfold Bytes.hexdigit.
  destruct (nth_in_or_default (Z.to_nat n) Bytes.hextable "f"%char) as [H|H].
  - exact H.
  - rewrite H. simpl. tauto.
Qed.













End CacheFacts.

(** * Calls that always return *)

Module Normal.

Lemma normal_ret {A} (a : A) : normal (ret a).
Proof. intros w. exact I. Qed.

Lemma normal_fail {A} e : normal (@fail A e).
Proof. intros w. exact I. Qed.

Lemma normal_bind {A B} (m : M A) (k : A -> M B) :
  normal m -> (forall a, normal (k a)) -> normal (bind m k).
Proof.
  intros Hm Hk w. unfold bind. specialize (Hm w).
  destruct (m w) as [[a|e|msg|c] w']; simpl in *; try contradiction; auto.
  apply Hk.
Qed.

Lemma normal_try {A} (m : M A) : normal m -> normal (try m).
Proof.
  intros Hm w. unfold try. specialize (Hm w).
  destruct (m w) as [[a|e|msg|c] w']; simpl in *; auto.
Qed.

Lemma normal_lift {A} (r : A + error) : normal (lift r).
Proof. destruct r; [apply normal_ret|apply normal_fail]. Qed.

Ltac normal_os :=
  let w := fresh "w" in
  intros w; cbv beta delta [os_Stat os_Lstat os_Mkdir os_Open
    os_OpenFile_create_trunc file_Stat file_ReadAll file_Write os_Readlink
    os_Symlink http_Get os_Setenv ghost_transfer];
  repeat match goal with
         | |- context [match ?x with _ => _ end] => destruct x
         end; exact I.

Lemma normal_os_Stat name : normal (os_Stat name).
Proof. normal_os. Qed.
Lemma normal_os_MkdirAll path perm : normal (os_MkdirAll path perm).
Proof.
  intros w. unfold os_MkdirAll.
  destruct (path =? "")%string; [exact I|].
  destruct (fs w); try exact I. cbv zeta.
  destruct (mkdir_walk _ _ _ _ _) as [f [[rest made]|]]; exact I.
Qed.
Lemma normal_os_Open name : normal (os_Open name).
Proof. normal_os. Qed.
Lemma normal_os_OpenFile name perm : normal (os_OpenFile_create_trunc name perm).
Proof. normal_os. Qed.
Lemma normal_os_Create name : normal (os_Create name).
Proof. apply normal_os_OpenFile. Qed.
Lemma normal_file_ReadAll h : normal (file_ReadAll h).
Proof. normal_os. Qed.
Lemma normal_file_Write h data : normal (file_Write h data).
Proof. normal_os. Qed.
Lemma normal_file_Stat name h : normal (file_Stat name h).
Proof. normal_os. Qed.
Lemma normal_http_Get uri : normal (http_Get uri).
Proof. normal_os. Qed.
Lemma normal_ghost_transfer uri : normal (ghost_transfer uri).
Proof. normal_os. Qed.

Lemma normal_ReadFile name : normal (ioutil_ReadFile name).
Proof.
  apply normal_bind; [apply normal_os_Open|intros; apply normal_file_ReadAll].
Qed.

Lemma normal_io_Copy dst src : normal (io_Copy dst src).
Proof.
  destruct src; simpl.
  - apply normal_bind; [apply normal_file_ReadAll|intros; apply normal_file_Write].
  - apply normal_bind; [apply normal_file_Write|intros _].
    destruct (body_fails r); [apply normal_fail|apply normal_ret].
Qed.

Lemma normal_downloadFromURI url_Parse uri fileName :
  normal (downloadFromURI url_Parse uri fileName).
Proof.
  unfold downloadFromURI.
  apply normal_bind; [apply normal_os_MkdirAll|intros _].
  apply normal_bind; [apply normal_os_Create|intros output].
  apply normal_bind; [apply normal_lift|intros u].
  destruct (Scheme u =? "file")%string.
  - apply normal_bind; [apply normal_ghost_transfer|intros _].
    apply normal_bind; [apply normal_os_Open|intros; apply normal_io_Copy].
  - apply normal_bind; [apply normal_http_Get|intros response].
    destruct (_ || _); [apply normal_fail|apply normal_io_Copy].
Qed.

Lemma normal_checkSha256 filePath expected : normal (checkSha256 filePath expected).
Proof.
  unfold checkSha256.
  apply normal_bind; [apply normal_ReadFile|intros content].
  destruct (negb _); [apply normal_fail|apply normal_ret].
Qed.

End Normal.

(** * The dependency fetcher *)

Module FetchFacts.
Import FsFacts PathFacts CacheFacts Normal.

Lemma set_fs_id w : set_fs w (fs w) = w.
Proof. destruct w. reflexivity. Qed.

Lemma ReadFile_lookup name w content w' :
  ioutil_ReadFile name w = (Ok content, w') ->
  w' = w /\ exists perm, lookup (resolve name) (fs w) = Some (Reg perm content).
Proof.
  unfold ioutil_ReadFile, bind, os_Open, file_ReadAll.
  destruct (lookup (resolve name) (fs w)) as [[perm c|t|perm es]|] eqn:E;
    try discriminate.
  - rewrite E. intros [= <- <-]. eauto.
  - rewrite E. discriminate.
Qed.

Lemma ReadFile_file name w perm content :
  lookup (resolve name) (fs w) = Some (Reg perm content) ->
  ioutil_ReadFile name w = (Ok content, w).
Proof.
  intros E. unfold ioutil_ReadFile, bind, os_Open, file_ReadAll.
  rewrite E, E. reflexivity.
Qed.

Lemma ReadFile_no_file name w :
  (forall perm content, lookup (resolve name) (fs w) <> Some (Reg perm content)) ->
  exists e, ioutil_ReadFile name w = (Err e, w).
Proof.
  intros H. unfold ioutil_ReadFile, bind, os_Open, file_ReadAll.
  destruct (lookup (resolve name) (fs w)) as [[perm c|t|perm es]|] eqn:E; eauto.
  - exfalso. eapply H. reflexivity.
  - rewrite E. eauto.
Qed.

Lemma checkSha256_file filePath expected w perm content :
  lookup (resolve filePath) (fs w) = Some (Reg perm content) ->
  checkSha256 filePath expected w = (verdict content expected, w).
Proof.
  intros E. unfold checkSha256, bind. rewrite (ReadFile_file _ _ _ _ E).
  unfold verdict. destruct (_ =? _)%string; reflexivity.
Qed.

Lemma checkSha256_no_file filePath expected w :
  (forall perm content,
      lookup (resolve filePath) (fs w) <> Some (Reg perm content)) ->
  exists e, checkSha256 filePath expected w = (Err e, w).
Proof.
  intros H. destruct (ReadFile_no_file _ _ H) as [e He].
  unfold checkSha256, bind. rewrite He. eauto.
Qed.

(** [checkSha256] changes nothing, and its answer is the verdict on the
    content of the file, or a read error when there is no file. *)
Lemma checkSha256_inv filePath expected w r w' :
  checkSha256 filePath expected w = (r, w') ->
  w' = w /\
  ((exists perm content,
       lookup (resolve filePath) (fs w) = Some (Reg perm content) /\
       r = verdict content expected) \/
   ((forall perm content,
       lookup (resolve filePath) (fs w) <> Some (Reg perm content)) /\
    exists e, r = Err e)).
Proof.
  intros H.
  destruct (lookup (resolve filePath) (fs w)) as [[perm c|t|perm es]|] eqn:E.
  - rewrite (checkSha256_file _ _ _ _ _ E) in H. injection H as <- <-.
    split; [reflexivity|]. left. eauto.
  - destruct (checkSha256_no_file filePath expected w) as [e He];
      [rewrite E; discriminate|].
    rewrite He in H. injection H as <- <-. split; [reflexivity|].
    right. split; [discriminate|eauto].
  - destruct (checkSha256_no_file filePath expected w) as [e He];
      [rewrite E; discriminate|].
    rewrite He in H. injection H as <- <-. split; [reflexivity|].
    right. split; [discriminate|eauto].
  - destruct (checkSha256_no_file filePath expected w) as [e He];
      [rewrite E; discriminate|].
    rewrite He in H. injection H as <- <-. split; [reflexivity|].
    right. split; [discriminate|eauto].
Qed.

Lemma lookup_below_is_dir p q n x :
  lookup (p ++ q) n = Some x -> q <> [] -> exists m es, lookup p n = Some (Dir m es).
Proof.
  rewrite lookup_app. destruct (lookup p n) as [[| |m es]|]; try discriminate.
  - destruct q; [contradiction|discriminate].
  - destruct q; [contradiction|discriminate].
  - eauto.
Qed.

(** The ways through [downloadDependency]: the process exits when the cache
    directory cannot be made; otherwise the file is found or downloaded,
    and a failed download is returned before any checksum is taken. *)
Lemma downloadDependency_inv url_Parse d cacheDir w r w' :
  downloadDependency url_Parse d cacheDir w = (r, w') ->
  let path := Filepath.Join [cacheDir; cacheFile d] in
  (exists err, os_MkdirAll cacheDir 493 w = (Err err, w') /\ r = Exit 1) \/
  (exists w0 w1,
      os_MkdirAll cacheDir 493 w = (Ok tt, w0) /\
      ((exists fi, os_Stat path w0 = (Ok fi, w0) /\ w1 = w0) \/
       (exists err, os_Stat path w0 = (Err err, w0) /\
                    downloadFromURI url_Parse (URI d) path w0 = (Ok tt, w1))) /\
      exists v, checkSha256 path (SHA256 d) w1 = (v, w') /\
                r = fetched d cacheDir v) \/
  (exists w0 err e,
      os_MkdirAll cacheDir 493 w = (Ok tt, w0) /\
      os_Stat path w0 = (Err err, w0) /\
      downloadFromURI url_Parse (URI d) path w0 = (Err e, w') /\
      r = Err e).
Proof.
  intros Hrun path. revert Hrun. unfold downloadDependency, bind, try.
  fold path.
  pose proof (normal_os_MkdirAll cacheDir 493 w) as Nmk.
  destruct (os_MkdirAll cacheDir 493 w) as [[[]|e0|msg|c] w0] eqn:Emk;
    try contradiction; unfold ret, log_Fatalf.
  - pose proof (normal_os_Stat path w0) as Nst.
    assert (Hst : forall x wx, os_Stat path w0 = (x, wx) -> wx = w0).
    { unfold os_Stat. intros x wx.
      destruct (lookup _ _) as [[]|]; intros [= _ <-]; reflexivity. }
    destruct (os_Stat path w0) as [[fi|e1|msg|c] w1] eqn:Est; try contradiction;
      rewrite (Hst _ _ eq_refl) in *.
    + intros Hrun. right. left. exists w0, w0. split; [reflexivity|].
      split; [left; eauto|].
      pose proof (normal_checkSha256 path (SHA256 d) w0) as Nch.
      destruct (checkSha256 path (SHA256 d) w0) as [[[]|e2|msg|c] w2] eqn:Ech;
        try contradiction; injection Hrun as <- <-; eauto.
    + pose proof (normal_downloadFromURI url_Parse (URI d) path w0) as Ndl.
      destruct (downloadFromURI url_Parse (URI d) path w0)
        as [[[]|e2|msg|c] w2] eqn:Edl; try contradiction.
      * intros Hrun. right. left. exists w0, w2. split; [reflexivity|].
        split; [right; eauto|].
        pose proof (normal_checkSha256 path (SHA256 d) w2) as Nch.
        destruct (checkSha256 path (SHA256 d) w2) as [[[]|e3|msg|c] w3] eqn:Ech;
          try contradiction; injection Hrun as <- <-; eauto.
      * intros [= <- <-]. right. right. exists w0, e1, e2. auto.
  - intros [= <- <-]. left. eauto.
Qed.

(** With the cache directory in place and the file in the cache,
    [downloadDependency] touches nothing and answers what the checksum
    says. *)
Lemma downloadDependency_cached url_Parse d cacheDir w perm content :
  os_MkdirAll cacheDir 493 w = (Ok tt, w) ->
  lookup (resolve (Filepath.Join [cacheDir; cacheFile d])) (fs w)
    = Some (Reg perm content) ->
  downloadDependency url_Parse d cacheDir w =
  (fetched d cacheDir (verdict content (SHA256 d)), w).
Proof.
  intros Hmk Hfile.
  unfold downloadDependency, bind, try. rewrite Hmk.
  unfold ret, os_Stat. rewrite Hfile.
  rewrite (checkSha256_file _ _ _ _ _ Hfile).
  destruct (verdict content (SHA256 d)); reflexivity.
Qed.

Lemma verdict_mismatch content expected :
  Bytes.hex_EncodeToString (Sha256.Sum256 content) <> expected ->
  exists e, verdict content expected = Err e.
Proof.
  intros H. unfold verdict. destruct (_ =? _)%string eqn:E; [|eauto].
  apply String.eqb_eq in E. contradiction.
Qed.

End FetchFacts.

(** * The loops of [Package] *)

Module LoopFacts.
Import FetchFacts.

Section Loops.
Variable url_Parse : string -> URL + error.
Variables cacheDir stack : string.
Variable cached : bool.
Variable deps : list yaml.

(** The loop over the stacks of one dependency: it retains the dependency
    at the first stack that passes the test, if there is one. *)
Lemma Package_stacks_spec idx d stacks files dfs :
  Package_stacks url_Parse cacheDir stack cached deps idx d stacks files dfs =
  if existsb (stack_passes stack) stacks
  then retain url_Parse cacheDir cached deps idx d files dfs
  else ret (files, dfs).
Proof.
  induction stacks as [|s rest IH]; simpl; [reflexivity|].
  fold (stack_passes stack s).
  destruct (stack_passes stack s); simpl; [reflexivity|exact IH].
Qed.

Lemma Package_dependencies_cons idx d ds files dfs :
  Package_dependencies url_Parse cacheDir stack cached deps idx (d :: ds)
    files dfs =
  (r <- (if retained stack d
         then retain url_Parse cacheDir cached deps idx d files dfs
         else ret (files, dfs)) ;;
   Package_dependencies url_Parse cacheDir stack cached deps (S idx) ds
     (fst r) (snd r)).
Proof. simpl. rewrite Package_stacks_spec. reflexivity. Qed.

End Loops.

Lemma retained_keeps stack d : retained stack d = keeps stack d.
Proof.
  unfold retained, keeps, stack_passes.
  destruct (stack =? "")%string eqn:E; simpl.
  - destruct (Stacks d); reflexivity.
  - induction (Stacks d) as [|s l IH]; simpl; [reflexivity|].
    rewrite IH, (String.eqb_sym s stack). reflexivity.
Qed.

Lemma keeps_stack_iff stack d :
  stack <> "" -> (keeps stack d = true <-> In stack (Stacks d)).
Proof.
  intros Hne. unfold keeps. apply String.eqb_neq in Hne. rewrite Hne.
  rewrite existsb_exists. split.
  - intros (s & Hin & Heq). apply String.eqb_eq in Heq. subst. assumption.
  - intros Hin. exists stack. split; [assumption|apply String.eqb_refl].
Qed.

Lemma nth_error_skipn {A} (l : list A) idx :
  nth_error l idx = match skipn idx l with
                    | x :: _ => Some x
                    | [] => None
                    end.
Proof.
  revert l. induction idx as [|idx IH]; intros [|a l]; simpl; auto.
Qed.

Lemma skipn_S_tl {A} (l : list A) idx : skipn (S idx) l = tl (skipn idx l).
Proof.
  revert l. induction idx as [|idx IH]; intros [|a l]; try reflexivity.
  apply (IH l).
Qed.

Lemma kept_pair_retained stack d (x : yaml) :
  kept_pair stack (d, x) = retained stack d.
Proof. unfold kept_pair. simpl. symmetry. apply retained_keeps. Qed.

(** Uncached mode: the loop is a filter, and it cannot fail when the raw
    sequence is as long as the typed one. *)
Lemma Package_dependencies_uncached url_Parse cacheDir stack deps ds :
  forall idx files dfs w,
    (idx + length ds <= length deps)%nat ->
    Package_dependencies url_Parse cacheDir stack false deps idx ds files dfs w =
    (Ok (files, dfs ++ map snd (filter (kept_pair stack)
                                       (combine ds (skipn idx deps)))), w).
Proof.
  induction ds as [|d ds IH]; intros idx files dfs w Hlen.
  - simpl. rewrite app_nil_r. reflexivity.
  - rewrite Package_dependencies_cons. unfold bind.
    simpl in Hlen.
    destruct (skipn idx deps) as [|x rest] eqn:Esk.
    { apply (f_equal (@length yaml)) in Esk. rewrite length_skipn in Esk.
      simpl in Esk. lia. }
    assert (Hrest : skipn (S idx) deps = rest) by (rewrite skipn_S_tl, Esk; reflexivity).
    cbn [combine filter]. rewrite kept_pair_retained.
    destruct (retained stack d).
    + unfold retain. rewrite nth_error_skipn, Esk. unfold ret. cbn [fst snd].
      rewrite IH by lia. rewrite Hrest. cbn [map snd].
      rewrite <- app_assoc. reflexivity.
    + unfold ret. cbn [fst snd]. rewrite IH by lia. rewrite Hrest. reflexivity.
Qed.

Lemma downloadDependency_Ok url_Parse d cacheDir w f w' :
  downloadDependency url_Parse d cacheDir w = (Ok f, w') ->
  f = cached_file cacheDir d.
Proof.
  intros H. apply downloadDependency_inv in H.
  destruct H as [(err & _ & H)|[(w0 & w1 & _ & _ & v & _ & H)
                               |(w0 & err & e' & _ & _ & _ & H)]];
    try discriminate.
  destruct v; try discriminate. injection H as ->. reflexivity.
Qed.

(** Cached mode: when the loop comes to its end, the same filter was
    applied, each mapping got its ["file"] key, and the fetched files
    were added in order. *)
Lemma Package_dependencies_cached url_Parse cacheDir stack deps ds :
  forall idx files dfs w files' out w',
    Package_dependencies url_Parse cacheDir stack true deps idx ds files dfs w =
      (Ok (files', out), w') ->
    out = dfs ++ map (fun p => with_file (fst p) (snd p))
                     (filter (kept_pair stack) (combine ds (skipn idx deps))) /\
    files' = files ++ map (fun p => cached_file cacheDir (fst p))
                          (filter (kept_pair stack) (combine ds (skipn idx deps))).
Proof.
  induction ds as [|d ds IH]; intros idx files dfs w files' out w' Hrun.
  - simpl in Hrun. injection Hrun as <- <- <-. simpl. rewrite !app_nil_r. auto.
  - rewrite Package_dependencies_cons in Hrun. unfold bind in Hrun.
    destruct (retained stack d) eqn:Er.
    + unfold retain in Hrun. rewrite nth_error_skipn in Hrun.
      destruct (skipn idx deps) as [|x rest] eqn:Esk; [discriminate|].
      assert (Hrest : skipn (S idx) deps = rest)
        by (rewrite skipn_S_tl, Esk; reflexivity).
      unfold bind in Hrun.
      destruct (downloadDependency url_Parse d cacheDir w) as [[f| | |] w1] eqn:Edl;
        try discriminate.
      apply downloadDependency_Ok in Edl. subst f.
      unfold ret in Hrun. cbn [fst snd] in Hrun.
      apply IH in Hrun. rewrite Hrest in Hrun. destruct Hrun as [-> ->].
      cbn [combine filter]. rewrite kept_pair_retained, Er. cbn [map fst snd].
      rewrite <- !app_assoc. split; [|reflexivity].
      f_equal. f_equal. unfold with_file, updateDependencyMap, cached_file.
      destruct x; reflexivity.
    + unfold ret in Hrun. cbn [fst snd] in Hrun. apply IH in Hrun.
      destruct Hrun as [-> ->].
      destruct (skipn idx deps) as [|x rest] eqn:Esk.
      * assert (Hrest : skipn (S idx) deps = [])
          by (rewrite skipn_S_tl, Esk; reflexivity).
        rewrite Hrest. destruct ds; simpl; auto.
      * assert (Hrest : skipn (S idx) deps = rest)
          by (rewrite skipn_S_tl, Esk; reflexivity).
        rewrite Hrest. cbn [combine filter]. rewrite kept_pair_retained, Er. auto.
Qed.

End LoopFacts.

(** * Downloads *)

Module DownloadFacts.
Import FsFacts Normal FetchFacts.

Lemma downloadFromURI_stages url_Parse uri fileName :
  downloadFromURI url_Parse uri fileName =
  (os_MkdirAll (Filepath.Dir fileName) 493 ;;
   output <- os_Create fileName ;;
   download_rest url_Parse uri output).
Proof. reflexivity. Qed.

(** [os.MkdirAll] returns, and touches nothing but the file system. *)
Lemma os_MkdirAll_inv path perm w r w' :
  os_MkdirAll path perm w = (r, w') ->
  (exists e f, r = Err e /\ w' = set_fs w f) \/
  (r = Ok tt /\ exists f, w' = set_fs w f).
Proof.
  unfold os_MkdirAll.
  destruct (path =? "")%string.
  { intros [= <- <-]. left. eexists _, (fs w). split; [reflexivity|].
    symmetry. apply set_fs_id. }
  destruct (fs w) eqn:Efs;
    try (intros [= <- <-]; left; eexists _, (fs w); split; [reflexivity|];
         symmetry; apply set_fs_id).
  cbv zeta. destruct (mkdir_walk _ _ _ _ _) as [f [[rest made]|]];
    intros [= <- <-]; [left|right]; eauto.
Qed.

Lemma os_Create_inv name w r w' :
  os_Create name w = (r, w') ->
  (exists e, r = Err e /\ w' = w) \/
  (r = Ok (resolve name) /\ exists f perm, w' = set_fs w f /\
     lookup (resolve name) f = Some (Reg perm [])).
Proof.
  unfold os_Create, os_OpenFile_create_trunc.
  destruct (lookup (resolve name) (fs w)) as [[old c|t|perm es]|] eqn:E.
  - destruct (put _ _ _) as [f|] eqn:Ep; intros [= <- <-]; [right|left; eauto].
    split; [reflexivity|]. exists f, old. split; [reflexivity|].
    eapply lookup_put_same, Ep.
  - intros [= <- <-]. left. eauto.
  - intros [= <- <-]. left. eauto.
  - destruct (put _ _ _) as [f|] eqn:Ep; intros [= <- <-]; [right|left; eauto].
    split; [reflexivity|]. exists f, (Z.land 438 ModePerm).
    split; [reflexivity|]. eapply lookup_put_same, Ep.
Qed.

(** Writing to an open regular file keeps it a regular file and touches
    nothing but the file system. *)
Lemma file_Write_inv h data w r w' perm c :
  lookup h (fs w) = Some (Reg perm c) ->
  file_Write h data w = (r, w') ->
  (exists e, r = Err e /\ w' = w) \/
  (r = Ok tt /\ exists f, w' = set_fs w f /\
     lookup h f = Some (Reg perm (c ++ data))).
Proof.
  intros Hl. unfold file_Write. rewrite Hl.
  destruct (put _ _ _) as [f|] eqn:Ep; intros [= <- <-]; [right|left; eauto].
  split; [reflexivity|]. exists f. split; [reflexivity|].
  eapply lookup_put_same, Ep.
Qed.

Lemma file_ReadAll_inv h w r w' : file_ReadAll h w = (r, w') -> w' = w.
Proof.
  unfold file_ReadAll. destruct (lookup h (fs w)) as [[]|]; intros [= _ <-];
    reflexivity.
Qed.

Lemma os_Open_inv name w r w' : os_Open name w = (r, w') -> w' = w.
Proof.
  unfold os_Open. destruct (lookup _ (fs w)) as [[]|]; intros [= _ <-];
    reflexivity.
Qed.

Lemma io_Copy_file_at output src w0 w log r w' :
  file_at output w0 w log ->
  io_Copy output src w = (r, w') ->
  returns r /\ file_at output w0 w' log.
Proof.
  intros [(perm & c & Hl) [Hnet Htr]] Hrun.
  pose proof (normal_io_Copy output src w) as N. rewrite Hrun in N.
  split; [exact N|].
  assert (Hw : forall data r0 w0',
             file_Write output data w = (r0, w0') ->
             file_at output w0 w0' log).
  { intros data r0 w0' Hwr.
    destruct (file_Write_inv _ _ _ _ _ _ _ Hl Hwr)
      as [(e & _ & ->)|(_ & f & -> & Hf)].
    - repeat split; eauto.
    - repeat split; simpl; eauto. }
  destruct src as [h|resp]; simpl in Hrun; unfold bind in Hrun.
  - destruct (file_ReadAll h w) as [[data|e|msg|c0] w1] eqn:Er;
      pose proof (file_ReadAll_inv _ _ _ _ Er) as ->;
      try (injection Hrun as _ <-; repeat split; eauto; fail).
    eapply Hw, Hrun.
  - destruct (file_Write output (Body resp) w) as [[[]|e|msg|c0] w1] eqn:Ew;
      pose proof (Hw _ _ _ Ew) as Hat;
      try (injection Hrun as _ <-; exact Hat).
    destruct (body_fails resp); injection Hrun as _ <-; exact Hat.
Qed.

(** Once the destination file is created, the rest of a download leaves a
    regular file there whatever happens, and opens at most one source. *)
Lemma download_rest_file url_Parse uri output w perm c r w' :
  lookup output (fs w) = Some (Reg perm c) ->
  download_rest url_Parse uri output w = (r, w') ->
  returns r /\
  (file_at output w w' [] \/ file_at output w w' [uri]).
Proof.
  intros Hl. unfold download_rest, bind.
  assert (Hat0 : file_at output w w []).
  { repeat split; eauto. rewrite app_nil_r. reflexivity. }
  destruct (url_Parse uri) as [u|e]; simpl.
  2:{ intros [= <- <-]. split; [exact I|]. left. exact Hat0. }
  unfold ret.
  assert (Hat1 : file_at output w (add_transfer w uri) [uri]).
  { repeat split; simpl; eauto. }
  destruct (Scheme u =? "file")%string.
  - unfold ghost_transfer.
    destruct (os_Open (UrlPath u) (add_transfer w uri)) as [[h|e|msg|c0] w1] eqn:Eo;
      pose proof (normal_os_Open (UrlPath u) (add_transfer w uri)) as N;
      rewrite Eo in N; try contradiction;
      pose proof (os_Open_inv _ _ _ _ Eo) as ->.
    + intros Hrun.
      destruct (io_Copy_file_at output (FileReader h) _ _ _ _ _ Hat1 Hrun). auto.
    + intros [= <- <-]. auto.
  - unfold http_Get. destruct (assoc uri (net w)) as [resp|].
    + destruct ((StatusCode resp <? 200) || (StatusCode resp >? 299)).
      * intros [= <- <-]. split; [exact I|right; exact Hat1].
      * intros Hrun.
        destruct (io_Copy_file_at output (BodyReader resp) _ _ _ _ _ Hat1 Hrun).
        auto.
    + intros [= <- <-]. split; [exact I|right; exact Hat1].
Qed.



Lemma downloadFromURI_effect url_Parse uri fileName w r w' :
  downloadFromURI url_Parse uri fileName w = (r, w') ->
  net w' = net w /\
  (transfers w' = transfers w \/
   (transfers w' = transfers w ++ [uri] /\
    exists perm c, lookup (resolve fileName) (fs w') = Some (Reg perm c))).
Proof.
  rewrite downloadFromURI_stages. unfold bind.
  destruct (os_MkdirAll (Filepath.Dir fileName) 493 w) as [r0 w0] eqn:Emk.
  destruct (os_MkdirAll_inv _ _ _ _ _ Emk) as [(e & f & -> & ->)|(-> & f & ->)].
  { intros [= <- <-]. simpl. auto. }
  destruct (os_Create fileName (set_fs w f)) as [r1 w1] eqn:Ecr.
  destruct (os_Create_inv _ _ _ _ Ecr)
    as [(e & -> & ->)|(-> & f1 & perm & -> & Hl)].
  { intros [= <- <-]. auto. }
  intros Hrest.
  destruct (download_rest_file url_Parse uri (resolve fileName)
              (set_fs (set_fs w f) f1) perm [] r w' Hl Hrest)
    as [_ [[Hf [Hnet Htr]]|[Hf [Hnet Htr]]]]; simpl in *.
  - rewrite app_nil_r in Htr. auto.
  - auto.
Qed.

(** One call of [downloadDependency] opens at most one source, and if it
    opened one, a regular file is at the cache path afterwards. *)
Lemma downloadDependency_effect url_Parse d cacheDir w r w' :
  downloadDependency url_Parse d cacheDir w = (r, w') ->
  net w' = net w /\
  (transfers w' = transfers w \/
   (transfers w' = transfers w ++ [URI d] /\
    exists perm c,
      lookup (resolve (Filepath.Join [cacheDir; cacheFile d])) (fs w')
        = Some (Reg perm c))).
Proof.
  intros Hrun. apply downloadDependency_inv in Hrun. cbv zeta in Hrun.
  destruct Hrun as [(err & Hmk & ->)
                   |[(w0 & w1 & Hmk & Hfile & v & Hch & ->)
                    |(w0 & err & e' & Hmk & _ & Hdl & ->)]].
  - destruct (os_MkdirAll_inv _ _ _ _ _ Hmk) as [(e & f & _ & ->)|(? & _)];
      [simpl; auto|discriminate].
  - destruct (os_MkdirAll_inv _ _ _ _ _ Hmk) as [(e & ? & ? & _)|(_ & f & ->)];
      [discriminate|].
    apply checkSha256_inv in Hch as [-> _].
    destruct Hfile as [(fi & _ & ->)|(err & _ & Hdl)]; [auto|].
    apply downloadFromURI_effect in Hdl. exact Hdl.
  - destruct (os_MkdirAll_inv _ _ _ _ _ Hmk) as [(e & ? & ? & _)|(_ & f & ->)];
      [discriminate|].
    apply downloadFromURI_effect in Hdl. exact Hdl.
Qed.

End DownloadFacts.

(** * Cleaned paths *)

Module CleanFacts.
Import Filepath PathFacts.

Lemma plain_kept c : plain c = true -> kept c = true.
Proof.
  unfold plain, kept. intros H. apply andb_true_iff in H as [H _]. exact H.
Qed.

Lemma kept_not_dotdot_plain c : kept c = true -> (c =? "..")%string = false -> plain c = true.
Proof. unfold plain, kept. intros -> ->. reflexivity. Qed.

Lemma dotdots_kept st :
  forallb (String.eqb "..") st = true -> forallb kept st = true.
Proof.
  induction st as [|d rest IH]; cbn [forallb]; [reflexivity|].
  intros H. apply andb_true_iff in H as [Hd H].
  apply String.eqb_eq in Hd. subst d. rewrite (IH H). reflexivity.
Qed.

Lemma stack_ok_kept st : stack_ok st = true -> forallb kept st = true.
Proof.
  induction st as [|c rest IH]; cbn [stack_ok forallb]; [reflexivity|].
  destruct (c =? "..")%string eqn:E.
  - apply String.eqb_eq in E. subst c. intros H.
    rewrite (dotdots_kept _ H). reflexivity.
  - intros H. apply andb_true_iff in H as [Hp H].
    rewrite (plain_kept _ Hp). apply IH, H.
Qed.

Lemma stack_nf_kept r st : stack_nf r st = true -> forallb kept st = true.
Proof.
  unfold stack_nf. intros H. apply andb_true_iff in H as [H _].
  destruct r.
  - rewrite forallb_forall in *. intros c Hc. apply plain_kept, H, Hc.
  - apply stack_ok_kept, H.
Qed.

Lemma stack_nf_slashfree r st : stack_nf r st = true -> forallb slashfree st = true.
Proof. unfold stack_nf. intros H. apply andb_true_iff in H as [_ H]. exact H. Qed.

Lemma push_stack_ok st c : stack_ok st = true -> stack_ok (push false st c) = true.
Proof.
  intros H. unfold push.
  destruct (c =? "")%string eqn:E1; cbn [orb]; [assumption|].
  destruct (c =? ".")%string eqn:E2; cbn [orb]; [assumption|].
  destruct (c =? "..")%string eqn:E3.
  - apply String.eqb_eq in E3. subst c.
    destruct st as [|top below]; [reflexivity|].
    destruct (top =? "..")%string eqn:E4.
    + cbn [stack_ok] in *. rewrite E4 in H. rewrite String.eqb_refl.
      cbn [forallb]. rewrite String.eqb_sym, E4, H. reflexivity.
    + cbn [stack_ok] in H. rewrite E4 in H.
      apply andb_true_iff in H as [_ H]. exact H.
  - cbn [stack_ok]. rewrite E3. unfold plain. rewrite E1, E2, E3. exact H.
Qed.

Lemma push_stack_nf r st c :
  slashfree c = true -> stack_nf r st = true -> stack_nf r (push r st c) = true.
Proof.
  unfold stack_nf. intros Hc H. apply andb_true_iff in H as [H Hs].
  apply andb_true_iff. split.
  - destruct r; [apply push_true_plain|apply push_stack_ok]; assumption.
  - apply push_slashfree; assumption.
Qed.

Lemma fold_push_stack_nf r xs st :
  forallb slashfree xs = true -> stack_nf r st = true ->
  stack_nf r (fold_left (push r) xs st) = true.
Proof.
  revert st. induction xs as [|c xs IH]; intros st Hxs H; simpl in *; [assumption|].
  apply andb_true_iff in Hxs as [Hc Hxs].
  apply IH; [assumption|]. apply push_stack_nf; assumption.
Qed.

(** The stack [Clean] computes is in normal form. *)
Lemma clean_stack_nf r s : stack_nf r (fold_left (push r) (split s) []) = true.
Proof.
  apply fold_push_stack_nf; [apply split_all_slashfree|].
  destruct r; reflexivity.
Qed.

Lemma push_dotdot_on_dotdots st :
  forallb (String.eqb "..") st = true -> push false st ".." = ".." :: st.
Proof.
  destruct st as [|top below]; [reflexivity|]. cbn [forallb].
  intros H. apply andb_true_iff in H as [H _].
  unfold push. change ((".." =? "") || (".." =? "."))%string with false.
  rewrite String.eqb_refl, String.eqb_sym, H. reflexivity.
Qed.

Lemma dotdots_stack_ok st :
  forallb (String.eqb "..") st = true -> stack_ok st = true.
Proof.
  destruct st as [|d rest]; cbn [forallb stack_ok]; [reflexivity|].
  intros H. apply andb_true_iff in H as [Hd H].
  rewrite String.eqb_sym, Hd. exact H.
Qed.

(** Cleaning a normal form again gives it back. *)
Lemma fold_push_nf r st :
  stack_nf r st = true -> fold_left (push r) (rev st) [] = st.
Proof.
  unfold stack_nf. intros H. apply andb_true_iff in H as [H _].
  destruct r.
  - rewrite fold_push_plain by (rewrite forallb_rev; exact H).
    rewrite rev_involutive, app_nil_r. reflexivity.
  - induction st as [|c rest IH]; [reflexivity|].
    cbn [rev]. rewrite fold_left_app. cbn [fold_left stack_ok] in *.
    destruct (c =? "..")%string eqn:E.
    + apply String.eqb_eq in E. subst c.
      rewrite IH by (apply dotdots_stack_ok, H).
      apply push_dotdot_on_dotdots, H.
    + apply andb_true_iff in H as [Hp H]. rewrite (IH H).
      apply push_plain, Hp.
Qed.

Lemma push_not_kept r st c : kept c = false -> push r st c = st.
Proof.
  unfold kept, push. intros H.
  destruct (c =? "")%string; simpl in *; [reflexivity|].
  destruct (c =? ".")%string; simpl in *; [reflexivity|discriminate].
Qed.

Lemma fold_push_filter_kept r xs st :
  fold_left (push r) (filter kept xs) st = fold_left (push r) xs st.
Proof.
  revert st. induction xs as [|c xs IH]; intros st; simpl; [reflexivity|].
  destruct (kept c) eqn:E; simpl.
  - apply IH.
  - rewrite (push_not_kept r st c E). apply IH.
Qed.

Lemma filter_kept_id cs : forallb kept cs = true -> filter kept cs = cs.
Proof.
  induction cs as [|c cs IH]; simpl; [reflexivity|].
  intros H. apply andb_true_iff in H as [Hc H]. rewrite Hc, IH; auto.
Qed.

(** The components of a rendered path are the ones it was rendered
    from. *)
Lemma split_render r cs :
  forallb kept cs = true -> forallb slashfree cs = true ->
  filter kept (split (render r cs)) = cs.
Proof.
  intros Hk Hs. unfold render. destruct r.
  - change (split ("/" ++ String.concat "/" cs)%string)
      with ("" :: split (String.concat "/" cs)).
    destruct cs as [|c cs]; [reflexivity|].
    rewrite split_concat by (assumption || discriminate).
    change (filter kept ("" :: c :: cs)) with (filter kept (c :: cs)).
    apply filter_kept_id, Hk.
  - destruct cs as [|c cs]; [reflexivity|].
    rewrite split_concat by (assumption || discriminate).
    apply filter_kept_id, Hk.
Qed.

Lemma concat_first c cs :
  exists rest, String.concat "/" (c :: cs) = (c ++ rest)%string.
Proof.
  destruct cs as [|c' cs]; simpl.
  - exists "". symmetry. clear. induction c; simpl; congruence.
  - eauto.
Qed.

Lemma IsAbs_render r cs :
  forallb kept cs = true -> forallb slashfree cs = true ->
  IsAbs (render r cs) = r /\ render r cs <> "".
Proof.
  intros Hk Hs. unfold render. destruct r; [split; [reflexivity|discriminate]|].
  destruct cs as [|c cs]; [split; [reflexivity|discriminate]|].
  destruct (concat_first c cs) as [rest ->].
  simpl in Hk, Hs. apply andb_true_iff in Hk as [Hk _].
  apply andb_true_iff in Hs as [Hs _].
  destruct c as [|a c]; [discriminate|]. simpl in *.
  apply andb_true_iff in Hs as [Ha _]. apply negb_true_iff in Ha.
  split; [exact Ha|discriminate].
Qed.

(** [Clean] is a rendering of the cleaned stack, also for the empty
    path. *)
Lemma Clean_render_stack s :
  Clean s = render (IsAbs s) (rev (fold_left (push (IsAbs s)) (split s) [])).
Proof.
  unfold Clean, norm. destruct (s =? "")%string eqn:E; [|reflexivity].
  apply String.eqb_eq in E. subst s. reflexivity.
Qed.

Lemma Clean_nf r st :
  stack_nf r st = true -> Clean (render r (rev st)) = render r (rev st).
Proof.
  intros Hnf.
  pose proof (stack_nf_kept _ _ Hnf) as Hk.
  pose proof (stack_nf_slashfree _ _ Hnf) as Hs.
  rewrite <- forallb_rev in Hk, Hs.
  destruct (IsAbs_render r (rev st) Hk Hs) as [Habs _].
  rewrite Clean_render_stack, Habs.
  rewrite <- (fold_push_filter_kept r (split (render r (rev st))) []).
  rewrite split_render by assumption.
  rewrite fold_push_nf by assumption. reflexivity.
Qed.

Lemma IsAbs_app_sep x y : x <> "" -> IsAbs (x ++ String Separator y) = IsAbs x.
Proof. destruct x; [contradiction|reflexivity]. Qed.

(** Joining a name to a cleaned path adds the name. *)
Lemma Join_nf_name r st n :
  stack_nf r st = true -> plain n = true -> slashfree n = true ->
  Join [render r (rev st); n] = render r (rev (n :: st)).
Proof.
  intros Hnf Hp Hsf.
  pose proof (stack_nf_kept _ _ Hnf) as Hk.
  pose proof (stack_nf_slashfree _ _ Hnf) as Hs.
  rewrite <- forallb_rev in Hk, Hs.
  destruct (IsAbs_render r (rev st) Hk Hs) as [Habs Hne].
  cbn [Join]. apply String.eqb_neq in Hne. rewrite Hne.
  apply String.eqb_neq in Hne.
  change (String.concat "/" [render r (rev st); n])
    with (render r (rev st) ++ String Separator n)%string.
  rewrite Clean_render_stack, IsAbs_app_sep, Habs by assumption.
  rewrite split_sep_app, fold_left_app, (split_slashfree n Hsf).
  rewrite <- (fold_push_filter_kept r (split (render r (rev st))) []).
  rewrite split_render by assumption.
  rewrite fold_push_nf by assumption.
  cbn [fold_left]. rewrite push_plain by assumption. reflexivity.
Qed.

(** Joining a name to any directory path. *)
Lemma Join_dir_name dir n :
  plain n = true -> slashfree n = true ->
  Join [dir; n] =
  render (IsAbs dir) (rev (n :: fold_left (push (IsAbs dir)) (split dir) [])).
Proof.
  intros Hp Hsf. cbn [Join]. destruct (dir =? "")%string eqn:E.
  - apply String.eqb_eq in E. subst dir.
    assert (Hn : (n =? "")%string = false).
    { unfold plain in Hp. destruct (n =? "")%string; [discriminate|reflexivity]. }
    rewrite Hn. change (String.concat "/" [n]) with n.
    rewrite Clean_render_stack.
    assert (Habs : IsAbs n = false).
    { destruct n as [|a n]; [reflexivity|]. simpl in *.
      apply andb_true_iff in Hsf as [Ha _]. apply negb_true_iff, Ha. }
    rewrite Habs, (split_slashfree n Hsf). simpl.
    rewrite push_plain by assumption. reflexivity.
  - apply String.eqb_neq in E.
    change (String.concat "/" [dir; n]) with (dir ++ String Separator n)%string.
    rewrite Clean_render_stack, IsAbs_app_sep by assumption.
    rewrite split_sep_app, fold_left_app, (split_slashfree n Hsf). simpl.
    rewrite push_plain by assumption. reflexivity.
Qed.


Lemma stack_nf_names r st names :
  stack_nf r st = true -> forallb plain names = true ->
  forallb slashfree names = true -> stack_nf r (rev names ++ st) = true.
Proof.
  intros Hnf Hp Hs.
  rewrite <- (fold_push_plain r names st Hp).
  apply fold_push_stack_nf; assumption.
Qed.

Lemma kept_nonempty cs : forallb kept cs = true -> filter nonempty cs = cs.
Proof.
  induction cs as [|c cs IH]; cbn [forallb filter]; [reflexivity|].
  intros H. apply andb_true_iff in H as [Hc H].
  unfold kept in Hc. apply andb_true_iff in Hc as [Hc _].
  rewrite (IH H). unfold nonempty. rewrite Hc. reflexivity.
Qed.

Lemma concat_not_dot c cs : kept c = true -> String.concat "/" (c :: cs) <> ".".
Proof.
  intros Hk. destruct cs as [|c' cs].
  - cbn [String.concat]. intros ->. discriminate.
  - change (String.concat "/" (c :: c' :: cs))
      with (c ++ String Separator (String.concat "/" (c' :: cs)))%string.
    destruct c as [|a [|b c]]; [discriminate| |]; simpl; discriminate.
Qed.

(** The components [Rel] compares, for a cleaned path (where ["."] has
    been replaced by the empty path). *)
Lemma Rel_components r cs :
  forallb kept cs = true -> forallb slashfree cs = true ->
  let path := render r cs in
  filter nonempty (split (if (path =? ".")%string then "" else path)) = cs.
Proof.
  intros Hk Hs path. unfold path, render. destruct r.
  - change (("/" ++ String.concat "/" cs =? ".")%string) with false. cbv iota.
    change (split ("/" ++ String.concat "/" cs)%string)
      with ("" :: split (String.concat "/" cs)).
    destruct cs as [|c cs]; [reflexivity|].
    rewrite split_concat by (assumption || discriminate).
    change (filter nonempty ("" :: c :: cs)) with (filter nonempty (c :: cs)).
    apply kept_nonempty, Hk.
  - destruct cs as [|c cs]; [reflexivity|].
    assert (Hc : kept c = true)
      by (cbn [forallb] in Hk; apply andb_true_iff in Hk as [Hc _]; exact Hc).
    pose proof (concat_not_dot c cs Hc) as Hne. apply String.eqb_neq in Hne.
    rewrite Hne, split_concat by (assumption || discriminate).
    apply kept_nonempty, Hk.
Qed.

Lemma strip_common_app b t : strip_common b (b ++ t) = ([], t).
Proof.
  induction b as [|x b IH]; simpl.
  - destruct t; reflexivity.
  - rewrite String.eqb_refl. exact IH.
Qed.

Lemma render_inj r cs1 cs2 :
  forallb kept cs1 = true -> forallb slashfree cs1 = true ->
  forallb kept cs2 = true -> forallb slashfree cs2 = true ->
  render r cs1 = render r cs2 -> cs1 = cs2.
Proof.
  intros Hk1 Hs1 Hk2 Hs2 H.
  rewrite <- (split_render r cs1 Hk1 Hs1), <- (split_render r cs2 Hk2 Hs2), H.
  reflexivity.
Qed.

(** [Rel] of a path made by [Walk] below the source directory: the names
    that were joined. *)
Lemma Rel_below srcDir names :
  names <> [] -> forallb plain names = true -> forallb slashfree names = true ->
  let r := IsAbs srcDir in
  let st0 := fold_left (push r) (split srcDir) [] in
  Rel srcDir (render r (rev (rev names ++ st0))) = Some (String.concat "/" names).
Proof.
  intros Hne Hp Hs r st0.
  assert (Hnf0 : stack_nf r st0 = true) by apply clean_stack_nf.
  assert (Hnf : stack_nf r (rev names ++ st0) = true)
    by (apply stack_nf_names; assumption).
  pose proof (stack_nf_kept _ _ Hnf0) as Hk0.
  pose proof (stack_nf_slashfree _ _ Hnf0) as Hs0.
  pose proof (stack_nf_kept _ _ Hnf) as Hk.
  pose proof (stack_nf_slashfree _ _ Hnf) as Hsf.
  rewrite <- forallb_rev in Hk0, Hs0, Hk, Hsf.
  unfold Rel. rewrite (Clean_nf r _ Hnf), (Clean_render_stack srcDir).
  fold r. fold st0.
  rewrite rev_app_distr, rev_involutive in *.
  destruct (render r (rev st0 ++ names) =? render r (rev st0))%string eqn:E.
  { apply String.eqb_eq in E. apply render_inj in E; try assumption.
    apply (f_equal (@length string)) in E. rewrite length_app in E.
    destruct names; [contradiction|simpl in E; lia]. }
  assert (Habs : IsAbs (if (render r (rev st0) =? ".")%string then ""
                        else render r (rev st0))
                 = IsAbs (render r (rev st0 ++ names))).
  { destruct (IsAbs_render r (rev st0) Hk0 Hs0) as [H0 _].
    destruct (IsAbs_render r (rev st0 ++ names) Hk Hsf) as [H1 _].
    rewrite H1. destruct (render r (rev st0) =? ".")%string eqn:Ed; [|exact H0].
    apply String.eqb_eq in Ed. rewrite Ed in H0. rewrite <- H0. reflexivity. }
  rewrite Habs, Bool.eqb_reflx. cbn [negb].
  rewrite (Rel_components r (rev st0) Hk0 Hs0).
  assert (Ht : filter nonempty (split (render r (rev st0 ++ names)))
               = rev st0 ++ names).
  { pose proof (Rel_components r (rev st0 ++ names) Hk Hsf) as H. cbv zeta in H.
    destruct (render r (rev st0 ++ names) =? ".")%string eqn:Ed; [|exact H].
    exfalso. apply String.eqb_eq in Ed.
    change "." with (render false []) in Ed.
    destruct r.
    - unfold render in Ed. discriminate.
    - apply render_inj in Ed; try assumption; try reflexivity.
      apply app_eq_nil in Ed as [_ Ed]. contradiction. }
  rewrite Ht, strip_common_app. reflexivity.
Qed.

Lemma Rel_self srcDir : Rel srcDir srcDir = Some ".".
Proof. unfold Rel. rewrite String.eqb_refl. reflexivity. Qed.

(** Where [Dir] leads: to all components but the last. *)
Lemma resolve_Dir y : resolve (Dir y) = norm true (removelast (split y)).
Proof.
  unfold Dir. destruct (removelast (split y)) as [|c cs] eqn:E.
  - reflexivity.
  - rewrite resolve_Clean. unfold resolve.
    change (String.concat "/" (c :: cs) ++ "/")%string
      with (String.concat "/" (c :: cs) ++ String Separator "")%string.
    rewrite split_sep_app, split_concat; [|discriminate|].
    + unfold norm. rewrite fold_left_app. reflexivity.
    + rewrite <- E. pose proof (split_all_slashfree y) as H.
      rewrite forallb_forall in *. intros x Hx. apply H.
      clear -Hx. induction (split y) as [|a l IH]; [contradiction|].
      simpl in Hx. destruct l; [contradiction|].
      destruct Hx as [->|Hx]; [left; reflexivity|right; apply IH, Hx].
Qed.

Lemma is_prefix_app p s : is_prefix p (p ++ s) = true.
Proof.
  induction p as [|a p IH]; simpl; [reflexivity|].
  rewrite String.eqb_refl. exact IH.
Qed.

Lemma is_prefix_refl p : is_prefix p p = true.
Proof. rewrite <- (app_nil_r p) at 2. apply is_prefix_app. Qed.

Lemma is_prefix_trans p q t :
  is_prefix p q = true -> is_prefix q t = true -> is_prefix p t = true.
Proof.
  revert q t. induction p as [|a p IH]; intros q t; [reflexivity|].
  destruct q as [|b q]; [discriminate|]. destruct t as [|c t]; [discriminate|].
  simpl. intros H1 H2.
  apply andb_true_iff in H1 as [E1 H1]. apply andb_true_iff in H2 as [E2 H2].
  apply String.eqb_eq in E1, E2. subst. rewrite String.eqb_refl.
  apply (IH _ _ H1 H2).
Qed.

Lemma fold_push_dotdots_rooted ds :
  forallb (String.eqb "..") ds = true -> fold_left (push true) ds [] = [].
Proof.
  induction ds as [|d ds IH]; cbn [forallb fold_left]; [reflexivity|].
  intros H. apply andb_true_iff in H as [Hd H].
  apply String.eqb_eq in Hd. subst d. apply IH, H.
Qed.

(** The directory of a cleaned path is above the path. *)
Lemma Dir_above r st :
  stack_nf r st = true ->
  is_prefix (resolve (Dir (render r (rev st)))) (resolve (render r (rev st)))
  = true.
Proof.
  intros Hnf. rewrite resolve_Dir. unfold resolve, norm.
  set (y := render r (rev st)).
  assert (Hlast : split y = removelast (split y) ++ [last (split y) ""])
    by (apply app_removelast_last, split_not_nil).
  rewrite Hlast at 2. rewrite fold_left_app. cbn [fold_left].
  set (X := fold_left (push true) (removelast (split y)) []).
  set (l := last (split y) "").
  assert (Hcases : l <> ".." \/ X = []).
  { pose proof (stack_nf_kept _ _ Hnf) as Hk.
    pose proof (stack_nf_slashfree _ _ Hnf) as Hs.
    unfold l, X, y. destruct st as [|top below].
    - destruct r; left; simpl; discriminate.
    - assert (Hcs : exists cs, rev (top :: below) = cs /\ cs <> [] /\
                      last cs "" = top /\ removelast cs = rev below /\
                      split (String.concat "/" cs) = cs).
      { exists (rev (top :: below)). split; [reflexivity|].
        cbn [rev]. rewrite last_last, removelast_last.
        assert (Hne : rev below ++ [top] <> [])
          by (intros E; apply app_eq_nil in E as [_ E]; discriminate).
        repeat split; try assumption.
        apply split_concat; [exact Hne|].
        change (rev below ++ [top]) with (rev (top :: below)).
        rewrite forallb_rev. exact Hs. }
      destruct Hcs as (cs & -> & Hne & Hlast' & Hrm & Hsplit).
      assert (Hrel : split (render false cs) = cs).
      { unfold render. destruct cs; [contradiction|exact Hsplit]. }
      assert (Hroot : split (render true cs) = "" :: cs).
      { unfold render.
        change (split ("/" ++ String.concat "/" cs)%string)
          with ("" :: split (String.concat "/" cs)).
        rewrite Hsplit. reflexivity. }
      destruct (String.eqb_spec top "..") as [->|Htop].
      + right. unfold stack_nf in Hnf. apply andb_true_iff in Hnf as [Hnf _].
        destruct r; [discriminate|].
        rewrite Hrel, Hrm.
        apply fold_push_dotdots_rooted. rewrite forallb_rev.
        cbn [stack_ok] in Hnf. exact Hnf.
      + left. destruct r.
        * rewrite Hroot. destruct cs as [|c cs]; [contradiction|].
          change (last ("" :: c :: cs) "") with (last (c :: cs) "").
          rewrite Hlast'. exact Htop.
        * rewrite Hrel, Hlast'. exact Htop. }
  assert (Hpush : exists suffix, rev (push true X l) = rev X ++ suffix).
  { unfold push. destruct ((l =? "") || (l =? "."))%string.
    - exists []. rewrite app_nil_r. reflexivity.
    - destruct (l =? "..")%string eqn:E.
      + apply String.eqb_eq in E. destruct Hcases as [H | ->]; [contradiction|].
        exists []. reflexivity.
      + exists [l]. reflexivity. }
  destruct Hpush as [suffix ->]. apply is_prefix_app.
Qed.

(** What [Join] returns is a cleaned path, unless it is empty. *)
Lemma Join2_nf a b :
  b <> "" ->
  exists r st, stack_nf r st = true /\ Join [a; b] = render r (rev st).
Proof.
  intros Hb. cbn [Join]. apply String.eqb_neq in Hb.
  destruct (a =? "")%string; [rewrite Hb|]; rewrite Clean_render_stack;
    eexists _, _; (split; [apply clean_stack_nf|reflexivity]).
Qed.

Lemma resolve_Join2_dot a : resolve (Join [a; "."]) = resolve a.
Proof. rewrite resolve_Join2. simpl. apply rev_involutive. Qed.

End CleanFacts.

(** * [MkdirAll] on cleaned paths *)

Module MkdirFacts.
Import FsFacts PathFacts CleanFacts FetchFacts.

Lemma es_replace_twice k x y es :
  es_replace k x (es_replace k y es) = es_replace k x es.
Proof.
  induction es as [|[k' v] es IH]; simpl; [reflexivity|].
  destruct (k' =? k)%string eqn:E; simpl; rewrite E; [reflexivity|].
  rewrite IH. reflexivity.
Qed.

Lemma es_replace_insert k x y es :
  find k es = None -> es_replace k x (es_insert k y es) = es_insert k x es.
Proof.
  induction es as [|[k' v] es IH]; simpl.
  - intros _. rewrite String.eqb_refl. reflexivity.
  - destruct (k' =? k)%string eqn:E; [discriminate|]. intros Hf.
    destruct (k <=? k')%string; simpl.
    + rewrite String.eqb_refl. reflexivity.
    + rewrite E, (IH Hf). reflexivity.
Qed.

Lemma es_put_twice k x y es : es_put k x (es_put k y es) = es_put k x es.
Proof.
  unfold es_put at 1. rewrite find_es_put_same. unfold es_put.
  destruct (find k es) eqn:E.
  - apply es_replace_twice.
  - apply es_replace_insert, E.
Qed.

(** Below an empty directory every directory can be made. *)
Lemma mkdirAll_fresh perm p m : exists f, mkdirAll perm p (Dir m []) = Some f.
Proof.
  revert m. induction p as [|c p IH]; intros m; cbn [mkdirAll find]; [eauto|].
  destruct (IH perm) as [f ->]. eauto.
Qed.

Lemma mkdirAll_through_leaf perm p s n x :
  lookup p n = Some x -> is_dir x = false -> mkdirAll perm (p ++ s) n = None.
Proof.
  revert n. induction p as [|c p IH]; intros n Hl Hx.
  - injection Hl as ->. destruct s, x; try reflexivity; discriminate.
  - destruct n as [| |m es]; try discriminate. cbn [lookup] in Hl.
    cbn [app mkdirAll]. destruct (find c es) as [ch|]; [|discriminate].
    rewrite (IH _ Hl Hx). reflexivity.
Qed.

Lemma put_child cur c new n m es :
  lookup cur n = Some (Dir m es) -> exists n', put (cur ++ [c]) new n = Some n'.
Proof.
  revert n. induction cur as [|a cur IH]; intros n Hl.
  - injection Hl as ->. simpl. eauto.
  - destruct n as [| |m0 es0]; try discriminate. cbn [lookup] in Hl.
    destruct (find a es0) as [ch|] eqn:Ef; [|discriminate].
    destruct (IH _ Hl) as [ch' Hp]. cbn [app put]. rewrite Ef, Hp.
    destruct (cur ++ [c]) eqn:E; [destruct cur; discriminate|eauto].
Qed.

(** Making the first missing directory by hand changes nothing to what
    [mkdirAll] makes, and from there on it cannot fail. *)
Lemma mkdirAll_put_fresh perm cur c rest n n' m es :
  lookup cur n = Some (Dir m es) ->
  lookup (cur ++ [c]) n = None ->
  put (cur ++ [c]) (Dir perm []) n = Some n' ->
  exists f, mkdirAll perm (cur ++ c :: rest) n = Some f /\
            mkdirAll perm (cur ++ c :: rest) n' = Some f.
Proof.
  revert n n'. induction cur as [|a cur IH]; intros n n' Hcur Hnone Hput.
  - injection Hcur as ->. cbn [app lookup] in Hnone. cbn [app put] in Hput.
    injection Hput as <-.
    destruct (find c es) as [ch|] eqn:Ef; [discriminate|].
    cbn [app mkdirAll]. rewrite Ef, find_es_put_same.
    destruct (mkdirAll_fresh perm rest perm) as [f ->].
    rewrite es_put_twice. eauto.
  - destruct n as [| |m0 es0]; try discriminate.
    cbn [app lookup] in Hcur, Hnone. cbn [app put] in Hput.
    destruct (find a es0) as [ch|] eqn:Ef; [|discriminate].
    destruct (cur ++ [c]) as [|b t] eqn:E; [destruct cur; discriminate|].
    rewrite <- E in *.
    destruct (put (cur ++ [c]) (Dir perm []) ch) as [ch'|] eqn:Ep; [|discriminate].
    injection Hput as <-.
    destruct (IH _ _ Hcur Hnone Ep) as (f & H1 & H2).
    cbn [app mkdirAll]. rewrite Ef, find_es_put_same, H1, H2, es_put_twice.
    eauto.
Qed.

(** Along names, the walk makes what [mkdirAll] makes. *)
Lemma mkdir_walk_names perm names cur made n m es :
  forallb plain names = true ->
  lookup cur n = Some (Dir m es) ->
  walked (mkdir_walk perm cur names made n) =
  match mkdirAll perm (cur ++ names) n with
  | Some f => (f, true)
  | None => (n, false)
  end.
Proof.
  revert cur made n m es.
  induction names as [|c rest IH]; intros cur made n m es Hp Hcur.
  - rewrite app_nil_r, (mkdirAll_id _ _ _ _ _ Hcur). reflexivity.
  - cbn [forallb] in Hp. apply andb_true_iff in Hp as [Hc Hp].
    pose proof Hc as Hc'. unfold plain in Hc'.
    apply andb_true_iff in Hc' as [Hc' H3].
    apply andb_true_iff in Hc' as [H1 H2].
    apply negb_true_iff in H1, H2, H3.
    cbn [mkdir_walk]. rewrite H1, H2, H3. cbn [orb].
    replace (cur ++ c :: rest) with ((cur ++ [c]) ++ rest)
      by (rewrite <- app_assoc; reflexivity).
    destruct (lookup (cur ++ [c]) n) as [[a b|t|m' es']|] eqn:El.
    + rewrite (mkdirAll_through_leaf perm _ rest _ _ El eq_refl). reflexivity.
    + rewrite (mkdirAll_through_leaf perm _ rest _ _ El eq_refl). reflexivity.
    + apply (IH _ _ _ _ _ Hp El).
    + destruct (put_child cur c (Dir perm []) n m es Hcur) as [n' Hput].
      rewrite Hput.
      rewrite (IH _ _ _ _ _ Hp (lookup_put_same _ _ _ _ Hput)).
      destruct (mkdirAll_put_fresh perm cur c rest n n' m es Hcur El Hput)
        as (f & Hn & Hn').
      rewrite <- app_assoc. cbn [app]. rewrite Hn, Hn'. reflexivity.
Qed.

(** What [Clean] drops, the walk steps over. *)
Lemma mkdir_walk_kept perm comps cur made n :
  walked (mkdir_walk perm cur comps made n) =
  walked (mkdir_walk perm cur (filter kept comps) made n).
Proof.
  revert cur made n. induction comps as [|c comps IH]; intros cur made n;
    [reflexivity|].
  cbn [filter mkdir_walk]. unfold kept.
  destruct (c =? "")%string eqn:E1; cbn [negb andb orb]; [apply IH|].
  destruct (c =? ".")%string eqn:E2; cbn [negb andb orb]; [apply IH|].
  cbn [mkdir_walk]. rewrite E1, E2. cbn [orb].
  destruct (c =? "..")%string; [apply IH|].
  destruct (lookup (cur ++ [c]) n) as [[a b|t|m es]|]; try reflexivity.
  - apply IH.
  - destruct (put _ _ _); [apply IH|reflexivity].
Qed.

(** At the root, [..] stays. *)
Lemma mkdir_walk_dotdots perm ds comps made n :
  forallb (String.eqb "..") ds = true ->
  mkdir_walk perm [] (ds ++ comps) made n = mkdir_walk perm [] comps made n.
Proof.
  induction ds as [|d ds IH]; cbn [forallb app]; [reflexivity|].
  intros H. apply andb_true_iff in H as [Hd H].
  apply String.eqb_eq in Hd. subst d. cbn [mkdir_walk].
  change ((".." =? "") || (".." =? "."))%string with false.
  rewrite String.eqb_refl. apply IH, H.
Qed.

(** A cleaned relative path: steps up, then names. *)
Lemma stack_ok_rev st :
  stack_ok st = true ->
  exists ds names,
    rev st = ds ++ names /\ forallb (String.eqb "..") ds = true /\
    forallb plain names = true.
Proof.
  induction st as [|c st IH]; cbn [stack_ok rev].
  - intros _. exists [], []. auto.
  - destruct (c =? "..")%string eqn:E.
    + apply String.eqb_eq in E. subst c. intros H.
      exists (rev st ++ [".."]), []. rewrite app_nil_r. split; [reflexivity|].
      split; [|reflexivity].
      change (rev st ++ [".."]) with (rev (".." :: st)).
      rewrite forallb_rev. cbn [forallb]. rewrite H. reflexivity.
    + intros H. apply andb_true_iff in H as [Hc H].
      destruct (IH H) as (ds & names & -> & Hds & Hn).
      exists ds, (names ++ [c]). rewrite <- app_assoc. split; [reflexivity|].
      split; [exact Hds|]. rewrite forallb_app, Hn. cbn [forallb].
      rewrite Hc. reflexivity.
Qed.

Lemma stack_nf_rev r st :
  stack_nf r st = true ->
  exists ds names,
    rev st = ds ++ names /\ forallb (String.eqb "..") ds = true /\
    forallb plain names = true.
Proof.
  unfold stack_nf. intros H. apply andb_true_iff in H as [H _]. destruct r.
  - exists [], (rev st). rewrite forallb_rev. auto.
  - apply stack_ok_rev, H.
Qed.

Lemma cleaned_Clean s : cleaned (Filepath.Clean s).
Proof. right. eauto. Qed.

Lemma cleaned_Dir y : cleaned (Filepath.Dir y).
Proof. unfold Filepath.Dir. destruct (removelast (Filepath.split y)); apply cleaned_Clean. Qed.

Lemma cleaned_Join elem : cleaned (Filepath.Join elem).
Proof.
  induction elem as [|e rest IH]; cbn [Filepath.Join]; [left; reflexivity|].
  destruct (e =? "")%string; [exact IH|apply cleaned_Clean].
Qed.

(** On a cleaned path [os.MkdirAll] does what [mkdirAll] does at the
    place the path leads to, and changes nothing when it fails. *)
Lemma os_MkdirAll_Clean s perm w :
  match mkdirAll (Z.land perm ModePerm) (resolve (Filepath.Clean s)) (fs w) with
  | Some f => os_MkdirAll (Filepath.Clean s) perm w = (Ok tt, set_fs w f)
  | None => exists e, os_MkdirAll (Filepath.Clean s) perm w = (Err e, w)
  end.
Proof.
  rewrite Clean_render_stack.
  set (st := fold_left (Filepath.push (Filepath.IsAbs s)) (Filepath.split s) []).
  pose proof (clean_stack_nf (Filepath.IsAbs s) s) as Hnf. fold st in Hnf.
  set (rt := Filepath.IsAbs s) in *. clearbody st rt.
  pose proof (stack_nf_kept _ _ Hnf) as Hk.
  pose proof (stack_nf_slashfree _ _ Hnf) as Hs.
  rewrite <- forallb_rev in Hk, Hs.
  destruct (IsAbs_render rt (rev st) Hk Hs) as [_ Hne].
  apply String.eqb_neq in Hne.
  unfold os_MkdirAll. rewrite Hne.
  destruct (fs w) as [a b|t|m es] eqn:Efs;
    try (destruct (resolve _); cbn [mkdirAll]; eauto; fail).
  cbv zeta.
  pose proof (mkdir_walk_kept (Z.land perm ModePerm)
                (Filepath.split (Filepath.render rt (rev st))) [] false (Dir m es)) as Hw.
  set (W := mkdir_walk _ [] (Filepath.split _) false _) in *. clearbody W.
  rewrite (split_render rt (rev st) Hk Hs) in Hw.
  assert (Hres : exists ds names,
             rev st = ds ++ names /\ forallb (String.eqb "..") ds = true /\
             forallb plain names = true /\
             resolve (Filepath.render rt (rev st)) = names).
  { destruct (stack_nf_rev _ _ Hnf) as (ds & names & E & Hds & Hn).
    exists ds, names. repeat split; try assumption.
    unfold resolve, Filepath.norm.
    rewrite <- (fold_push_filter_kept true (Filepath.split (Filepath.render rt (rev st))) []).
    rewrite (split_render rt (rev st) Hk Hs), E, fold_left_app.
    rewrite (fold_push_dotdots_rooted ds Hds).
    rewrite (fold_push_plain true names [] Hn), app_nil_r.
    apply rev_involutive. }
  destruct Hres as (ds & names & E & Hds & Hn & ->).
  rewrite E, (mkdir_walk_dotdots _ ds names false _ Hds) in Hw.
  rewrite (mkdir_walk_names _ names [] false (Dir m es) m es Hn eq_refl) in Hw.
  cbn [app] in Hw.
  destruct W as [f [[rest made]|]]; unfold walked in Hw; cbn [fst snd] in Hw.
  - destruct (mkdirAll _ names _); [discriminate|]. injection Hw as ->.
    eexists. rewrite <- Efs, set_fs_id. reflexivity.
  - destruct (mkdirAll _ names _) as [f'|]; [|discriminate]. injection Hw as ->.
    reflexivity.
Qed.

Lemma os_MkdirAll_cleaned path perm w r w' :
  cleaned path ->
  os_MkdirAll path perm w = (r, w') ->
  (exists e, r = Err e /\ w' = w) \/
  (r = Ok tt /\ exists f, w' = set_fs w f /\
     mkdirAll (Z.land perm ModePerm) (resolve path) (fs w) = Some f).
Proof.
  intros [->|[s ->]].
  { intros [= <- <-]. left. eauto. }
  pose proof (os_MkdirAll_Clean s perm w) as H.
  destruct (mkdirAll _ _ _) as [f|].
  - rewrite H. intros [= <- <-]. right. eauto.
  - destruct H as [e ->]. intros [= <- <-]. left. eauto.
Qed.

(** A cleaned path whose place is a directory is left as it is. *)
Lemma os_MkdirAll_cleaned_id s perm w m es :
  lookup (resolve (Filepath.Clean s)) (fs w) = Some (Dir m es) ->
  os_MkdirAll (Filepath.Clean s) perm w = (Ok tt, w).
Proof.
  intros Hl. pose proof (os_MkdirAll_Clean s perm w) as H.
  rewrite (mkdirAll_id _ _ _ _ _ Hl), set_fs_id in H. exact H.
Qed.

End MkdirFacts.

(** * What writing below a directory leaves untouched *)

Module StageFacts.
Import FsFacts PathFacts CleanFacts MkdirFacts Normal DownloadFacts.

(** Induction on the tree, with the hypothesis for every entry of a
    directory. *)
Lemma node_induction (P : node -> Prop) :
  (forall perm content, P (Reg perm content)) ->
  (forall target, P (Link target)) ->
  (forall perm es, Forall (fun e => P (snd e)) es -> P (Dir perm es)) ->
  forall n, P n.
Proof.
  intros HReg HLink HDir.
  fix IH 1. intros [perm content|target|perm es].
  - apply HReg.
  - apply HLink.
  - apply HDir. induction es as [|[name child] es IHes]; constructor.
    + apply IH.
    + apply IHes.
Qed.

Lemma lookup_leaf c q n : leaf n -> lookup (c :: q) n = None.
Proof. destruct n as [| |perm [|e es]]; simpl; intros H; tauto. Qed.

(** Placing a leaf at [p] creates nothing at a path [q] that is not
    above [p]. *)
Lemma put_keeps_None p q new n n' :
  put p new n = Some n' -> leaf new -> lookup q n = None ->
  is_prefix q p = false -> lookup q n' = None.
Proof.
  revert q n n'. induction p as [|c p IH]; intros q n n' Hput Hleaf Hq Hpre.
  - simpl in Hput. injection Hput as <-.
    destruct q as [|d q]; [discriminate|]. apply lookup_leaf, Hleaf.
  - destruct q as [|d q]; [discriminate|].
    cbn [put] in Hput. destruct n as [| |m es]; try discriminate.
    cbn [is_prefix] in Hpre. cbn [lookup] in Hq.
    destruct (String.eqb_spec d c) as [->|Hne].
    + cbn [andb] in Hpre.
      destruct p as [|c' p'].
      * injection Hput as <-. cbn [lookup]. rewrite find_es_put_same.
        destruct q as [|e q]; [discriminate|]. apply lookup_leaf, Hleaf.
      * destruct (find c es) as [child|] eqn:Ef; [|discriminate].
        destruct (put (c' :: p') new child) as [child'|] eqn:Ep; [|discriminate].
        injection Hput as <-. cbn [lookup]. rewrite find_es_put_same.
        apply (IH _ _ _ Ep Hleaf Hq Hpre).
    + assert (exists child, n' = Dir m (es_put c child es)) as [child ->].
      { destruct p as [|c' p'].
        - injection Hput as <-. eauto.
        - destruct (find c es); [|discriminate].
          destruct (put (c' :: p') new n); [|discriminate].
          injection Hput as <-. eauto. }
      cbn [lookup]. rewrite find_es_put_other by congruence. exact Hq.
Qed.

(** [MkdirAll] of [p] creates nothing at a path [q] that is not above
    [p]. *)
Lemma mkdirAll_keeps_None perm p q n n' :
  mkdirAll perm p n = Some n' -> lookup q n = None ->
  is_prefix q p = false -> lookup q n' = None.
Proof.
  revert q n n'. induction p as [|c p IH]; intros q n n' Hmk Hq Hpre.
  - apply mkdirAll_nil in Hmk. subst. exact Hq.
  - destruct q as [|d q]; [discriminate|].
    destruct n as [| |m es]; try discriminate. cbn [mkdirAll] in Hmk.
    destruct (mkdirAll perm p _) as [child'|] eqn:Em; [|discriminate].
    injection Hmk as <-. cbn [lookup] in *. cbn [is_prefix] in Hpre.
    destruct (String.eqb_spec d c) as [->|Hne].
    + cbn [andb] in Hpre. rewrite find_es_put_same.
      apply (IH _ _ _ Em); [|exact Hpre].
      destruct (find c es) as [child|]; [exact Hq|].
      destruct q; [discriminate|reflexivity].
    + rewrite find_es_put_other by congruence. exact Hq.
Qed.

Lemma is_prefix_false_below D g names :
  (forall n rest, names = n :: rest -> n <> g) ->
  is_prefix (D ++ [g]) (D ++ names) = false.
Proof.
  intros H. induction D as [|d D IH]; simpl.
  - destruct names as [|n rest]; [reflexivity|].
    specialize (H n rest eq_refl). apply String.eqb_neq in H.
    rewrite String.eqb_sym, H. reflexivity.
  - rewrite String.eqb_refl. exact IH.
Qed.

Lemma is_prefix_false_above q p t :
  is_prefix q t = false -> is_prefix p t = true -> is_prefix q p = false.
Proof.
  intros Hq Hp. destruct (is_prefix q p) eqn:E; [|reflexivity].
  rewrite (is_prefix_trans _ _ _ E Hp) in Hq. discriminate.
Qed.

(** Names are preserved by looking up and by placing nodes at resolved
    paths. *)
Lemma es_names_ok_find name es child :
  forallb (fun e : string * node =>
             let (k, v) := e in plain k && slashfree k && names_ok v) es = true ->
  find name es = Some child -> names_ok child = true.
Proof.
  induction es as [|[k v] es IH]; cbn [forallb find]; [discriminate|].
  intros H. apply andb_true_iff in H as [Hk H].
  destruct (k =? name)%string.
  - intros [= <-]. apply andb_true_iff in Hk as [_ Hk]. exact Hk.
  - apply IH, H.
Qed.

Lemma lookup_names_ok p n m :
  names_ok n = true -> lookup p n = Some m -> names_ok m = true.
Proof.
  revert n. induction p as [|c p IH]; intros n Hn; cbn [lookup].
  - intros [= <-]. exact Hn.
  - destruct n as [| |perm es]; try discriminate.
    destruct (find c es) as [child|] eqn:Ef; [|discriminate].
    apply IH. eapply es_names_ok_find; [exact Hn|exact Ef].
Qed.

Lemma es_put_names_ok name new es :
  plain name = true -> slashfree name = true -> names_ok new = true ->
  forallb (fun e : string * node =>
             let (k, v) := e in plain k && slashfree k && names_ok v) es = true ->
  forallb (fun e : string * node =>
             let (k, v) := e in plain k && slashfree k && names_ok v)
          (es_put name new es) = true.
Proof.
  intros Hp Hs Hn. unfold es_put. destruct (find name es) as [old|] eqn:Ef.
  - clear Ef. induction es as [|[k v] es IH]; cbn [es_replace forallb];
      [reflexivity|].
    intros H. apply andb_true_iff in H as [Hk H].
    destruct (k =? name)%string; cbn [forallb].
    + apply andb_true_iff in Hk as [Hk _]. rewrite Hk, Hn, H. reflexivity.
    + rewrite Hk, (IH H). reflexivity.
  - clear Ef. induction es as [|[k v] es IH]; cbn [es_insert forallb].
    + intros _. rewrite Hp, Hs, Hn. reflexivity.
    + intros H. destruct (name <=? k)%string; cbn [forallb].
      * rewrite Hp, Hs, Hn. exact H.
      * apply andb_true_iff in H as [Hk H]. rewrite Hk, (IH H). reflexivity.
Qed.

Lemma put_names_ok p new n n' :
  forallb plain p = true -> forallb slashfree p = true ->
  names_ok new = true -> names_ok n = true ->
  put p new n = Some n' -> names_ok n' = true.
Proof.
  revert n n'. induction p as [|c p IH]; intros n n' Hp Hs Hnew Hn.
  - simpl. intros [= <-]. exact Hnew.
  - cbn [forallb] in Hp, Hs.
    apply andb_true_iff in Hp as [Hc Hp]. apply andb_true_iff in Hs as [Hcs Hs].
    cbn [put]. destruct n as [| |m es]; try discriminate.
    destruct p as [|c' p'].
    + intros [= <-]. cbn [names_ok]. apply es_put_names_ok; assumption.
    + destruct (find c es) as [child|] eqn:Ef; [|discriminate].
      destruct (put (c' :: p') new child) as [child'|] eqn:Ep; [|discriminate].
      intros [= <-]. cbn [names_ok]. apply es_put_names_ok; try assumption.
      apply (IH child child' Hp Hs Hnew); [|exact Ep].
      eapply es_names_ok_find; [exact Hn|exact Ef].
Qed.


Lemma copyDirectory_visit_entry srcDir destDir path info :
  copyDirectory_visit srcDir destDir path (Some info) None =
  match Filepath.Rel srcDir path with
  | None =>
      fail (ErrOther ("Rel: can't make " ++ path ++ " relative to "
                      ++ srcDir)%string)
  | Some rel =>
      if (rel =? ".git")%string || (rel =? "tests")%string then fail SkipDir
      else copy_entry srcDir destDir rel info
  end.
Proof. reflexivity. Qed.

Section Untouched.
(** A path [q] at which nothing exists and nothing is to appear. *)
Variable q : list string.

Lemma os_MkdirAll_untouched path perm w r w' :
  cleaned path ->
  os_MkdirAll path perm w = (r, w') ->
  is_prefix q (resolve path) = false ->
  lookup q (fs w) = None -> lookup q (fs w') = None.
Proof.
  intros Hc Hrun Hpre Hq.
  destruct (os_MkdirAll_cleaned _ _ _ _ _ Hc Hrun)
    as [(e & _ & ->)|(_ & f & -> & Hmk)]; [exact Hq|].
  simpl. eapply mkdirAll_keeps_None; eassumption.
Qed.

Lemma os_Symlink_untouched oldname newname w r w' :
  os_Symlink oldname newname w = (r, w') ->
  is_prefix q (resolve newname) = false ->
  lookup q (fs w) = None -> lookup q (fs w') = None.
Proof.
  unfold os_Symlink. intros Hrun Hpre Hq.
  destruct (lookup (resolve newname) (fs w)); [injection Hrun as _ <-; exact Hq|].
  destruct (put _ _ _) as [f|] eqn:Ep; injection Hrun as _ <-; [|exact Hq].
  simpl. eapply put_keeps_None; try eassumption. exact I.
Qed.

Lemma os_OpenFile_untouched name perm w r w' :
  os_OpenFile_create_trunc name perm w = (r, w') ->
  is_prefix q (resolve name) = false ->
  lookup q (fs w) = None ->
  lookup q (fs w') = None /\
  (forall h, r = Ok h ->
     h = resolve name /\ exists p c, lookup h (fs w') = Some (Reg p c)).
Proof.
  unfold os_OpenFile_create_trunc. intros Hrun Hpre Hq.
  destruct (lookup (resolve name) (fs w)) as [[old c|t|p es]|] eqn:E;
    try (injection Hrun as <- <-; split; [exact Hq|discriminate]).
  - destruct (put _ _ _) as [f|] eqn:Ep; injection Hrun as <- <-;
      [|split; [exact Hq|discriminate]].
    split.
    + simpl. eapply put_keeps_None; try eassumption. exact I.
    + intros h [= <-]. split; [reflexivity|]. simpl.
      rewrite (lookup_put_same _ _ _ _ Ep). eauto.
  - destruct (put _ _ _) as [f|] eqn:Ep; injection Hrun as <- <-;
      [|split; [exact Hq|discriminate]].
    split.
    + simpl. eapply put_keeps_None; try eassumption. exact I.
    + intros h [= <-]. split; [reflexivity|]. simpl.
      rewrite (lookup_put_same _ _ _ _ Ep). eauto.
Qed.

Lemma file_Write_untouched h data w r w' :
  file_Write h data w = (r, w') ->
  is_prefix q h = false ->
  lookup q (fs w) = None -> lookup q (fs w') = None.
Proof.
  unfold file_Write. intros Hrun Hpre Hq.
  destruct (lookup h (fs w)) as [[p c|t|p es]|];
    try (injection Hrun as _ <-; exact Hq).
  destruct (put _ _ _) as [f|] eqn:Ep; injection Hrun as _ <-; [|exact Hq].
  simpl. eapply put_keeps_None; try eassumption. exact I.
Qed.

Lemma os_Readlink_inv name w r w' : os_Readlink name w = (r, w') -> w' = w.
Proof.
  unfold os_Readlink. destruct (lookup _ _) as [[]|]; intros [= _ <-];
    reflexivity.
Qed.

Lemma io_Copy_untouched h src w r w' :
  io_Copy h (FileReader src) w = (r, w') ->
  is_prefix q h = false ->
  lookup q (fs w) = None -> lookup q (fs w') = None.
Proof.
  cbn [io_Copy]. unfold bind. intros Hrun Hpre Hq.
  destruct (file_ReadAll src w) as [[c|e|msg|c] w1] eqn:Er;
    pose proof (file_ReadAll_inv _ _ _ _ Er) as ->;
    try (injection Hrun as _ <-; exact Hq).
  eapply file_Write_untouched; eassumption.
Qed.

(** Copying one entry to a destination that [q] is not above leaves [q]
    as it is. *)
Lemma copy_entry_untouched srcDir destDir rel info w r w' :
  copy_entry srcDir destDir rel info w = (r, w') ->
  is_prefix q (resolve (Filepath.Join [destDir; rel])) = false ->
  is_prefix (resolve (Filepath.Dir (Filepath.Join [destDir; rel])))
            (resolve (Filepath.Join [destDir; rel])) = true ->
  lookup q (fs w) = None -> lookup q (fs w') = None.
Proof.
  unfold copy_entry. intros Hrun Hpre Hdir Hq.
  set (dest := Filepath.Join [destDir; rel]) in *.
  destruct (negb (Z.land (Mode info) ModeSymlink =? 0)).
  - unfold bind, try in Hrun.
    destruct (os_Readlink _ w) as [[target|e|msg|c] w1] eqn:Erl;
      pose proof (os_Readlink_inv _ _ _ _ Erl) as ->;
      try (injection Hrun as _ <-; exact Hq).
    destruct (os_Symlink target dest w) as [[[]|e|msg|c] w1] eqn:Esl;
      pose proof (os_Symlink_untouched _ _ _ _ _ Esl Hpre Hq) as Hq1;
      injection Hrun as _ <-; exact Hq1.
  - destruct (IsDir info).
    + eapply os_MkdirAll_untouched; try eassumption. apply cleaned_Join.
    + unfold bind in Hrun.
      destruct (os_Open _ w) as [[src|e|msg|c] w1] eqn:Eo;
        pose proof (os_Open_inv _ _ _ _ Eo) as ->;
        try (injection Hrun as _ <-; exact Hq).
      assert (Hpre' : is_prefix q (resolve (Filepath.Dir dest)) = false)
        by (eapply is_prefix_false_above; eassumption).
      destruct (os_MkdirAll (Filepath.Dir dest) 493 w) as [[[]|e|msg|c] w1] eqn:Emk;
        pose proof (os_MkdirAll_untouched _ _ _ _ _ (cleaned_Dir dest) Emk Hpre' Hq)
          as Hq1;
        try (injection Hrun as _ <-; exact Hq1).
      destruct (os_OpenFile_create_trunc dest (Mode info) w1)
        as [[fh|e|msg|c] w2] eqn:Eof;
        destruct (os_OpenFile_untouched _ _ _ _ _ Eof Hpre Hq1) as [Hq2 Hfh];
        try (injection Hrun as _ <-; exact Hq2).
      destruct (Hfh fh eq_refl) as [-> _].
      eapply io_Copy_untouched; eassumption.
Qed.

End Untouched.


Section Staging.
Variables srcDir destDir : string.
(** The name to be skipped, [.git] or [tests]. *)
Variable g : string.
Hypothesis Hg : g = ".git" \/ g = "tests".

Local Abbreviation visit := (copyDirectory_visit srcDir destDir).
Local Abbreviation q := (resolve destDir ++ [g]).
Local Abbreviation path_of := (walk_path srcDir).

Lemma concat_names_not_empty names :
  names <> [] -> forallb plain names = true ->
  String.concat "/" names <> "".
Proof.
  destruct names as [|n rest]; [contradiction|]. intros _ Hp.
  cbn [forallb] in Hp. apply andb_true_iff in Hp as [Hn _].
  destruct (concat_first n rest) as [tail ->].
  destruct n; [discriminate|]. discriminate.
Qed.

(** Visiting an entry below the source: a skipped name changes nothing and
    answers [SkipDir]; any other entry leaves [q] as it is. *)
Lemma visit_below names info w r w' :
  names <> [] -> forallb plain names = true ->
  forallb slashfree names = true ->
  visit (path_of names) (Some info) None w = (r, w') ->
  (forall n, names = [n] -> skipped n = true -> r = Err SkipDir /\ w' = w) /\
  ((forall n rest, names = n :: rest -> skipped n = false) ->
   lookup q (fs w) = None -> lookup q (fs w') = None).
Proof.
  intros Hne Hp Hs. unfold walk_path.
  rewrite copyDirectory_visit_entry, Rel_below by assumption.
  intros H. split.
  - intros n -> Hskip. cbn [String.concat] in H. unfold skipped in Hskip.
    rewrite Hskip in H. injection H as <- <-. auto.
  - intros Hhead Hq.
    destruct ((String.concat "/" names =? ".git")
              || (String.concat "/" names =? "tests"))%string;
      [injection H as _ <-; exact Hq|].
    eapply copy_entry_untouched; [exact H| | |exact Hq].
    + rewrite resolve_Join2_plain by assumption.
      apply is_prefix_false_below. intros n rest -> ->.
      specialize (Hhead _ _ eq_refl). unfold skipped in Hhead.
      destruct Hg as [->| ->]; discriminate.
    + destruct (Join2_nf destDir (String.concat "/" names)
                  (concat_names_not_empty names Hne Hp)) as (r0 & st & Hnf & ->).
      apply Dir_above, Hnf.
Qed.

(** Visiting the source directory itself. *)
Lemma visit_root info w r w' :
  visit srcDir (Some info) None w = (r, w') ->
  lookup q (fs w) = None -> lookup q (fs w') = None.
Proof.
  rewrite copyDirectory_visit_entry, Rel_self.
  change ((("." =? ".git") || ("." =? "tests"))%string) with false. cbv iota.
  intros H Hq. eapply copy_entry_untouched; [exact H| | |exact Hq].
  - rewrite resolve_Join2_dot.
    rewrite <- (app_nil_r (resolve destDir)) at 2.
    apply is_prefix_false_below. discriminate.
  - destruct (Join2_nf destDir ".") as (r0 & st & Hnf & ->); [discriminate|].
    apply Dir_above, Hnf.
Qed.

Lemma path_of_snoc names name :
  forallb plain names = true -> forallb slashfree names = true ->
  plain name = true -> slashfree name = true ->
  Filepath.Join [path_of names; name] = path_of (names ++ [name]).
Proof.
  intros Hp Hs Hn Hns. unfold walk_path.
  rewrite Join_nf_name; try assumption.
  - rewrite rev_unit. reflexivity.
  - apply stack_nf_names; try assumption. apply clean_stack_nf.
Qed.

Lemma path_of_child name :
  plain name = true -> slashfree name = true ->
  Filepath.Join [srcDir; name] = path_of [name].
Proof. intros Hn Hs. unfold walk_path. apply Join_dir_name; assumption. Qed.

(** The walk below an entry that is not skipped at the top leaves [q] as
    it is. *)
Lemma walk_below n :
  forall names w r w',
    names <> [] -> forallb plain names = true ->
    forallb slashfree names = true ->
    (forall k rest, names = k :: rest -> skipped k = false) ->
    names_ok n = true ->
    walk visit (path_of names) n w = (r, w') ->
    lookup q (fs w) = None -> lookup q (fs w') = None.
Proof.
  induction n as [perm content|target|perm es IH] using node_induction;
    intros names w r w' Hne Hp Hs Hhead Hok Hrun Hq.
  - cbn [walk] in Hrun.
    eapply (proj2 (visit_below names _ w r w' Hne Hp Hs Hrun)); assumption.
  - cbn [walk] in Hrun.
    eapply (proj2 (visit_below names _ w r w' Hne Hp Hs Hrun)); assumption.
  - cbn [walk] in Hrun. unfold bind, try in Hrun.
    destruct (visit (path_of names) _ None w) as [[[]|e|msg|c] w1] eqn:Ev;
      pose proof (proj2 (visit_below names _ w _ w1 Hne Hp Hs Ev) Hhead Hq) as Hq1;
      try (injection Hrun as _ <-; exact Hq1).
    clear Ev Hq. revert w1 Hq1 Hrun. cbn [names_ok] in Hok.
    induction es as [|[name child] es IHes]; intros w1 Hq1 Hrun.
    + injection Hrun as _ <-. exact Hq1.
    + cbn [forallb] in Hok. apply andb_true_iff in Hok as [Hname Hok].
      apply andb_true_iff in Hname as [Hname Hchild].
      apply andb_true_iff in Hname as [Hnp Hns].
      inversion IH as [|? ? IHchild IHrest]; subst.
      cbn [walk_entries] in Hrun. unfold bind, try in Hrun.
      rewrite path_of_snoc in Hrun by assumption.
      assert (Hstep : forall x w2,
                 walk visit (path_of (names ++ [name])) child w1 = (x, w2) ->
                 lookup q (fs w2) = None).
      { intros x w2 Hw. cbn [snd] in IHchild.
        eapply (IHchild (names ++ [name])); try eassumption.
        - intros E. apply app_eq_nil in E as [_ E]. discriminate.
        - rewrite forallb_app, Hp. cbn [forallb]. rewrite Hnp. reflexivity.
        - rewrite forallb_app, Hs. cbn [forallb]. rewrite Hns. reflexivity.
        - intros k rest E. destruct names as [|k0 rest0]; [contradiction|].
          injection E as <- _. eapply Hhead. reflexivity. }
      destruct (walk visit (path_of (names ++ [name])) child w1)
        as [[[]|e|msg|c] w2] eqn:Ew;
        pose proof (Hstep _ _ eq_refl) as Hq2;
        try (injection Hrun as _ <-; exact Hq2).
      * eapply IHes; eassumption.
      * destruct (negb (is_dir child) || negb (is_SkipDir e)).
        -- injection Hrun as _ <-. exact Hq2.
        -- eapply IHes; eassumption.
Qed.

(** The walk into a top-level entry with a skipped name does nothing. *)
Lemma walk_skipped name n w :
  plain name = true -> slashfree name = true -> skipped name = true ->
  walk visit (path_of [name]) n w = (Err SkipDir, w).
Proof.
  intros Hp Hs Hskip.
  assert (Hv : forall info, visit (path_of [name]) (Some info) None w
                            = (Err SkipDir, w)).
  { intros info.
    destruct (visit (path_of [name]) (Some info) None w) as [r w'] eqn:Ev.
    assert (Hne : [name] <> []) by discriminate.
    assert (Hp1 : forallb plain [name] = true) by (cbn; rewrite Hp; reflexivity).
    assert (Hs1 : forallb slashfree [name] = true) by (cbn; rewrite Hs; reflexivity).
    destruct (proj1 (visit_below [name] info w r w' Hne Hp1 Hs1 Ev) name eq_refl Hskip)
      as [-> ->].
    reflexivity. }
  destruct n as [perm content|target|perm es]; cbn [walk].
  - apply Hv.
  - apply Hv.
  - unfold bind, try. rewrite Hv. reflexivity.
Qed.

(** The loop over the entries of the source directory. *)
Lemma walk_entries_top es :
  forall w r w',
    forallb (fun e : string * node =>
               let (name, child) := e in
               plain name && slashfree name && names_ok child) es = true ->
    walk_entries (walk visit) srcDir es w = (r, w') ->
    lookup q (fs w) = None -> lookup q (fs w') = None.
Proof.
  induction es as [|[name child] es IH]; intros w r w' Hok Hrun Hq.
  - injection Hrun as _ <-. exact Hq.
  - cbn [forallb] in Hok. apply andb_true_iff in Hok as [Hname Hok].
    apply andb_true_iff in Hname as [Hname Hchild].
    apply andb_true_iff in Hname as [Hnp Hns].
    cbn [walk_entries] in Hrun. unfold bind, try in Hrun.
    rewrite path_of_child in Hrun by assumption.
    destruct (skipped name) eqn:Eskip.
    + rewrite walk_skipped in Hrun by assumption.
      destruct (negb (is_dir child) || negb (is_SkipDir SkipDir)).
      * injection Hrun as _ <-. exact Hq.
      * eapply IH; eassumption.
    + assert (Hstep : forall x w2,
                 walk visit (path_of [name]) child w = (x, w2) ->
                 lookup q (fs w2) = None).
      { intros x w2 Hw. eapply (walk_below child [name]); try eassumption.
        - discriminate.
        - cbn. rewrite Hnp. reflexivity.
        - cbn. rewrite Hns. reflexivity.
        - intros k rest [= <- _]. exact Eskip. }
      destruct (walk visit (path_of [name]) child w) as [[[]|e|msg|c] w2] eqn:Ew;
        pose proof (Hstep _ _ eq_refl) as Hq2;
        try (injection Hrun as _ <-; exact Hq2).
      * eapply IH; eassumption.
      * destruct (negb (is_dir child) || negb (is_SkipDir e)).
        -- injection Hrun as _ <-. exact Hq2.
        -- eapply IH; eassumption.
Qed.

(** The whole walk of [copyDirectory]. *)
Lemma Walk_untouched w r w' :
  names_ok (fs w) = true ->
  Walk visit srcDir w = (r, w') ->
  lookup q (fs w) = None -> lookup q (fs w') = None.
Proof.
  intros Hok. unfold Walk.
  destruct (lookup (resolve srcDir) (fs w)) as [n|] eqn:El.
  - pose proof (lookup_names_ok _ _ _ Hok El) as Hn.
    assert (Hwalk : forall x w2, walk visit srcDir n w = (x, w2) ->
                      lookup q (fs w) = None -> lookup q (fs w2) = None).
    { intros x w2 Hw Hq. destruct n as [perm content|target|perm es];
        cbn [walk] in Hw.
      - eapply visit_root; eassumption.
      - eapply visit_root; eassumption.
      - unfold bind, try in Hw.
        destruct (visit srcDir _ None w) as [[[]|e|msg|c] w1] eqn:Ev;
          pose proof (visit_root _ _ _ _ Ev Hq) as Hq1;
          try (injection Hw as _ <-; exact Hq1).
        eapply walk_entries_top; eassumption. }
    destruct (walk visit srcDir n w) as [[[]|e|msg|c] w2] eqn:Ew;
      intros Hrun Hq; pose proof (Hwalk _ _ eq_refl Hq) as Hq2;
      try (injection Hrun as _ <-; exact Hq2).
    destruct (is_SkipDir e); injection Hrun as _ <-; exact Hq2.
  - cbn [copyDirectory_visit]. unfold fail.
    cbn [is_SkipDir]. intros [= _ <-] Hq. exact Hq.
Qed.

End Staging.


Lemma os_Mkdir_inv name perm w r w' :
  os_Mkdir name perm w = (r, w') ->
  (exists e, r = Err e /\ w' = w) \/
  (r = Ok tt /\ exists f, w' = set_fs w f /\
     put (resolve name) (Dir (Z.land perm ModePerm) []) (fs w) = Some f).
Proof.
  unfold os_Mkdir. destruct (lookup _ _); [intros [= <- <-]; left; eauto|].
  destruct (put _ _ _) as [f|] eqn:Ep; intros [= <- <-]; [right|left]; eauto.
Qed.

(** [TempDir] returns a new, empty directory. *)
Lemma TempDir_try_new dir prefix names w name w' :
  names_ok (fs w) = true ->
  TempDir_try dir prefix names w = (Ok name, w') ->
  names_ok (fs w') = true /\
  exists perm, lookup (resolve name) (fs w') = Some (Dir perm []).
Proof.
  intros Hok. induction names as [|r rest IH]; cbn [TempDir_try]; [discriminate|].
  generalize (Filepath.Join [dir; (prefix ++ r)%string]). intros nm.
  destruct (os_Mkdir nm 448 w) as [res w1] eqn:Emk.
  destruct (os_Mkdir_inv _ _ _ _ _ Emk) as [(e & -> & ->)|(-> & f & -> & Hput)].
  - destruct e as [op path [] | | |]; try discriminate. exact IH.
  - intros [= <- <-]. unfold set_tmpnames, set_fs. cbn [fs]. split.
    + eapply put_names_ok; [apply resolve_plain|apply resolve_slashfree| |exact Hok|exact Hput].
      reflexivity.
    + rewrite (lookup_put_same _ _ _ _ Hput). eauto.
Qed.


Lemma slashfree_app_sep x y : slashfree (x ++ String Filepath.Separator y) = false.
Proof.
  induction x as [|a x IH]; simpl; [reflexivity|].
  rewrite IH. apply andb_false_r.
Qed.

(** Below the top level the visiting function skips nothing: the relative
    path has a separator, and [.git] and [tests] have none. *)
Lemma visit_deeper srcDir destDir names info :
  (2 <= length names)%nat ->
  forallb plain names = true -> forallb slashfree names = true ->
  copyDirectory_visit srcDir destDir (walk_path srcDir names) (Some info) None
  = copy_entry srcDir destDir (String.concat "/" names) info.
Proof.
  intros Hlen Hp Hs.
  destruct names as [|n1 [|n2 rest]]; try (simpl in Hlen; lia).
  rewrite copyDirectory_visit_entry. unfold walk_path.
  rewrite Rel_below by (assumption || discriminate).
  change (String.concat "/" (n1 :: n2 :: rest))
    with (n1 ++ String Filepath.Separator (String.concat "/" (n2 :: rest)))%string.
  set (tail := String.concat "/" (n2 :: rest)).
  assert (Hne : forall name, slashfree name = true ->
             ((n1 ++ String Filepath.Separator tail)%string =? name)%string = false).
  { intros name Hname. apply String.eqb_neq. intros E.
    rewrite <- E, slashfree_app_sep in Hname. discriminate. }
  rewrite (Hne ".git" eq_refl), (Hne "tests" eq_refl). reflexivity.
Qed.

End StageFacts.

Module StackFacts.

Lemma assoc_del_same {A} k (l : list (string * A)) : assoc k (assoc_del k l) = None.
Proof.
  induction l as [|[k' v] l IH]; simpl; [reflexivity|].
  destruct (k' =? k)%string eqn:E; simpl; [exact IH|].
  rewrite E. exact IH.
Qed.

Lemma assoc_del_other {A} k k' (l : list (string * A)) :
  k' <> k -> assoc k' (assoc_del k l) = assoc k' l.
Proof.
  intros Hne. induction l as [|[k0 v] l IH]; simpl; [reflexivity|].
  destruct (k0 =? k)%string eqn:E; simpl.
  - apply String.eqb_eq in E. subst k0.
    destruct (k =? k')%string eqn:E'; [|exact IH].
    apply String.eqb_eq in E'. congruence.
  - rewrite IH. reflexivity.
Qed.

Lemma assoc_set_same {A} k (v : A) l : assoc k (assoc_set k v l) = Some v.
Proof.
  induction l as [|[k' v'] l IH]; simpl.
  - now rewrite String.eqb_refl.
  - destruct (k' =? k)%string eqn:E; simpl.
    + now rewrite String.eqb_refl.
    + now rewrite E.
Qed.

Lemma assoc_set_other {A} k k' (v : A) l :
  k' <> k -> assoc k' (assoc_set k v l) = assoc k' l.
Proof.
  intros Hne. induction l as [|[k0 v0] l IH]; simpl.
  - destruct (k =? k')%string eqn:E; [|reflexivity].
    apply String.eqb_eq in E. congruence.
  - destruct (k0 =? k)%string eqn:E; simpl.
    + apply String.eqb_eq in E. subst k0.
      destruct (k =? k')%string eqn:E'; [|reflexivity].
      apply String.eqb_eq in E'. congruence.
    + now rewrite IH.
Qed.

Lemma hasStack_iff m stack :
  hasStack m stack = true <->
  exists e, In e (Libbuildpack.ManifestEntries m) /\
            In stack (Libbuildpack.CFStacks e).
Proof.
  unfold hasStack. rewrite existsb_exists. split.
  - intros [e [Hin He]]. exists e. split; [exact Hin|].
    apply existsb_exists in He. destruct He as [s [Hs E]].
    apply String.eqb_eq in E. now subst s.
  - intros [e [Hin Hs]]. exists e. split; [exact Hin|].
    apply existsb_exists. exists stack. split; [exact Hs|].
    apply String.eqb_refl.
Qed.

Lemma validateStack_defaults_all DefaultVersion m stack w2 ds :
  (forall p, In p ds ->
     exists v, DefaultVersion m (Libbuildpack.Name p) w2 = (Ok v, w2)) ->
  validateStack_defaults DefaultVersion m stack ds w2 = (Ok tt, w2).
Proof.
  induction ds as [|d ds IH]; intros Hall; [reflexivity|].
  destruct (Hall d (or_introl eq_refl)) as [v Hv].
  cbn [validateStack_defaults]. unfold bind at 1. unfold try. rewrite Hv.
  apply IH. intros p Hp. apply Hall. now right.
Qed.

Lemma validateStack_defaults_first DefaultVersion m stack w2 pre d post e :
  (forall p, In p pre ->
     exists v, DefaultVersion m (Libbuildpack.Name p) w2 = (Ok v, w2)) ->
  DefaultVersion m (Libbuildpack.Name d) w2 = (Err e, w2) ->
  validateStack_defaults DefaultVersion m stack (pre ++ d :: post) w2 =
  (Err (Errorf ("No matching default dependency `" ++ Libbuildpack.Name d
                ++ "` for stack `" ++ stack ++ "`")%string), w2).
Proof.
  induction pre as [|p pre IH]; intros Hall Hd.
  - cbn [app validateStack_defaults]. unfold bind at 1. unfold try.
    rewrite Hd. reflexivity.
  - destruct (Hall p (or_introl eq_refl)) as [v Hv].
    cbn [app validateStack_defaults]. unfold bind at 1. unfold try. rewrite Hv.
    apply IH; [|exact Hd]. intros p' Hp'. apply Hall. now right.
Qed.

(** With the stack found and accepted by [Setenv], what is left of
    [validateStack] is the loop over the default versions, under the
    deferred [Unsetenv]. *)
Lemma validateStack_found NewManifest DefaultVersion stack bpDir w m w1 :
  stack <> "" ->
  NewManifest bpDir w = (Ok m, w1) ->
  hasStack m stack = true ->
  has_byte Ascii.zero stack = false ->
  validateStack NewManifest DefaultVersion stack bpDir w =
  defer (os_Unsetenv "CF_STACK")
    (validateStack_defaults DefaultVersion m stack
       (Libbuildpack.DefaultVersions m))
    (set_env w1 (assoc_set "CF_STACK" stack (env w1))).
Proof.
  intros Hne Hm Hhas Hnul. unfold validateStack.
  destruct (stack =? "")%string eqn:E; [apply String.eqb_eq in E; contradiction|].
  unfold bind at 1. rewrite Hm. rewrite Hhas. cbn [negb].
  unfold bind at 1. unfold os_Setenv. rewrite Hnul. reflexivity.
Qed.

(** A stack that [Setenv] refuses: the error is returned before the
    [Unsetenv] is deferred, and the environment is not touched. *)
Lemma validateStack_refused NewManifest DefaultVersion stack bpDir w m w1 :
  stack <> "" ->
  NewManifest bpDir w = (Ok m, w1) ->
  hasStack m stack = true ->
  has_byte Ascii.zero stack = true ->
  validateStack NewManifest DefaultVersion stack bpDir w =
  (Err (ErrOther "setenv: invalid argument"), w1).
Proof.
  intros Hne Hm Hhas Hnul. unfold validateStack.
  destruct (stack =? "")%string eqn:E; [apply String.eqb_eq in E; contradiction|].
  unfold bind at 1. rewrite Hm. rewrite Hhas. cbn [negb].
  unfold bind at 1. unfold os_Setenv. rewrite Hnul. reflexivity.
Qed.

Lemma ymap_get_set_same k v pairs : ymap_get k (ymap_set k v pairs) = Some v.
Proof.
  induction pairs as [|[k' v'] rest IH]; simpl.
  - now rewrite String.eqb_refl.
  - destruct (is_key k k') eqn:E; simpl; rewrite E; [reflexivity|exact IH].
Qed.

Lemma ymap_get_set_other k k' v pairs :
  k' <> k -> ymap_get k' (ymap_set k v pairs) = ymap_get k' pairs.
Proof.
  intros Hne. induction pairs as [|[k0 v0] rest IH]; simpl.
  - destruct (k =? k')%string eqn:E; [|reflexivity].
    apply String.eqb_eq in E. congruence.
  - destruct (is_key k k0) eqn:E; simpl.
    + destruct (is_key k' k0) eqn:E'; [|reflexivity].
      destruct k0; simpl in E, E'; try discriminate.
      apply String.eqb_eq in E, E'. congruence.
    + now rewrite IH.
Qed.

Lemma ymap_set_length k v pairs :
  length (ymap_set k v pairs) =
  match ymap_get k pairs with
  | Some _ => length pairs
  | None => S (length pairs)
  end.
Proof.
  induction pairs as [|[k0 v0] rest IH]; simpl; [reflexivity|].
  destruct (is_key k k0); simpl; [reflexivity|].
  rewrite IH. now destruct (ymap_get k rest).
Qed.

Lemma ymap_set_twice k v v' pairs :
  ymap_set k v (ymap_set k v' pairs) = ymap_set k v pairs.
Proof.
  induction pairs as [|[k0 v0] rest IH]; simpl.
  - now rewrite String.eqb_refl.
  - destruct (is_key k k0) eqn:E; simpl; rewrite E; [reflexivity|].
    now rewrite IH.
Qed.

End StackFacts.

(** * What a write leaves as it was *)

Module KeepFacts.
Import FsFacts FetchFacts DownloadFacts CleanFacts MkdirFacts StageFacts.

Lemma is_prefix_split p q : is_prefix p q = true -> exists s, q = p ++ s.
Proof.
  revert q. induction p as [|a p IH]; intros q; simpl.
  - intros _. exists q. reflexivity.
  - destruct q as [|b q]; [discriminate|].
    intros H. apply andb_true_iff in H. destruct H as [E H].
    apply String.eqb_eq in E. subst b.
    destruct (IH _ H) as [s ->]. exists s. reflexivity.
Qed.

Lemma diverge_false p q :
  diverge p q = false -> is_prefix p q = true \/ is_prefix q p = true.
Proof.
  revert q. induction p as [|a p IH]; intros q; simpl; [auto|].
  destruct q as [|b q]; [auto|].
  destruct (a =? b)%string eqn:E; [|discriminate].
  apply String.eqb_eq in E. subst b. intros H.
  cbn [is_prefix]. rewrite String.eqb_refl. cbn [andb]. apply IH, H.
Qed.

Lemma diverge_sym p q : diverge p q = diverge q p.
Proof.
  revert q. induction p as [|a p IH]; intros [|b q]; simpl; try reflexivity.
  rewrite (String.eqb_sym b a). destruct (a =? b)%string; auto.
Qed.

Lemma diverge_app_r p q s : diverge p q = true -> diverge p (q ++ s) = true.
Proof.
  revert q. induction p as [|a p IH]; intros [|b q]; simpl; try discriminate.
  destruct (a =? b)%string; auto.
Qed.

Lemma diverge_app_l p q s : diverge p q = true -> diverge (p ++ s) q = true.
Proof.
  intros H. rewrite diverge_sym. apply diverge_app_r. now rewrite diverge_sym.
Qed.

Lemma diverge_not_prefix p q : diverge p q = true -> is_prefix q p = false.
Proof.
  revert q. induction p as [|a p IH]; intros [|b q]; simpl; try discriminate.
  rewrite (String.eqb_sym b a).
  destruct (a =? b)%string; [cbn [andb]; apply IH | reflexivity].
Qed.

(** [MkdirAll] keeps every node that is no directory. *)
Lemma mkdirAll_lookup_leaf perm p q n n' x :
  mkdirAll perm p n = Some n' -> lookup q n = Some x -> is_dir x = false ->
  lookup q n' = Some x.
Proof.
  revert q n n'. induction p as [|d p IH]; intros q n n' Hm Hl Hx.
  - apply mkdirAll_nil in Hm. subst. assumption.
  - destruct n; try discriminate. cbn [mkdirAll] in Hm.
    destruct (mkdirAll perm p _) eqn:Em; try discriminate.
    injection Hm as <-.
    destruct q as [|e q].
    { injection Hl as <-. discriminate. }
    cbn [lookup] in *.
    destruct (String.eqb_spec d e) as [->|Hne].
    + rewrite find_es_put_same.
      destruct (find e entries) eqn:Ef; [|discriminate].
      apply (IH _ _ _ Em Hl Hx).
    + rewrite find_es_put_other by assumption. assumption.
Qed.


Lemma lookup_put_total p new n x :
  lookup p n = Some x -> exists n', put p new n = Some n'.
Proof.
  revert n. induction p as [|c p IH]; intros n; simpl; [eauto|].
  destruct n; try discriminate.
  destruct (find c entries) as [child|] eqn:Ef; [|discriminate].
  intros Hl. destruct p as [|c' p']; [eauto|].
  destruct (IH _ Hl) as [child' ->]. eauto.
Qed.

(** A node that is no directory stays when something is put at a path
    that does not lead through it. *)
Lemma put_lookup_leaf p q new n n' x :
  put p new n = Some n' -> lookup q n = Some x -> is_dir x = false ->
  is_prefix p q = false -> lookup q n' = Some x.
Proof.
  revert q n n'. induction p as [|c p IH]; intros q n n' Hp Hl Hx Hpq;
    [discriminate|].
  destruct n; try discriminate.
  destruct q as [|e q].
  { injection Hl as <-. discriminate. }
  cbn [is_prefix] in Hpq. cbn [lookup] in Hl.
  destruct (String.eqb_spec c e) as [->|Hne].
  - cbn [andb] in Hpq. cbn [put] in Hp.
    destruct p as [|c' p']; [discriminate|].
    destruct (find e entries) as [child|] eqn:Ef; [|discriminate].
    destruct (put (c' :: p') new child) as [child'|] eqn:Ep; [|discriminate].
    injection Hp as <-. cbn [lookup]. rewrite find_es_put_same.
    apply (IH _ _ _ Ep Hl Hx Hpq).
  - assert (exists child, n' = Dir perm (es_put c child entries)) as [child ->].
    { cbn [put] in Hp. destruct p as [|c' p'].
      - injection Hp as <-. eauto.
      - destruct (find c entries); try discriminate.
        destruct (put (c' :: p') new n); try discriminate.
        injection Hp as <-. eauto. }
    cbn [lookup]. rewrite find_es_put_other by assumption. assumption.
Qed.


(** Putting something where no directory was keeps every other node that
    is no directory. *)
Lemma put_keeps_leaf p q new n n' x :
  put p new n = Some n' ->
  (forall m es, lookup p n <> Some (Dir m es)) ->
  lookup q n = Some x -> is_dir x = false -> q <> p ->
  lookup q n' = Some x.
Proof.
  intros Hp Hnd Hl Hx Hne.
  apply (put_lookup_leaf p q new n n' x Hp Hl Hx).
  destruct (is_prefix p q) eqn:E; [|reflexivity].
  exfalso. destruct (is_prefix_split _ _ E) as [s ->].
  assert (Hs : s <> []).
  { intros ->. apply Hne. now rewrite app_nil_r. }
  destruct (lookup_below_is_dir _ _ _ _ Hl Hs) as (m & es & Hd).
  exact (Hnd _ _ Hd).
Qed.


(** Putting something where no directory was keeps every directory. *)
Lemma put_dirs_stay p new n n' :
  put p new n = Some n' ->
  (forall m es, lookup p n <> Some (Dir m es)) ->
  dirs_stay n n'.
Proof.
  revert n n'. induction p as [|c p IH]; intros n n' Hp Hnd q m es Hl.
  - exfalso. destruct n as [a b|t|m0 es0].
    + destruct q; discriminate.
    + destruct q; discriminate.
    + exact (Hnd _ _ eq_refl).
  - destruct n as [| |m0 es0]; try discriminate.
    assert (Hshape : exists child, n' = Dir m0 (es_put c child es0)).
    { cbn [put] in Hp. destruct p as [|c' p'].
      - injection Hp as <-. eauto.
      - destruct (find c es0); try discriminate.
        destruct (put (c' :: p') new n); try discriminate.
        injection Hp as <-. eauto. }
    destruct q as [|e q].
    { injection Hl as <- <-. destruct Hshape as [child ->]. simpl. eauto. }
    cbn [lookup] in Hl.
    destruct (find e es0) as [che|] eqn:Efe; [|discriminate].
    destruct (String.eqb_spec c e) as [->|Hne].
    + cbn [put] in Hp. destruct p as [|c' p'].
      * exfalso. apply (Hnd m es). cbn [lookup]. rewrite Efe.
        destruct q as [|e' q']; [exact Hl|].
        destruct che; try discriminate.
        cbn [lookup] in Hl. exfalso.
        specialize (Hnd perm entries). cbn [lookup] in Hnd. rewrite Efe in Hnd.
        congruence.
      * rewrite Efe in Hp.
        destruct (put (c' :: p') new che) as [che'|] eqn:Ep; [|discriminate].
        injection Hp as <-. cbn [lookup]. rewrite find_es_put_same.
        refine (IH _ _ Ep _ q m es Hl).
        intros m1 es1 H. apply (Hnd m1 es1). cbn [lookup]. rewrite Efe. exact H.
    + destruct Hshape as [child ->]. cbn [lookup].
      rewrite find_es_put_other by assumption. rewrite Efe. eauto.
Qed.

Lemma dirs_stay_refl n : dirs_stay n n.
Proof. intros q m es H. eauto. Qed.

Lemma dirs_stay_trans n1 n2 n3 :
  dirs_stay n1 n2 -> dirs_stay n2 n3 -> dirs_stay n1 n3.
Proof.
  intros H12 H23 q m es H. destruct (H12 _ _ _ H) as [es' H'].
  exact (H23 _ _ _ H').
Qed.

(** The walk of [MkdirAll] keeps every node that is no directory, and
    every directory. *)
Lemma mkdir_walk_keeps perm comps cur made n q x :
  lookup q n = Some x -> is_dir x = false ->
  lookup q (fst (mkdir_walk perm cur comps made n)) = Some x.
Proof.
  revert cur made n. induction comps as [|c comps IH]; intros cur made n Hl Hx;
    [exact Hl|].
  cbn [mkdir_walk].
  destruct ((c =? "") || (c =? "."))%string; [apply IH; assumption|].
  destruct (c =? "..")%string; [apply IH; assumption|].
  destruct (lookup (cur ++ [c]) n) as [[a b|t|m es]|] eqn:E;
    try exact Hl; [apply IH; assumption|].
  destruct (put _ _ _) as [n'|] eqn:Ep; [|exact Hl].
  apply IH; [|exact Hx].
  apply (put_keeps_leaf _ _ _ _ _ _ Ep); try assumption; congruence.
Qed.

Lemma mkdir_walk_dirs perm comps cur made n :
  dirs_stay n (fst (mkdir_walk perm cur comps made n)).
Proof.
  revert cur made n. induction comps as [|c comps IH]; intros cur made n;
    [apply dirs_stay_refl|].
  cbn [mkdir_walk].
  destruct ((c =? "") || (c =? "."))%string; [apply IH|].
  destruct (c =? "..")%string; [apply IH|].
  destruct (lookup (cur ++ [c]) n) as [[a b|t|m es]|] eqn:E;
    try apply dirs_stay_refl; [apply IH|].
  destruct (put _ _ _) as [n'|] eqn:Ep; [|apply dirs_stay_refl].
  eapply dirs_stay_trans; [|apply IH].
  apply (put_dirs_stay _ _ _ _ Ep). congruence.
Qed.

(** Where the walk came to its end, every directory of the path is in
    place; it stays so while the directories stay, and the walk then
    changes nothing. *)
Lemma mkdir_walk_walks perm comps cur made n f :
  mkdir_walk perm cur comps made n = (f, None) -> walks cur comps f = true.
Proof.
  revert cur made n. induction comps as [|c comps IH]; intros cur made n;
    [reflexivity|].
  cbn [mkdir_walk walks].
  destruct ((c =? "") || (c =? "."))%string; [apply IH|].
  destruct (c =? "..")%string; [apply IH|].
  destruct (lookup (cur ++ [c]) n) as [[a b|t|m es]|] eqn:E; try discriminate.
  - intros Hw.
    pose proof (mkdir_walk_dirs perm comps (cur ++ [c]) made n _ _ _ E) as [es' Hd].
    rewrite Hw in Hd. cbn [fst] in Hd. rewrite Hd. exact (IH _ _ _ Hw).
  - destruct (put _ _ _) as [n'|] eqn:Ep; [|discriminate]. intros Hw.
    pose proof (mkdir_walk_dirs perm comps (cur ++ [c]) true n' _ _ _
                  (lookup_put_same _ _ _ _ Ep)) as [es' Hd].
    rewrite Hw in Hd. cbn [fst] in Hd. rewrite Hd. exact (IH _ _ _ Hw).
Qed.

Lemma walks_stay comps cur n n' :
  dirs_stay n n' -> walks cur comps n = true -> walks cur comps n' = true.
Proof.
  intros Hst. revert cur. induction comps as [|c comps IH]; intros cur;
    [reflexivity|].
  cbn [walks].
  destruct ((c =? "") || (c =? "."))%string; [apply IH|].
  destruct (c =? "..")%string; [apply IH|].
  destruct (lookup (cur ++ [c]) n) as [[a b|t|m es]|] eqn:E; try discriminate.
  destruct (Hst _ _ _ E) as [es' ->]. apply IH.
Qed.

Lemma walks_mkdir_walk perm comps cur made n :
  walks cur comps n = true -> mkdir_walk perm cur comps made n = (n, None).
Proof.
  revert cur. induction comps as [|c comps IH]; intros cur; [reflexivity|].
  cbn [walks mkdir_walk].
  destruct ((c =? "") || (c =? "."))%string; [apply IH|].
  destruct (c =? "..")%string; [apply IH|].
  destruct (lookup (cur ++ [c]) n) as [[a b|t|m es]|]; try discriminate.
  apply IH.
Qed.

Lemma os_MkdirAll_dirs path perm w r w' :
  os_MkdirAll path perm w = (r, w') -> dirs_stay (fs w) (fs w').
Proof.
  unfold os_MkdirAll.
  destruct (path =? "")%string; [intros [= _ <-]; apply dirs_stay_refl|].
  destruct (fs w) as [a b|t|m es] eqn:Efs;
    try (intros [= _ <-]; rewrite Efs; apply dirs_stay_refl).
  cbv zeta.
  pose proof (mkdir_walk_dirs (Z.land perm ModePerm) (Filepath.split path) []
                false (Dir m es)) as H.
  destruct (mkdir_walk _ _ _ _ _) as [f [[rest made]|]]; intros [= _ <-];
    exact H.
Qed.

(** A directory that [os.MkdirAll] has made or found is found again, and
    nothing is changed, as long as the directories stay. *)
Lemma os_MkdirAll_again path perm perm' w w0 w1 :
  os_MkdirAll path perm w = (Ok tt, w0) ->
  dirs_stay (fs w0) (fs w1) ->
  os_MkdirAll path perm' w1 = (Ok tt, w1).
Proof.
  unfold os_MkdirAll.
  destruct (path =? "")%string; [discriminate|].
  destruct (fs w) as [a b|t|m es] eqn:Efs; try discriminate.
  cbv zeta.
  pose proof (mkdir_walk_dirs (Z.land perm ModePerm) (Filepath.split path) []
                false (Dir m es)) as Hd.
  destruct (mkdir_walk _ _ _ _ _) as [f [[rest made]|]] eqn:Ew; [discriminate|].
  intros [= <-] Hst. cbn [fst set_fs fs] in *.
  destruct (Hd [] m es eq_refl) as [es0 Hf]. injection Hf as ->.
  destruct (Hst [] m es0 eq_refl) as [es1 Hf1]. cbn [lookup] in Hf1.
  injection Hf1 as Hf1. rewrite Hf1.
  rewrite (walks_mkdir_walk _ _ _ false (Dir m es1)).
  - rewrite <- Hf1. rewrite set_fs_id. reflexivity.
  - rewrite <- Hf1. eapply walks_stay; [exact Hst|].
    eapply mkdir_walk_walks, Ew.
Qed.

Section Keeps.

Variable q : list string.
Variable x : node.
Hypothesis Hx : is_dir x = false.

Lemma os_MkdirAll_keeps path perm w r w' :
  os_MkdirAll path perm w = (r, w') ->
  lookup q (fs w) = Some x -> lookup q (fs w') = Some x.
Proof.
  unfold os_MkdirAll. intros Hrun Hl.
  destruct (path =? "")%string; [injection Hrun as _ <-; exact Hl|].
  destruct (fs w) as [a b|t|m es] eqn:Efs;
    try (injection Hrun as _ <-; rewrite Efs; exact Hl).
  cbv zeta in Hrun.
  pose proof (mkdir_walk_keeps (Z.land perm ModePerm) (Filepath.split path) []
                false (Dir m es) q x Hl Hx) as H.
  destruct (mkdir_walk _ _ _ _ _) as [f [[rest made]|]]; injection Hrun as _ <-;
    exact H.
Qed.

Lemma os_OpenFile_keeps name perm w r w' :
  os_OpenFile_create_trunc name perm w = (r, w') ->
  q <> resolve name ->
  lookup q (fs w) = Some x -> lookup q (fs w') = Some x.
Proof.
  unfold os_OpenFile_create_trunc. intros Hrun Hne Hl.
  destruct (lookup (resolve name) (fs w)) as [[old c|t|m es]|] eqn:E.
  - destruct (put _ _ _) as [f|] eqn:Ep; injection Hrun as _ <-; [|exact Hl].
    apply (put_keeps_leaf _ _ _ _ _ _ Ep); auto. intros; congruence.
  - injection Hrun as _ <-. exact Hl.
  - injection Hrun as _ <-. exact Hl.
  - destruct (put _ _ _) as [f|] eqn:Ep; injection Hrun as _ <-; [|exact Hl].
    apply (put_keeps_leaf _ _ _ _ _ _ Ep); auto. intros; congruence.
Qed.

Lemma file_Write_keeps h data w r w' :
  file_Write h data w = (r, w') ->
  q <> h ->
  lookup q (fs w) = Some x -> lookup q (fs w') = Some x.
Proof.
  unfold file_Write. intros Hrun Hne Hl.
  destruct (lookup h (fs w)) as [[perm c|t|m es]|] eqn:E;
    try (injection Hrun as _ <-; exact Hl).
  destruct (put _ _ _) as [f|] eqn:Ep; injection Hrun as _ <-; [|exact Hl].
  apply (put_keeps_leaf _ _ _ _ _ _ Ep); auto. intros; congruence.
Qed.

Lemma os_Symlink_keeps oldname newname w r w' :
  os_Symlink oldname newname w = (r, w') ->
  lookup q (fs w) = Some x -> lookup q (fs w') = Some x.
Proof.
  unfold os_Symlink. intros Hrun Hl.
  destruct (lookup (resolve newname) (fs w)) eqn:E;
    [injection Hrun as _ <-; exact Hl|].
  destruct (put _ _ _) as [f|] eqn:Ep; injection Hrun as _ <-; [|exact Hl].
  apply (put_keeps_leaf _ _ _ _ _ _ Ep); auto; intros; congruence.
Qed.

Lemma os_Mkdir_keeps name perm w r w' :
  os_Mkdir name perm w = (r, w') ->
  lookup q (fs w) = Some x -> lookup q (fs w') = Some x.
Proof.
  unfold os_Mkdir. intros Hrun Hl.
  destruct (lookup (resolve name) (fs w)) eqn:E;
    [injection Hrun as _ <-; exact Hl|].
  destruct (put _ _ _) as [f|] eqn:Ep; injection Hrun as _ <-; [|exact Hl].
  apply (put_keeps_leaf _ _ _ _ _ _ Ep); auto; intros; congruence.
Qed.

Lemma io_Copy_keeps h src w r w' :
  io_Copy h src w = (r, w') ->
  q <> h ->
  lookup q (fs w) = Some x -> lookup q (fs w') = Some x.
Proof.
  intros Hrun Hne Hl. destruct src as [s|resp]; cbn [io_Copy] in Hrun.
  - unfold bind in Hrun.
    destruct (file_ReadAll s w) as [r0 w0] eqn:Hr.
    pose proof (file_ReadAll_inv _ _ _ _ Hr) as ->.
    destruct r0; try (injection Hrun as _ <-; exact Hl).
    exact (file_Write_keeps _ _ _ _ _ Hrun Hne Hl).
  - unfold bind in Hrun.
    destruct (file_Write h (Body resp) w) as [r0 w0] eqn:Hw.
    pose proof (file_Write_keeps _ _ _ _ _ Hw Hne Hl) as Hl0.
    destruct r0; try (injection Hrun as _ <-; exact Hl0).
    destruct (body_fails resp); injection Hrun as _ <-; exact Hl0.
Qed.

End Keeps.

(** Writing to a regular file that is open: the write succeeds. *)
Lemma file_Write_reg h data w perm c :
  lookup h (fs w) = Some (Reg perm c) ->
  exists f, file_Write h data w = (Ok tt, set_fs w f) /\
            lookup h f = Some (Reg perm (c ++ data)) /\
            put h (Reg perm (c ++ data)) (fs w) = Some f.
Proof.
  intros Hl. unfold file_Write. rewrite Hl.
  destruct (lookup_put_total h (Reg perm (c ++ data)) _ _ Hl) as [f Hp].
  exists f. rewrite Hp. split; [reflexivity|]. split; [|reflexivity].
  eapply lookup_put_same, Hp.
Qed.

Lemma status_2xx code :
  200 <= code <= 299 -> (code <? 200) || (code >? 299) = false.
Proof.
  intros [H1 H2]. apply orb_false_iff. split.
  - now apply Z.ltb_ge.
  - rewrite Z.gtb_ltb. now apply Z.ltb_ge.
Qed.

End KeepFacts.

(** * What a fetch leaves untouched *)

Module ConfineFacts.
Import FsFacts PathFacts CacheFacts Normal FetchFacts LoopFacts DownloadFacts.
Import CleanFacts MkdirFacts StageFacts KeepFacts.




Section Frame.

Variable q : list string.







End Frame.


(** A download keeps every file and link that is not its destination. *)
Lemma downloadFromURI_keeps url_Parse uri fileName w r w' q x :
  is_dir x = false ->
  downloadFromURI url_Parse uri fileName w = (r, w') ->
  q <> resolve fileName ->
  lookup q (fs w) = Some x -> lookup q (fs w') = Some x.
Proof.
  intros Hx. rewrite downloadFromURI_stages. unfold bind. intros Hrun Hne Hl.
  destruct (os_MkdirAll (Filepath.Dir fileName) 493 w) as [r0 w0] eqn:Emk.
  pose proof (os_MkdirAll_keeps q x Hx _ _ _ _ _ Emk Hl) as H0.
  destruct r0; try (injection Hrun as _ <-; exact H0).
  destruct (os_Create fileName w0) as [r1 w1] eqn:Ecr.
  pose proof (os_OpenFile_keeps q x Hx _ _ _ _ _ Ecr Hne H0) as H1.
  destruct (os_Create_inv _ _ _ _ Ecr) as [(e & -> & ->)|(-> & f1 & perm & -> & _)].
  { injection Hrun as _ <-. exact H0. }
  revert Hrun. unfold download_rest, bind.
  destruct (url_Parse uri) as [u|e]; cbn [lift]; unfold ret, fail.
  2:{ intros [= _ <-]. exact H1. }
  destruct (Scheme u =? "file")%string.
  - unfold ghost_transfer.
    destruct (os_Open (UrlPath u) (add_transfer (set_fs w0 f1) uri))
      as [r2 w2] eqn:Eo.
    pose proof (os_Open_inv _ _ _ _ Eo) as ->.
    destruct r2; try (intros [= _ <-]; exact H1).
    intros Hc. exact (io_Copy_keeps q x Hx _ _ _ _ _ Hc Hne H1).
  - unfold http_Get. destruct (assoc uri (net (set_fs w0 f1))) as [resp|].
    + destruct ((StatusCode resp <? 200) || (StatusCode resp >? 299)).
      * intros [= _ <-]. exact H1.
      * intros Hc. exact (io_Copy_keeps q x Hx _ _ _ _ _ Hc Hne H1).
    + intros [= _ <-]. exact H1.
Qed.

(** A fetch never changes a regular file that is there: not the one at
    its own cache path, which it takes as cached, and no other. *)
Lemma downloadDependency_keeps_files url_Parse d cacheDir w r w' q a c :
  downloadDependency url_Parse d cacheDir w = (r, w') ->
  lookup q (fs w) = Some (Reg a c) -> lookup q (fs w') = Some (Reg a c).
Proof.
  intros Hrun Hl.
  assert (Hmk : forall r0 w0, os_MkdirAll cacheDir 493 w = (r0, w0) ->
                  lookup q (fs w0) = Some (Reg a c)).
  { intros r0 w0 H. exact (os_MkdirAll_keeps q (Reg a c) eq_refl _ _ _ _ _ H Hl). }
  assert (Hdl : forall w0 err r1 w1,
             lookup q (fs w0) = Some (Reg a c) ->
             os_Stat (Filepath.Join [cacheDir; cacheFile d]) w0 = (Err err, w0) ->
             downloadFromURI url_Parse (URI d)
               (Filepath.Join [cacheDir; cacheFile d]) w0 = (r1, w1) ->
             lookup q (fs w1) = Some (Reg a c)).
  { intros w0 err r1 w1 H0 Hst Hd.
    apply (downloadFromURI_keeps _ _ _ _ _ _ q (Reg a c) eq_refl Hd); [|exact H0].
    intros ->. unfold os_Stat in Hst. rewrite H0 in Hst. discriminate. }
  apply downloadDependency_inv in Hrun. cbv zeta in Hrun.
  destruct Hrun as [(err & H0 & ->)
                   |[(w0 & w1 & H0 & Hfile & v & Hch & ->)
                    |(w0 & err & e' & H0 & Hst & Hd & ->)]].
  - exact (Hmk _ _ H0).
  - apply checkSha256_inv in Hch as [-> _].
    destruct Hfile as [(fi & _ & ->)|(err & Hst & Hd)]; [exact (Hmk _ _ H0)|].
    exact (Hdl _ _ _ _ (Hmk _ _ H0) Hst Hd).
  - exact (Hdl _ _ _ _ (Hmk _ _ H0) Hst Hd).
Qed.

(** A fetch that returns a [File] has found, at the cache path, a regular
    file with the declared digest. *)
Lemma downloadDependency_verified url_Parse d cacheDir w f w' :
  downloadDependency url_Parse d cacheDir w = (Ok f, w') ->
  exists perm content,
    lookup (resolve (Filepath.Join [cacheDir; cacheFile d])) (fs w')
      = Some (Reg perm content) /\
    Bytes.hex_EncodeToString (Sha256.Sum256 content) = SHA256 d.
Proof.
  intros Hrun. apply downloadDependency_inv in Hrun. cbv zeta in Hrun.
  destruct Hrun as [(err & _ & Hr)
                   |[(w0 & w1 & _ & _ & v & Hch & Hr)
                    |(w0 & err & e' & _ & _ & _ & Hr)]]; try discriminate.
  destruct (checkSha256_inv _ _ _ _ _ Hch) as [Heq Hcases]. subst w1.
  destruct Hcases as [(perm & content & Hl & ->)|(_ & e & ->)];
    [|discriminate].
  exists perm, content. split; [exact Hl|].
  unfold verdict in Hr.
  destruct (_ =? _)%string eqn:E in Hr; [|discriminate].
  now apply String.eqb_eq.
Qed.

(** The loop of [Package] in cached mode, when it comes to its end. *)
Lemma Package_dependencies_verified url_Parse cacheDir stack deps ds :
  forall idx files dfs w files' out w',
    Package_dependencies url_Parse cacheDir stack true deps idx ds files dfs w
      = (Ok (files', out), w') ->
    files' = files ++ map (cached_file cacheDir) (filter (keeps stack) ds) /\
    length out = (length dfs + length (filter (keeps stack) ds))%nat /\
    (forall q a c, lookup q (fs w) = Some (Reg a c) ->
                   lookup q (fs w') = Some (Reg a c)) /\
    (forall d, In d (filter (keeps stack) ds) ->
       exists perm content,
         lookup (resolve (Path (cached_file cacheDir d))) (fs w')
           = Some (Reg perm content) /\
         Bytes.hex_EncodeToString (Sha256.Sum256 content) = SHA256 d).
Proof.
  induction ds as [|d ds IH]; intros idx files dfs w files' out w'.
  - cbn. intros [= <- <- <-]. rewrite app_nil_r, Nat.add_0_r.
    repeat split; auto. intros d [].
  - rewrite Package_dependencies_cons. cbn [filter].
    rewrite <- retained_keeps. unfold bind at 1.
    destruct (retained stack d) eqn:Hret.
    + unfold retain. destruct (nth_error deps idx) as [dm|]; [|discriminate].
      unfold bind at 1.
      destruct (downloadDependency url_Parse d cacheDir w) as [r0 w0] eqn:Hd.
      destruct r0 as [f| | |]; try discriminate.
      pose proof (downloadDependency_Ok _ _ _ _ _ _ Hd) as ->.
      cbn [ret fst snd]. intros Hrest.
      destruct (IH _ _ _ _ _ _ _ Hrest) as (Hf & Hlen & Hkeep & Hver).
      split; [rewrite Hf, <- app_assoc; reflexivity|].
      split; [rewrite Hlen, length_app; cbn; lia|].
      split.
      * intros q a c Hl. apply Hkeep.
        exact (downloadDependency_keeps_files _ _ _ _ _ _ _ _ _ Hd Hl).
      * intros d' [<-|Hin]; [|exact (Hver _ Hin)].
        destruct (downloadDependency_verified _ _ _ _ _ _ Hd)
          as (perm & content & Hl & Hdig).
        exists perm, content. split; [|exact Hdig].
        apply Hkeep. exact Hl.
    + cbn [ret fst snd]. intros Hrest. exact (IH _ _ _ _ _ _ _ Hrest).
Qed.

End ConfineFacts.


(** * A second fetch *)

Module AgainFacts.
Import FsFacts PathFacts CacheFacts Normal FetchFacts LoopFacts DownloadFacts.
Import CleanFacts MkdirFacts StageFacts KeepFacts.

Lemma os_OpenFile_dirs name perm w r w' :
  os_OpenFile_create_trunc name perm w = (r, w') -> dirs_stay (fs w) (fs w').
Proof.
  unfold os_OpenFile_create_trunc.
  destruct (lookup (resolve name) (fs w)) as [[old c|t|m es]|] eqn:E;
    try (intros [= _ <-]; apply dirs_stay_refl);
    (destruct (put _ _ _) as [f|] eqn:Ep; intros [= _ <-];
     [|apply dirs_stay_refl]);
    apply (put_dirs_stay _ _ _ _ Ep); congruence.
Qed.

Lemma file_Write_dirs h data w r w' :
  file_Write h data w = (r, w') -> dirs_stay (fs w) (fs w').
Proof.
  unfold file_Write.
  destruct (lookup h (fs w)) as [[perm c|t|m es]|] eqn:E;
    try (intros [= _ <-]; apply dirs_stay_refl).
  destruct (put _ _ _) as [f|] eqn:Ep; intros [= _ <-]; [|apply dirs_stay_refl].
  apply (put_dirs_stay _ _ _ _ Ep). congruence.
Qed.

Lemma io_Copy_dirs h src w r w' :
  io_Copy h src w = (r, w') -> dirs_stay (fs w) (fs w').
Proof.
  destruct src as [s|resp]; cbn [io_Copy]; unfold bind.
  - destruct (file_ReadAll s w) as [r0 w0] eqn:Hr.
    pose proof (file_ReadAll_inv _ _ _ _ Hr) as ->.
    destruct r0; try (intros [= _ <-]; apply dirs_stay_refl).
    apply file_Write_dirs.
  - destruct (file_Write h (Body resp) w) as [r0 w0] eqn:Hw.
    pose proof (file_Write_dirs _ _ _ _ _ Hw) as H0.
    destruct r0; try (intros [= _ <-]; exact H0).
    destruct (body_fails resp); intros [= _ <-]; exact H0.
Qed.

Lemma download_rest_dirs url_Parse uri output w r w' :
  download_rest url_Parse uri output w = (r, w') -> dirs_stay (fs w) (fs w').
Proof.
  unfold download_rest, bind.
  destruct (url_Parse uri) as [u|e]; cbn [lift]; unfold ret, fail.
  2:{ intros [= _ <-]. apply dirs_stay_refl. }
  destruct (Scheme u =? "file")%string.
  - unfold ghost_transfer.
    destruct (os_Open (UrlPath u) (add_transfer w uri)) as [r0 w0] eqn:Eo.
    pose proof (os_Open_inv _ _ _ _ Eo) as ->.
    destruct r0; try (intros [= _ <-]; apply dirs_stay_refl).
    intros Hc. exact (io_Copy_dirs _ _ _ _ _ Hc).
  - unfold http_Get. destruct (assoc uri (net w)) as [resp|].
    + destruct ((StatusCode resp <? 200) || (StatusCode resp >? 299)).
      * intros [= _ <-]. apply dirs_stay_refl.
      * intros Hc. exact (io_Copy_dirs _ _ _ _ _ Hc).
    + intros [= _ <-]. apply dirs_stay_refl.
Qed.

Lemma downloadFromURI_dirs url_Parse uri fileName w r w' :
  downloadFromURI url_Parse uri fileName w = (r, w') ->
  dirs_stay (fs w) (fs w').
Proof.
  rewrite downloadFromURI_stages. unfold bind.
  destruct (os_MkdirAll (Filepath.Dir fileName) 493 w) as [r0 w0] eqn:Emk.
  pose proof (os_MkdirAll_dirs _ _ _ _ _ Emk) as H0.
  destruct r0; try (intros [= _ <-]; exact H0).
  destruct (os_Create fileName w0) as [r1 w1] eqn:Ecr.
  pose proof (os_OpenFile_dirs _ _ _ _ _ Ecr) as H1.
  destruct r1; try (intros [= _ <-]; eapply dirs_stay_trans; eassumption).
  intros Hrest. pose proof (download_rest_dirs _ _ _ _ _ _ Hrest) as H2.
  eapply dirs_stay_trans; [exact H0|].
  eapply dirs_stay_trans; eassumption.
Qed.

(** A download that returns leaves a regular file at its destination. *)
Lemma downloadFromURI_Ok_file url_Parse uri fileName w w' :
  downloadFromURI url_Parse uri fileName w = (Ok tt, w') ->
  exists perm c, lookup (resolve fileName) (fs w') = Some (Reg perm c).
Proof.
  rewrite downloadFromURI_stages. unfold bind.
  destruct (os_MkdirAll (Filepath.Dir fileName) 493 w) as [[[]|e|msg|c] w0];
    try discriminate.
  destruct (os_Create fileName w0) as [r1 w1] eqn:Ecr.
  destruct (os_Create_inv _ _ _ _ Ecr)
    as [(e & -> & ->)|(-> & f1 & perm & -> & Hl)]; [discriminate|].
  intros Hrest.
  destruct (download_rest_file url_Parse uri (resolve fileName)
              (set_fs w0 f1) perm [] _ w' Hl Hrest)
    as [_ [[Hf _]|[Hf _]]]; exact Hf.
Qed.

(** With the cache directory in place and something at the cache path,
    [downloadDependency] touches nothing and answers what the checksum
    says. *)
Lemma downloadDependency_found url_Parse d cacheDir w fi v :
  let path := Filepath.Join [cacheDir; cacheFile d] in
  os_MkdirAll cacheDir 493 w = (Ok tt, w) ->
  os_Stat path w = (Ok fi, w) ->
  checkSha256 path (SHA256 d) w = (v, w) ->
  downloadDependency url_Parse d cacheDir w = (fetched d cacheDir v, w).
Proof.
  intros path Hmk Hst Hch.
  unfold downloadDependency, bind, try. fold path. rewrite Hmk.
  unfold ret. rewrite Hst, Hch.
  pose proof (normal_checkSha256 path (SHA256 d) w) as N. rewrite Hch in N.
  destruct v as [[]| | |]; try contradiction; reflexivity.
Qed.

(** A fetch that took the checksum leaves a world in which a second
    fetch changes nothing and answers the same. *)
Lemma downloadDependency_settled url_Parse d cacheDir w w0 wm v w1 :
  let path := Filepath.Join [cacheDir; cacheFile d] in
  os_MkdirAll cacheDir 493 w = (Ok tt, w0) ->
  reaches_checksum url_Parse d cacheDir w0 wm ->
  checkSha256 path (SHA256 d) wm = (v, w1) ->
  w1 = wm /\
  downloadDependency url_Parse d cacheDir w1 = (fetched d cacheDir v, w1).
Proof.
  intros path Hmk Hreach Hch.
  destruct (checkSha256_inv _ _ _ _ _ Hch) as [-> _]. split; [reflexivity|].
  assert (Hdirs : dirs_stay (fs w0) (fs wm)).
  { destruct Hreach as [[_ ->]|[_ Hdl]]; [apply dirs_stay_refl|].
    exact (downloadFromURI_dirs _ _ _ _ _ _ Hdl). }
  assert (Hst : exists fi, os_Stat path wm = (Ok fi, wm)).
  { destruct Hreach as [[Hfi ->]|[_ Hdl]]; [exact Hfi|].
    destruct (downloadFromURI_Ok_file _ _ _ _ _ Hdl) as (perm & c & Hl).
    fold path in Hl. unfold os_Stat. rewrite Hl. eauto. }
  destruct Hst as [fi Hst].
  exact (downloadDependency_found url_Parse d cacheDir wm fi v
           (os_MkdirAll_again _ _ _ _ _ _ Hmk Hdirs) Hst Hch).
Qed.

(** The ways through [downloadDependency], with the checksum. *)
Lemma downloadDependency_ways url_Parse d cacheDir w r w' :
  downloadDependency url_Parse d cacheDir w = (r, w') ->
  let path := Filepath.Join [cacheDir; cacheFile d] in
  (exists err, os_MkdirAll cacheDir 493 w = (Err err, w') /\ r = Exit 1) \/
  (exists w0 wm v,
      os_MkdirAll cacheDir 493 w = (Ok tt, w0) /\
      reaches_checksum url_Parse d cacheDir w0 wm /\
      checkSha256 path (SHA256 d) wm = (v, w') /\
      r = fetched d cacheDir v) \/
  (exists w0 err e,
      os_MkdirAll cacheDir 493 w = (Ok tt, w0) /\
      os_Stat path w0 = (Err err, w0) /\
      downloadFromURI url_Parse (URI d) path w0 = (Err e, w') /\
      r = Err e).
Proof.
  intros Hrun path. apply downloadDependency_inv in Hrun. fold path in Hrun.
  cbv zeta in Hrun.
  destruct Hrun as [H|[(w0 & wm & Hmk & Hfile & v & Hch & ->)|H]]; auto.
  right. left. exists w0, wm, v. repeat split; try assumption.
  unfold reaches_checksum. fold path.
  destruct Hfile as [(fi & Hst & ->)|(err & Hst & Hdl)]; [left|right]; eauto.
Qed.

(** After a fetch that returned a [File], the cache directory is found
    in place. *)
Lemma downloadDependency_Ok_again url_Parse d cacheDir w f w1 :
  downloadDependency url_Parse d cacheDir w = (Ok f, w1) ->
  os_MkdirAll cacheDir 493 w1 = (Ok tt, w1).
Proof.
  intros Hrun. apply downloadDependency_ways in Hrun. cbv zeta in Hrun.
  destruct Hrun as [(err & _ & H)|[(w0 & wm & v & Hmk & Hreach & Hch & _)
                                  |(w0 & err & e & _ & _ & _ & H)]];
    try discriminate.
  destruct (checkSha256_inv _ _ _ _ _ Hch) as [-> _].
  apply (os_MkdirAll_again _ _ _ _ _ _ Hmk).
  destruct Hreach as [[_ ->]|[_ Hdl]]; [apply dirs_stay_refl|].
  exact (downloadFromURI_dirs _ _ _ _ _ _ Hdl).
Qed.

End AgainFacts.

(** * The archive *)

Module ZipFacts.
Import FsFacts FetchFacts DownloadFacts StageFacts KeepFacts.

Section Zip.

Variable zip_local : zip_entry -> list byte.
Variable zip_central : list zip_entry -> list byte.
Variable h : handle.







End Zip.


End ZipFacts.

(** * The walk *)

Module WalkFacts.
Import FsFacts CleanFacts StageFacts.

(** The loop of [walk] over a list of entries in two parts. *)
Lemma walk_entries_app walk_child path es1 es2 w :
  walk_entries walk_child path (es1 ++ es2) w =
  match walk_entries walk_child path es1 w with
  | (Ok _, w') => walk_entries walk_child path es2 w'
  | r => r
  end.
Proof.
  revert w. induction es1 as [|[name child] es1 IH]; intros w; [reflexivity|].
  cbn [app walk_entries]. unfold bind, try.
  destruct (walk_child (Filepath.Join [path; name]) child w) as [[[]|e|msg|c] w1];
    try reflexivity.
  - apply IH.
  - destruct (negb (is_dir child) || negb (is_SkipDir e)); [reflexivity|apply IH].
Qed.

Lemma skipped_name g :
  skipped g = true -> plain g = true /\ slashfree g = true.
Proof.
  unfold skipped. intros H. apply orb_true_iff in H.
  destruct H as [H|H]; apply String.eqb_eq in H; subst g; split; reflexivity.
Qed.

End WalkFacts.

(** * The staged copy *)

Module CopyFacts.
Import FsFacts PathFacts FetchFacts DownloadFacts CleanFacts StageFacts KeepFacts.
Import WalkFacts.

Lemma mode_reg name a c :
  negb (Z.land (Mode (node_info name (Reg a c))) ModeSymlink =? 0) = false /\
  IsDir (node_info name (Reg a c)) = false.
Proof.
  unfold IsDir. cbn [node_info Mode node_mode].
  rewrite <- !Z.land_assoc.
  change (Z.land ModePerm ModeSymlink) with 0.
  change (Z.land ModePerm ModeDir) with 0.
  rewrite Z.land_0_r. split; reflexivity.
Qed.

Lemma mode_dir name m es :
  negb (Z.land (Mode (node_info name (Dir m es))) ModeSymlink =? 0) = false /\
  IsDir (node_info name (Dir m es)) = true.
Proof.
  unfold IsDir. cbn [node_info Mode node_mode].
  rewrite !Z.land_lor_distr_l, <- !Z.land_assoc.
  change (Z.land ModePerm ModeSymlink) with 0.
  change (Z.land ModePerm ModeDir) with 0.
  change (Z.land ModeDir ModeSymlink) with 0.
  change (Z.land ModeDir ModeDir) with ModeDir.
  rewrite Z.land_0_r, !Z.lor_0_r. split; reflexivity.
Qed.

Lemma mode_link name t :
  negb (Z.land (Mode (node_info name (Link t))) ModeSymlink =? 0) = true.
Proof. reflexivity. Qed.

(** No system call returns [SkipDir], so copying an entry never does. *)
Ltac no_skip_os :=
  let w := fresh "w" in
  let e := fresh "e" in
  let w' := fresh "w'" in
  let H := fresh "H" in
  intros w e w';
  cbv beta delta [os_Open os_OpenFile_create_trunc file_ReadAll
    file_Write os_Readlink os_Symlink];
  repeat match goal with
         | |- context [match ?x with _ => _ end] => destruct x
         end;
  intros H; inversion H; reflexivity.

Lemma no_skip_ret {A} (a : A) : no_skip (ret a).
Proof. intros w e w' H. discriminate. Qed.

Lemma no_skip_fail {A} e : is_SkipDir e = false -> no_skip (@fail A e).
Proof. intros He w e' w' [= <- _]. exact He. Qed.

Lemma no_skip_bind {A B} (m : M A) (k : A -> M B) :
  no_skip m -> (forall a, no_skip (k a)) -> no_skip (bind m k).
Proof.
  intros Hm Hk w e w'. unfold bind.
  destruct (m w) as [[a|e0|msg|c] w0] eqn:E; try discriminate.
  - apply Hk.
  - intros [= <- _]. exact (Hm _ _ _ E).
Qed.

Lemma no_skip_try {A} (m : M A) : no_skip (try m).
Proof.
  intros w e w'. unfold try. destruct (m w) as [[]]; discriminate.
Qed.

Lemma no_skip_os_MkdirAll path perm : no_skip (os_MkdirAll path perm).
Proof.
  intros w e w'. unfold os_MkdirAll.
  destruct (path =? "")%string; [intros [= <- _]; reflexivity|].
  destruct (fs w); try (intros [= <- _]; reflexivity). cbv zeta.
  destruct (mkdir_walk _ _ _ _ _) as [f [[rest made]|]]; intros [= <- _];
    reflexivity.
Qed.

Lemma no_skip_os_Open name : no_skip (os_Open name).
Proof. no_skip_os. Qed.

Lemma no_skip_os_OpenFile name perm : no_skip (os_OpenFile_create_trunc name perm).
Proof. no_skip_os. Qed.

Lemma no_skip_file_ReadAll h : no_skip (file_ReadAll h).
Proof. no_skip_os. Qed.

Lemma no_skip_file_Write h data : no_skip (file_Write h data).
Proof. no_skip_os. Qed.

Lemma no_skip_io_Copy h src : no_skip (io_Copy h src).
Proof.
  destruct src as [s|resp]; cbn [io_Copy].
  - apply no_skip_bind; [apply no_skip_file_ReadAll|].
    intros c. apply no_skip_file_Write.
  - apply no_skip_bind; [apply no_skip_file_Write|]. intros _.
    destruct (body_fails resp); [now apply no_skip_fail|apply no_skip_ret].
Qed.

Lemma no_skip_copy_entry srcDir destDir rel info :
  no_skip (copy_entry srcDir destDir rel info).
Proof.
  unfold copy_entry. cbv zeta.
  destruct (negb (Z.land (Mode info) ModeSymlink =? 0)).
  - apply no_skip_bind; [apply no_skip_try|]. intros [target|err].
    + apply no_skip_bind; [apply no_skip_try|]. intros [[]|err];
        [apply no_skip_ret|now apply no_skip_fail].
    + now apply no_skip_fail.
  - destruct (IsDir info); [apply no_skip_os_MkdirAll|].
    apply no_skip_bind; [apply no_skip_os_Open|]. intros src.
    apply no_skip_bind; [apply no_skip_os_MkdirAll|]. intros _.
    apply no_skip_bind; [apply no_skip_os_OpenFile|]. intros fh.
    apply no_skip_io_Copy.
Qed.

Lemma os_OpenFile_inv name perm w h w' :
  os_OpenFile_create_trunc name perm w = (Ok h, w') ->
  h = resolve name /\
  exists p, lookup (resolve name) (fs w') = Some (Reg p []).
Proof.
  unfold os_OpenFile_create_trunc.
  destruct (lookup (resolve name) (fs w)) as [[old c|t|m es]|]; try discriminate;
    (destruct (put _ _ _) as [f|] eqn:Ep; [|discriminate]);
    intros [= <- <-]; (split; [reflexivity|]); eexists;
    exact (lookup_put_same _ _ _ _ Ep).
Qed.

Lemma os_Symlink_inv oldname newname w w' :
  os_Symlink oldname newname w = (Ok tt, w') ->
  lookup (resolve newname) (fs w') = Some (Link oldname).
Proof.
  unfold os_Symlink. destruct (lookup _ _); [discriminate|].
  destruct (put _ _ _) as [f|] eqn:Ep; [|discriminate].
  intros [= <-]. exact (lookup_put_same _ _ _ _ Ep).
Qed.

Lemma is_prefix_app_false p s q : is_prefix p q = false -> is_prefix (p ++ s) q = false.
Proof.
  intros H. destruct (is_prefix (p ++ s) q) eqn:E; [|reflexivity].
  rewrite <- H. symmetry.
  exact (is_prefix_trans _ _ _ (is_prefix_app p s) E).
Qed.

Lemma is_prefix_not_eq p q : is_prefix p q = false -> q <> p.
Proof. intros H ->. rewrite is_prefix_refl in H. discriminate. Qed.

Lemma is_prefix_sibling p k k' q :
  k <> k' -> is_prefix (p ++ [k']) (p ++ k :: q) = false.
Proof.
  intros Hne. apply is_prefix_false_below. intros n rest [= <- _] E.
  now apply Hne.
Qed.

Lemma find_In k (es : list (string * node)) ch : find k es = Some ch -> In (k, ch) es.
Proof.
  induction es as [|[k0 v] es IH]; cbn [find]; [discriminate|].
  destruct (String.eqb_spec k0 k) as [->|Hne].
  - intros [= ->]. now left.
  - intros H. right. auto.
Qed.

Lemma distinct_In_find k (es : list (string * node)) ch :
  distinct (map fst es) = true -> In (k, ch) es -> find k es = Some ch.
Proof.
  induction es as [|[k0 v] es IH]; [intros _ []|].
  cbn [map fst distinct find]. intros Hd Hin.
  apply andb_true_iff in Hd as [Hk0 Hd]. apply negb_true_iff in Hk0.
  destruct Hin as [[= -> ->]|Hin]; [now rewrite String.eqb_refl|].
  destruct (String.eqb_spec k0 k) as [->|Hne]; [|auto].
  exfalso. assert (Hex : existsb (String.eqb k) (map fst es) = true).
  { apply existsb_exists. exists k. split; [|apply String.eqb_refl].
    change k with (fst (k, ch)). now apply in_map. }
  congruence.
Qed.

Lemma distinct_head k rest k' :
  distinct (k :: rest) = true -> In k' rest -> k <> k'.
Proof.
  cbn [distinct]. intros Hd Hin ->. apply andb_true_iff in Hd as [Hk _].
  apply negb_true_iff in Hk.
  assert (existsb (String.eqb k') rest = true).
  { apply existsb_exists. exists k'. split; [exact Hin|apply String.eqb_refl]. }
  congruence.
Qed.

Lemma not_SkipDir e : Err (A:=unit) e <> Err SkipDir -> is_SkipDir e = false.
Proof. destruct e; try reflexivity. intros H. now exfalso. Qed.

Lemma copied_kept x y y' :
  is_dir x = false -> copied x y ->
  (forall z, is_dir z = false -> y = Some z -> y' = Some z) ->
  copied x y'.
Proof.
  destruct x as [a c|t|m es]; cbn [copied]; try discriminate.
  - intros _ [p ->] H. exists p. now apply H.
  - intros _ -> H. now apply H.
Qed.

Lemma keeps_outside_trans p w1 w2 w3 :
  keeps_outside p w1 w2 -> keeps_outside p w2 w3 -> keeps_outside p w1 w3.
Proof. intros A B q x Hx Hq Hl. eauto. Qed.

Section Copy.

Variables srcDir destDir : string.
Hypothesis Hdiv : diverge (resolve srcDir) (resolve destDir) = true.

Local Abbreviation visit := (copyDirectory_visit srcDir destDir).
Local Abbreviation src := (resolve srcDir).
Local Abbreviation dst := (resolve destDir).
Local Abbreviation path_of := (walk_path srcDir).

Lemma src_not_below_dst a b : is_prefix (dst ++ a) (src ++ b) = false.
Proof. apply diverge_not_prefix, diverge_app_l, diverge_app_r, Hdiv. Qed.

Lemma keeps_source_intact p names n w w' :
  keeps_outside (dst ++ p) w w' ->
  source_intact src names n w -> source_intact src names n w'.
Proof.
  intros Hk Hs q x Hx Hl. apply Hk; [exact Hx|apply src_not_below_dst|].
  exact (Hs q x Hx Hl).
Qed.

Lemma visit_copy names info :
  names <> [] -> forallb plain names = true -> forallb slashfree names = true ->
  first_ok names ->
  visit (path_of names) (Some info) None
  = copy_entry srcDir destDir (String.concat "/" names) info.
Proof.
  intros Hne Hp Hs Hfirst. destruct names as [|n1 [|n2 rest]].
  - contradiction.
  - rewrite copyDirectory_visit_entry. unfold walk_path.
    rewrite Rel_below by assumption. cbn [String.concat].
    pose proof (Hfirst n1 [] eq_refl) as Hskip. unfold skipped in Hskip.
    rewrite Hskip. reflexivity.
  - apply visit_deeper; [cbn; lia|assumption|assumption].
Qed.

(** Copying one entry that is a file or a link. *)
Lemma copy_entry_leaf names x w r w' :
  names <> [] -> forallb plain names = true -> forallb slashfree names = true ->
  is_dir x = false ->
  lookup (src ++ names) (fs w) = Some x ->
  copy_entry srcDir destDir (String.concat "/" names)
    (node_info (path_of names) x) w = (r, w') ->
  keeps_outside (dst ++ names) w w' /\
  (r = Ok tt -> copied x (lookup (dst ++ names) (fs w'))).
Proof.
  intros Hne Hp Hs Hx Hl.
  pose proof (resolve_Join2_plain destDir names Hne Hp Hs) as Hdest.
  pose proof (resolve_Join2_plain srcDir names Hne Hp Hs) as Hsrc.
  unfold copy_entry. cbv zeta.
  set (dest := Filepath.Join [destDir; String.concat "/" names]) in *.
  set (srcPath := Filepath.Join [srcDir; String.concat "/" names]) in *.
  destruct x as [a c|t|m es]; [| |discriminate].
  - (* a regular file *)
    destruct (mode_reg (path_of names) a c) as [Hsym Hdir].
    rewrite Hsym, Hdir. unfold bind at 1. unfold os_Open. rewrite Hsrc, Hl.
    unfold bind at 1.
    destruct (os_MkdirAll (Filepath.Dir dest) 493 w) as [r1 w1] eqn:Emk.
    assert (K1 : keeps_outside (dst ++ names) w w1).
    { intros q y Hy _ Hq. exact (os_MkdirAll_keeps q y Hy _ _ _ _ _ Emk Hq). }
    destruct r1 as [[]|e|msg|code];
      try (intros [= <- <-]; split; [exact K1|discriminate]).
    unfold bind at 1.
    destruct (os_OpenFile_create_trunc dest
                (Mode (node_info (path_of names) (Reg a c))) w1)
      as [r2 w2] eqn:Eof.
    assert (K2 : keeps_outside (dst ++ names) w1 w2).
    { intros q y Hy Hpre Hq.
      apply (os_OpenFile_keeps q y Hy _ _ _ _ _ Eof); [|exact Hq].
      rewrite Hdest. now apply is_prefix_not_eq. }
    destruct r2 as [fh|e|msg|code];
      try (intros [= <- <-]; split;
           [exact (keeps_outside_trans _ _ _ _ K1 K2)|discriminate]).
    destruct (os_OpenFile_inv _ _ _ _ _ Eof) as [-> [p Hfh]].
    rewrite Hdest in *.
    assert (Hl2 : lookup (src ++ names) (fs w2) = Some (Reg a c)).
    { apply K2; [reflexivity| |apply K1; [reflexivity| |exact Hl]];
        exact (src_not_below_dst names names). }
    cbn [io_Copy]. unfold bind at 1. unfold file_ReadAll. rewrite Hl2.
    destruct (file_Write_reg (dst ++ names) c w2 p [] Hfh) as (f & Hw & Hlf & _).
    rewrite Hw. intros [= <- <-]. split.
    + apply (keeps_outside_trans _ _ _ _ K1).
      apply (keeps_outside_trans _ _ _ _ K2).
      intros q y Hy Hpre Hq.
      apply (file_Write_keeps q y Hy _ _ _ _ _ Hw); [|exact Hq].
      now apply is_prefix_not_eq.
    + intros _. exists p. exact Hlf.
  - (* a symbolic link *)
    rewrite mode_link. unfold bind at 1. unfold try at 1. unfold os_Readlink.
    rewrite Hsrc, Hl. unfold bind at 1. unfold try.
    destruct (os_Symlink t dest w) as [r1 w1] eqn:Esl.
    assert (K1 : keeps_outside (dst ++ names) w w1).
    { intros q y Hy _ Hq. exact (os_Symlink_keeps q y Hy _ _ _ _ _ Esl Hq). }
    destruct r1 as [[]|e|msg|code]; intros [= <- <-];
      (split; [exact K1|try discriminate]).
    intros _. cbn [copied]. rewrite <- Hdest. exact (os_Symlink_inv _ _ _ _ Esl).
Qed.

(** Copying one entry that is a directory. *)
Lemma copy_entry_dir rel name m es w r w' :
  copy_entry srcDir destDir rel (node_info name (Dir m es)) w = (r, w') ->
  keeps_outside [] w w' /\
  forall q y, is_dir y = false ->
              lookup q (fs w) = Some y -> lookup q (fs w') = Some y.
Proof.
  unfold copy_entry. cbv zeta.
  destruct (mode_dir name m es) as [Hsym Hdir]. rewrite Hsym, Hdir.
  intros Hmk.
  assert (K : forall q y, is_dir y = false ->
                lookup q (fs w) = Some y -> lookup q (fs w') = Some y).
  { intros q y Hy Hq. exact (os_MkdirAll_keeps q y Hy _ _ _ _ _ Hmk Hq). }
  split; [|exact K]. intros q y Hy _ Hq. exact (K q y Hy Hq).
Qed.

(** The loop over the entries of a directory at [names] below the source,
    given what the walk establishes for each entry. *)
Lemma walk_entries_copies path names es :
  (forall k, plain k = true -> slashfree k = true ->
             Filepath.Join [path; k] = path_of (names ++ [k])) ->
  forallb plain names = true -> forallb slashfree names = true ->
  first_ok names ->
  (forall k ch, In (k, ch) es ->
     forall names' w r w',
       names' <> [] -> forallb plain names' = true ->
       forallb slashfree names' = true -> first_ok names' ->
       names_ok ch = true -> names_once ch = true ->
       source_intact src names' ch w ->
       walk visit (path_of names') ch w = (r, w') ->
       r <> Err SkipDir /\ keeps_outside (dst ++ names') w w' /\
       (r = Ok tt -> stages dst names' ch w')) ->
  forallb (fun e : string * node =>
             let (name, child) := e in
             plain name && slashfree name && names_ok child) es = true ->
  distinct (map fst es) = true ->
  forallb (fun e : string * node => names_once (snd e)) es = true ->
  (forall k ch, In (k, ch) es -> names = [] -> skipped k = true ->
                is_dir ch = true) ->
  forall w r w',
    (forall k ch, In (k, ch) es -> source_intact src (names ++ [k]) ch w) ->
    walk_entries (walk visit) path es w = (r, w') ->
    r <> Err SkipDir /\
    (forall q x, is_dir x = false ->
       (forall k, In k (map fst es) -> is_prefix (dst ++ names ++ [k]) q = false) ->
       lookup q (fs w) = Some x -> lookup q (fs w') = Some x) /\
    (r = Ok tt ->
     forall k ch, In (k, ch) es -> first_ok (names ++ [k]) ->
                  stages dst (names ++ [k]) ch w').
Proof.
  intros Hpath Hp Hs Hfirst.
  induction es as [|[k ch] rest IHes];
    intros IH Hok Hdist Honce Htop w r w' Hsrc Hrun.
  - injection Hrun as <- <-. split; [discriminate|]. split; [auto|].
    intros _ k ch [].
  - cbn [forallb] in Hok. apply andb_true_iff in Hok as [Hname Hok].
    apply andb_true_iff in Hname as [Hname Hchild].
    apply andb_true_iff in Hname as [Hkp Hks].
    cbn [forallb snd] in Honce. apply andb_true_iff in Honce as [Honce1 Honce].
    cbn [map fst] in Hdist.
    pose proof Hdist as Hdist'. cbn [distinct] in Hdist'.
    apply andb_true_iff in Hdist' as [_ Hdrest].
    assert (IH' : forall k0 ch0, In (k0, ch0) rest ->
              forall names' w r w',
                names' <> [] -> forallb plain names' = true ->
                forallb slashfree names' = true -> first_ok names' ->
                names_ok ch0 = true -> names_once ch0 = true ->
                source_intact src names' ch0 w ->
                walk visit (path_of names') ch0 w = (r, w') ->
                r <> Err SkipDir /\ keeps_outside (dst ++ names') w w' /\
                (r = Ok tt -> stages dst names' ch0 w')).
    { intros k0 ch0 Hin. apply (IH k0 ch0). now right. }
    assert (Htop' : forall k0 ch0, In (k0, ch0) rest -> names = [] ->
                      skipped k0 = true -> is_dir ch0 = true).
    { intros k0 ch0 Hin. apply (Htop k0 ch0). now right. }
    pose proof (IHes IH' Hok Hdrest Honce Htop') as IHrest.
    cbn [walk_entries] in Hrun. unfold bind, try in Hrun.
    rewrite (Hpath k Hkp Hks) in Hrun.
    assert (Hcases : (names = [] /\ skipped k = true) \/ first_ok (names ++ [k])).
    { destruct names as [|n0 l].
      - destruct (skipped k) eqn:E; [left; auto|right].
        intros k0 rest0 [= <- _]. exact E.
      - right. intros k0 rest0 [= <- _]. exact (Hfirst n0 l eq_refl). }
    destruct Hcases as [[Hnil Hskip]|Hfk].
    + (* a directory skipped at the top *)
      subst names. cbn [app] in Hrun.
      rewrite (walk_skipped srcDir destDir ".git" (or_introl eq_refl) k ch w
                 Hkp Hks Hskip) in Hrun.
      rewrite (Htop k ch (or_introl eq_refl) eq_refl Hskip) in Hrun.
      cbn [negb is_SkipDir orb] in Hrun.
      assert (Hsrc' : forall k0 ch0, In (k0, ch0) rest ->
                source_intact src ([] ++ [k0]) ch0 w).
      { intros k0 ch0 Hin. apply Hsrc. now right. }
      destruct (IHrest w r w' Hsrc' Hrun) as (Hr & Hkeep & Hst).
      split; [exact Hr|]. split.
      * intros q x Hx Hq. apply Hkeep; [exact Hx|].
        intros k0 Hin. apply Hq. now right.
      * intros Hok' k0 ch0 [[= <- <-]|Hin] Hf0.
        -- pose proof (Hf0 k [] eq_refl). congruence.
        -- exact (Hst Hok' k0 ch0 Hin Hf0).
    + assert (Hne' : names ++ [k] <> []).
      { intros E. apply app_eq_nil in E as [_ E]. discriminate. }
      assert (Hp' : forallb plain (names ++ [k]) = true).
      { rewrite forallb_app, Hp. cbn [forallb]. now rewrite Hkp. }
      assert (Hs' : forallb slashfree (names ++ [k]) = true).
      { rewrite forallb_app, Hs. cbn [forallb]. now rewrite Hks. }
      destruct (walk visit (path_of (names ++ [k])) ch w) as [r1 w1] eqn:Ew.
      destruct (IH k ch (or_introl eq_refl) (names ++ [k]) w r1 w1 Hne' Hp' Hs'
                  Hfk Hchild Honce1 (Hsrc k ch (or_introl eq_refl)) Ew)
        as (Hr1 & K1 & Hst1).
      assert (Hsrc1 : forall k0 ch0, In (k0, ch0) rest ->
                source_intact src (names ++ [k0]) ch0 w1).
      { intros k0 ch0 Hin.
        apply (keeps_source_intact (names ++ [k]) _ _ w w1 K1).
        apply Hsrc. now right. }
      assert (Hq1 : forall q, (forall k0, In k0 (k :: map fst rest) ->
                         is_prefix (dst ++ names ++ [k0]) q = false) ->
                       is_prefix (dst ++ names ++ [k]) q = false).
      { intros q Hq. apply Hq. now left. }
      destruct r1 as [[]|e|msg|code].
      * destruct (IHrest w1 r w' Hsrc1 Hrun) as (Hr & Hkeep & Hst).
        split; [exact Hr|]. split.
        -- intros q x Hx Hq Hl. apply Hkeep; [exact Hx| |].
           ++ intros k0 Hin. apply Hq. now right.
           ++ exact (K1 q x Hx (Hq1 q Hq) Hl).
        -- intros Hok' k0 ch0 [[= <- <-]|Hin] Hf0;
             [|exact (Hst Hok' k0 ch0 Hin Hf0)].
           intros q x Hx Hl.
           apply (copied_kept x _ _ Hx (Hst1 eq_refl q x Hx Hl)).
           intros z Hz Hlz. apply Hkeep; [exact Hz| |exact Hlz].
           intros k0 Hin.
           assert (Hkk : k <> k0) by exact (distinct_head _ _ _ Hdist Hin).
           rewrite <- (app_assoc names [k] q). cbn [app].
           rewrite !app_assoc. apply is_prefix_sibling. exact Hkk.
      * rewrite (not_SkipDir e Hr1), orb_true_r in Hrun.
        injection Hrun as <- <-. split; [exact Hr1|]. split; [|discriminate].
        intros q x Hx Hq Hl. exact (K1 q x Hx (Hq1 q Hq) Hl).
      * injection Hrun as <- <-. split; [discriminate|]. split; [|discriminate].
        intros q x Hx Hq Hl. exact (K1 q x Hx (Hq1 q Hq) Hl).
      * injection Hrun as <- <-. split; [discriminate|]. split; [|discriminate].
        intros q x Hx Hq Hl. exact (K1 q x Hx (Hq1 q Hq) Hl).
Qed.

(** The walk of an entry at [names] below the source that is not skipped:
    it never answers [SkipDir], it writes only at or below the place of
    the entry in the copy, and when it returns nil every file and link
    below the entry has its copy. *)
Lemma walk_copies n :
  forall names w r w',
    names <> [] -> forallb plain names = true ->
    forallb slashfree names = true -> first_ok names ->
    names_ok n = true -> names_once n = true ->
    source_intact src names n w ->
    walk visit (path_of names) n w = (r, w') ->
    r <> Err SkipDir /\ keeps_outside (dst ++ names) w w' /\
    (r = Ok tt -> stages dst names n w').
Proof.
  induction n as [a c|t|m es IH] using node_induction;
    intros names w r w' Hne Hp Hs Hfirst Hok Honce Hsrc Hrun.
  - cbn [walk] in Hrun. rewrite (visit_copy names _ Hne Hp Hs Hfirst) in Hrun.
    assert (Hl : lookup (src ++ names) (fs w) = Some (Reg a c)).
    { pose proof (Hsrc [] (Reg a c) eq_refl eq_refl) as H.
      now rewrite app_nil_r in H. }
    destruct (copy_entry_leaf names (Reg a c) w r w' Hne Hp Hs eq_refl Hl Hrun) as [K C].
    split; [|split; [exact K|]].
    + intros ->. pose proof (no_skip_copy_entry _ _ _ _ _ _ _ Hrun). discriminate.
    + intros Hr q x Hx Hq. destruct q; [|discriminate].
      injection Hq as <-. rewrite app_nil_r. exact (C Hr).
  - cbn [walk] in Hrun. rewrite (visit_copy names _ Hne Hp Hs Hfirst) in Hrun.
    assert (Hl : lookup (src ++ names) (fs w) = Some (Link t)).
    { pose proof (Hsrc [] (Link t) eq_refl eq_refl) as H.
      now rewrite app_nil_r in H. }
    destruct (copy_entry_leaf names (Link t) w r w' Hne Hp Hs eq_refl Hl Hrun) as [K C].
    split; [|split; [exact K|]].
    + intros ->. pose proof (no_skip_copy_entry _ _ _ _ _ _ _ Hrun). discriminate.
    + intros Hr q x Hx Hq. destruct q; [|discriminate].
      injection Hq as <-. rewrite app_nil_r. exact (C Hr).
  - cbn [walk] in Hrun. unfold bind, try in Hrun.
    rewrite (visit_copy names _ Hne Hp Hs Hfirst) in Hrun.
    destruct (copy_entry srcDir destDir (String.concat "/" names)
                (node_info (path_of names) (Dir m es)) w) as [r0 w0] eqn:Ev.
    destruct (copy_entry_dir _ _ _ _ _ _ _ Ev) as [_ K0].
    assert (K0' : keeps_outside (dst ++ names) w w0).
    { intros q y Hy _ Hq. exact (K0 q y Hy Hq). }
    destruct r0 as [[]|e|msg|code];
      try (injection Hrun as <- <-; split; [|split; [exact K0'|discriminate]]).
    2:{ intros [= ->].
        pose proof (no_skip_copy_entry _ _ _ _ _ _ _ Ev). discriminate. }
    2:{ discriminate. }
    2:{ discriminate. }
    cbn [names_ok] in Hok. cbn [names_once] in Honce.
    apply andb_true_iff in Honce as [Hdist Honce].
    assert (IH' : forall k ch, In (k, ch) es ->
              forall names' w r w',
                names' <> [] -> forallb plain names' = true ->
                forallb slashfree names' = true -> first_ok names' ->
                names_ok ch = true -> names_once ch = true ->
                source_intact src names' ch w ->
                walk visit (path_of names') ch w = (r, w') ->
                r <> Err SkipDir /\ keeps_outside (dst ++ names') w w' /\
                (r = Ok tt -> stages dst names' ch w')).
    { intros k ch Hin. rewrite Forall_forall in IH. exact (IH (k, ch) Hin). }
    assert (Hsrc0 : forall k ch, In (k, ch) es ->
              source_intact src (names ++ [k]) ch w0).
    { intros k ch Hin q x Hx Hl. rewrite <- app_assoc. cbn [app].
      apply K0; [exact Hx|]. apply Hsrc; [exact Hx|].
      cbn [lookup]. rewrite (distinct_In_find _ _ _ Hdist Hin). exact Hl. }
    assert (Htop : forall k ch, In (k, ch) es -> names = [] ->
                     skipped k = true -> is_dir ch = true).
    { intros k ch _ E. contradiction. }
    destruct (walk_entries_copies (path_of names) names es
                (fun k Hk Hks => path_of_snoc srcDir names k Hp Hs Hk Hks)
                Hp Hs Hfirst IH' Hok Hdist Honce Htop w0 r w' Hsrc0 Hrun)
      as (Hr & Hkeep & Hst).
    split; [exact Hr|]. split.
    + intros q x Hx Hq Hl. apply Hkeep; [exact Hx| |exact (K0 q x Hx Hl)].
      intros k _. rewrite app_assoc. apply is_prefix_app_false. exact Hq.
    + intros Hok' q x Hx Hl. destruct q as [|k q]; [injection Hl as <-; discriminate|].
      cbn [lookup] in Hl. destruct (find k es) as [ch|] eqn:Ef; [|discriminate].
      assert (Hfk : first_ok (names ++ [k])).
      { destruct names as [|n0 l]; [contradiction|].
        intros k0 rest0 [= <- _]. exact (Hfirst n0 l eq_refl). }
      pose proof (Hst Hok' k ch (find_In _ _ _ Ef) Hfk q x Hx Hl) as Hc.
      rewrite <- app_assoc in Hc. exact Hc.
Qed.

(** [filepath.Walk] over the source directory, when it returns nil and
    the entries named [.git] or [tests] at the top are directories: every
    file and link below an entry that is not skipped has its copy. *)
Lemma Walk_copies perm es w w' :
  lookup src (fs w) = Some (Dir perm es) ->
  names_ok (Dir perm es) = true -> names_once (Dir perm es) = true ->
  (forall k ch, In (k, ch) es -> skipped k = true -> is_dir ch = true) ->
  Walk visit srcDir w = (Ok tt, w') ->
  (forall k ch, In (k, ch) es -> skipped k = false -> stages dst [k] ch w') /\
  (forall q x, is_dir x = false -> is_prefix dst q = false ->
               lookup q (fs w) = Some x -> lookup q (fs w') = Some x).
Proof.
  intros Hl Hok Honce Htop. unfold Walk. rewrite Hl. cbn [walk].
  unfold bind, try. rewrite copyDirectory_visit_entry, Rel_self.
  change ((("." =? ".git") || ("." =? "tests"))%string) with false. cbv iota.
  destruct (copy_entry srcDir destDir "." (node_info srcDir (Dir perm es)) w)
    as [r0 w0] eqn:Ev.
  destruct (copy_entry_dir _ _ _ _ _ _ _ Ev) as [_ K0].
  destruct r0 as [[]|e|msg|code]; try discriminate.
  2:{ pose proof (no_skip_copy_entry _ _ _ _ _ _ _ Ev) as He.
      unfold fail. rewrite He. discriminate. }
  cbn [names_ok] in Hok. cbn [names_once] in Honce.
  apply andb_true_iff in Honce as [Hdist Honce].
  assert (Hsrc0 : forall k ch, In (k, ch) es ->
            source_intact src ([] ++ [k]) ch w0).
  { intros k ch Hin q x Hx Hq. cbn [app]. apply K0; [exact Hx|].
    rewrite lookup_app, Hl. cbn [lookup].
    rewrite (distinct_In_find _ _ _ Hdist Hin). exact Hq. }
  destruct (walk_entries (walk visit) srcDir es w0) as [r1 w1] eqn:Ew.
  destruct (walk_entries_copies srcDir [] es
              (fun k Hk Hks => path_of_child srcDir k Hk Hks)
              eq_refl eq_refl (fun k rest E => match E with end)
              (fun k ch _ => walk_copies ch) Hok Hdist Honce
              (fun k ch Hin _ Hs => Htop k ch Hin Hs) w0 r1 w1 Hsrc0 Ew)
    as (Hr & Hkeep & Hst).
  destruct r1 as [[]|e|msg|code]; try discriminate.
  2:{ rewrite (not_SkipDir e Hr). discriminate. }
  intros [= <-]. split.
  - intros k ch Hin Hskip. apply (Hst eq_refl k ch Hin).
    intros k0 rest0 [= <- _]. exact Hskip.
  - intros q x Hx Hq Hlq. apply Hkeep; [exact Hx| |exact (K0 q x Hx Hlq)].
    intros k _. cbn [app]. apply is_prefix_app_false. exact Hq.
Qed.

End Copy.

(** [TempDir] changes nothing at a path that leaves the new directory. *)
Lemma TempDir_try_diverge dir prefix names w name w' q :
  TempDir_try dir prefix names w = (Ok name, w') ->
  diverge (resolve name) q = true ->
  lookup q (fs w') = lookup q (fs w).
Proof.
  induction names as [|r rest IH]; cbn [TempDir_try]; [discriminate|].
  destruct (os_Mkdir (Filepath.Join [dir; (prefix ++ r)%string]) 448 w)
    as [res w1] eqn:Emk.
  destruct (os_Mkdir_inv _ _ _ _ _ Emk) as [(e & -> & ->)|(-> & f & -> & Hput)].
  - destruct e as [op path [] | | |]; try discriminate. exact IH.
  - intros [= <- <-] Hd. cbn [fs set_tmpnames set_fs].
    exact (lookup_put_diverge _ _ _ _ _ Hput Hd).
Qed.

(** The steps of [copyDirectory] when it returns a directory. *)
Lemma copyDirectory_inv srcDir w destDir w' :
  copyDirectory srcDir w = (Ok destDir, w') ->
  exists w1,
    TempDir_try (os_TempDir w) "buildpack-packager" (tmpnames w) w
      = (Ok destDir, w1) /\
    Walk (copyDirectory_visit srcDir destDir) srcDir w1 = (Ok tt, w').
Proof.
  unfold copyDirectory, bind, ioutil_TempDir.
  change ("" =? "")%string with true. cbv iota.
  destruct (TempDir_try (os_TempDir w) "buildpack-packager" (tmpnames w) w)
    as [[d| | |] w1]; try discriminate.
  destruct (Walk (copyDirectory_visit srcDir d) srcDir w1)
    as [[[]| | |] w2] eqn:Ew; try discriminate.
  intros [= <- <-]. exists w1. auto.
Qed.

End CopyFacts.

(** * The shape of a checksum *)

Module DigestFacts.
Import CacheFacts FetchFacts.

Lemma sha256_round_length st kw : length (Sha256.round st kw) = length st.
Proof.
  unfold Sha256.round.
  destruct st as [|a [|b [|c [|d [|e [|f [|g [|h [|i st]]]]]]]]]; reflexivity.
Qed.

Lemma sha256_rounds_length l st : length (fold_left Sha256.round l st) = length st.
Proof.
  revert st. induction l as [|x l IH]; intros st; simpl; [reflexivity|].
  rewrite IH. apply sha256_round_length.
Qed.

Lemma sha256_block_length st blk : length (Sha256.block st blk) = length st.
Proof.
  unfold Sha256.block.
  rewrite length_map, length_combine, sha256_rounds_length. apply Nat.min_id.
Qed.

Lemma sha256_blocks_length l st : length (fold_left Sha256.block l st) = length st.
Proof.
  revert st. induction l as [|x l IH]; intros st; simpl; [reflexivity|].
  rewrite IH. apply sha256_block_length.
Qed.

(** A SHA-256 digest has 32 bytes. *)
Lemma sha256_Sum256_length msg : length (Sha256.Sum256 msg) = 32%nat.
Proof.
  unfold Sha256.Sum256. cbv zeta.
  pose proof (sha256_blocks_length
                (Bytes.chunks 64 (length (Bytes.pad (Bytes.be_bytes 8) msg))
                              (Bytes.pad (Bytes.be_bytes 8) msg))
                Sha256.H0) as H.
  destruct (fold_left Sha256.block _ Sha256.H0)
    as [|a [|b [|c [|d [|e [|f [|g [|h [|i st]]]]]]]]]; try discriminate.
  reflexivity.
Qed.

Lemma hex_length bs :
  String.length (Bytes.hex_EncodeToString bs) = (2 * length bs)%nat.
Proof.
  induction bs as [|b bs IH]; [reflexivity|].
  cbn [Bytes.hex_EncodeToString String.length length]. rewrite IH. lia.
Qed.

Lemma hex_digits bs :
  Forall (fun c => In c Bytes.hextable)
         (list_ascii_of_string (Bytes.hex_EncodeToString bs)).
Proof.
  induction bs as [|b bs IH]; [constructor|].
  cbn [Bytes.hex_EncodeToString list_ascii_of_string].
  constructor; [apply hexdigit_in|]. constructor; [apply hexdigit_in|exact IH].
Qed.

End DigestFacts.

(** * The claims *)

Import FsFacts PathFacts CacheFacts Normal FetchFacts LoopFacts DownloadFacts.
Import CleanFacts MkdirFacts StageFacts KeepFacts ConfineFacts AgainFacts.

(** C1, as stated, fails: with a cache directory that cannot be made,
    here the empty path or a path that steps back over a regular file, the
    mismatching file is in the cache, and [downloadDependency] ends the
    process in [log.Fatalf] instead of returning an error. *)
Lemma mismatch_in_cache_that_cannot_be_made :
  let d := Scenario.dep_bad in
  (let w := Scenario.world (Scenario.cache_here Scenario.abc) [] in
   ioutil_ReadFile (Filepath.Join [""; cacheFile d]) w = (Ok Scenario.abc, w) /\
   downloadDependency Scenario.url_Parse d "" w = (Exit 1, w)) /\
  (let w := Scenario.world (Scenario.cache_beside_file Scenario.abc) [] in
   ioutil_ReadFile (Filepath.Join ["/cache/f/.."; cacheFile d]) w
     = (Ok Scenario.abc, w) /\
   downloadDependency Scenario.url_Parse d "/cache/f/.." w = (Exit 1, w)) /\
  Bytes.hex_EncodeToString (Sha256.Sum256 Scenario.abc) <> SHA256 d.
Proof.
  intros d. split; [|split].
  - split; vm_compute; reflexivity.
  - split; vm_compute; reflexivity.
  - vm_compute. discriminate.
Qed.

(** C1, amended: a file at the cache path whose SHA-256 digest differs
    from the declared one never lets [downloadDependency] return a
    [File], whether the file was there before the call (cached) or is
    there when the checksum is taken (just downloaded).  The call returns
    an error, unless the cache directory cannot be made: then the process
    exits. *)
Theorem downloadDependency_rejects_digest_mismatch
    url_Parse d cacheDir w r w' content :
  downloadDependency url_Parse d cacheDir w = (r, w') ->
  ioutil_ReadFile (Filepath.Join [cacheDir; cacheFile d]) w = (Ok content, w) \/
  ioutil_ReadFile (Filepath.Join [cacheDir; cacheFile d]) w' = (Ok content, w') ->
  Bytes.hex_EncodeToString (Sha256.Sum256 content) <> SHA256 d ->
  (forall f, r <> Ok f) /\
  ((exists e, r = Err e) \/
   (r = Exit 1 /\ exists err, os_MkdirAll cacheDir 493 w = (Err err, w'))) /\
  (forall w0, os_MkdirAll cacheDir 493 w = (Ok tt, w0) -> exists e, r = Err e).
Proof.
  intros Hrun Hfile Hdiff.
  destruct (verdict_mismatch _ _ Hdiff) as [e He].
  assert (Hl : exists perm,
             lookup (resolve (Filepath.Join [cacheDir; cacheFile d])) (fs w')
             = Some (Reg perm content)).
  { destruct Hfile as [Hfile|Hfile];
      apply ReadFile_lookup in Hfile as [_ [perm Hl]]; exists perm; [|exact Hl].
    exact (downloadDependency_keeps_files _ _ _ _ _ _ _ _ _ Hrun Hl). }
  destruct Hl as [perm Hl].
  assert (Hcases : (exists e, r = Err e) \/
            (r = Exit 1 /\ exists err, os_MkdirAll cacheDir 493 w = (Err err, w'))).
  { apply downloadDependency_inv in Hrun.
    destruct Hrun as [(err & Hmk & ->)|[(w0 & w1 & Hmk & _ & v & Hch & ->)
                                       |(w0 & err & e' & _ & _ & _ & ->)]].
    - right. eauto.
    - left.
      apply checkSha256_inv in Hch as [-> [(perm' & c' & Hl' & ->)|[Hno _]]].
      + rewrite Hl in Hl'. injection Hl' as <- <-. rewrite He. simpl. eauto.
      + exfalso. eapply Hno, Hl.
    - left. eauto. }
  split; [|split].
  - intros f ->. destruct Hcases as [[e0 H]|[H _]]; discriminate.
  - exact Hcases.
  - intros w0 Hmk. destruct Hcases as [H|[_ [err H]]]; [exact H|].
    rewrite Hmk in H. discriminate.
Qed.

Lemma downloadDependency_rejects_digest_mismatch_witness :
  let w := Scenario.world (Scenario.cache_with Scenario.abc) [] in
  let path := Filepath.Join ["/cache"; cacheFile Scenario.dep_bad] in
  ioutil_ReadFile path w = (Ok Scenario.abc, w) /\
  Bytes.hex_EncodeToString (Sha256.Sum256 Scenario.abc) <> SHA256 Scenario.dep_bad /\
  os_MkdirAll "/cache" 493 w = (Ok tt, w) /\
  exists e, fst (downloadDependency Scenario.url_Parse Scenario.dep_bad "/cache" w)
            = Err e.
Proof.
  intros w path.
  assert (H1 : ioutil_ReadFile path w = (Ok Scenario.abc, w))
    by (vm_compute; reflexivity).
  assert (H2 : Bytes.hex_EncodeToString (Sha256.Sum256 Scenario.abc)
               <> SHA256 Scenario.dep_bad) by (vm_compute; discriminate).
  assert (H3 : os_MkdirAll "/cache" 493 w = (Ok tt, w))
    by (vm_compute; reflexivity).
  split; [exact H1|]. split; [exact H2|]. split; [exact H3|].
  exact (proj2 (proj2 (downloadDependency_rejects_digest_mismatch
           Scenario.url_Parse Scenario.dep_bad "/cache" w _ _ Scenario.abc
           (surjective_pairing _) (or_introl H1) H2)) w H3).
Defined.


(** C5, as stated, fails: the digest of [abc] declared in upper case is
    the same digest up to letter case, and both [checkSha256] and
    [downloadDependency] reject it. *)
Lemma checkSha256_upper_case_rejected :
  let w := Scenario.world (Scenario.cache_with Scenario.abc) [] in
  let d := mkDependency Scenario.dep_uri Scenario.sha_abc_upper ["cflinuxfs3"] in
  let path := Filepath.Join ["/cache"; cacheFile d] in
  ioutil_ReadFile path w = (Ok Scenario.abc, w) /\
  ToLower (SHA256 d) = Bytes.hex_EncodeToString (Sha256.Sum256 Scenario.abc) /\
  checkSha256 path (SHA256 d) w =
    (Err (Errorf ("dependency sha256 mismatch: expected sha256 "
                  ++ Scenario.sha_abc_upper ++ ", actual sha256 "
                  ++ Scenario.sha_abc)%string), w) /\
  downloadDependency Scenario.url_Parse d "/cache" w =
    (Err (Errorf ("dependency sha256 mismatch: expected sha256 "
                  ++ Scenario.sha_abc_upper ++ ", actual sha256 "
                  ++ Scenario.sha_abc)%string), w).
Proof. vm_compute. repeat split; reflexivity. Qed.

(** C5, amended: the comparison is exact.  The declared checksum is
    accepted when it is the lower-case hex encoding of the digest, and a
    declared checksum that is this digest with some letter in upper case
    is rejected with a mismatch error. *)
Theorem checkSha256_compares_exactly filePath expectedSha256 w content :
  ioutil_ReadFile filePath w = (Ok content, w) ->
  let actualSha256 := Bytes.hex_EncodeToString (Sha256.Sum256 content) in
  (expectedSha256 = actualSha256 ->
   checkSha256 filePath expectedSha256 w = (Ok tt, w)) /\
  (ToLower expectedSha256 = actualSha256 ->
   expectedSha256 <> ToLower expectedSha256 ->
   checkSha256 filePath expectedSha256 w =
     (Err (Errorf ("dependency sha256 mismatch: expected sha256 "
                   ++ expectedSha256 ++ ", actual sha256 "
                   ++ actualSha256)%string), w)).
Proof.
  intros Hread actual.
  apply ReadFile_lookup in Hread as [_ [perm Hl]].
  rewrite (checkSha256_file _ _ _ _ _ Hl). unfold verdict. fold actual.
  split.
  - intros ->. rewrite String.eqb_refl. reflexivity.
  - intros Hlow Hcase. destruct (actual =? expectedSha256)%string eqn:E.
    + apply String.eqb_eq in E. congruence.
    + reflexivity.
Qed.

Lemma checkSha256_compares_exactly_witness :
  let w := Scenario.world (Scenario.cache_with Scenario.abc) [] in
  let path := "/cache/dependencies/2f67f96d623098d1b533c71d2562a686/a.tgz" in
  ioutil_ReadFile path w = (Ok Scenario.abc, w) /\
  checkSha256 path Scenario.sha_abc w = (Ok tt, w) /\
  checkSha256 path Scenario.sha_abc_upper w =
    (Err (Errorf ("dependency sha256 mismatch: expected sha256 "
                  ++ Scenario.sha_abc_upper ++ ", actual sha256 "
                  ++ Bytes.hex_EncodeToString (Sha256.Sum256 Scenario.abc))%string), w).
Proof.
  intros w path.
  assert (H : ioutil_ReadFile path w = (Ok Scenario.abc, w))
    by (vm_compute; reflexivity).
  split; [exact H|]. split.
  - apply (proj1 (checkSha256_compares_exactly path Scenario.sha_abc w
                    Scenario.abc H)).
    vm_compute. reflexivity.
  - apply (proj2 (checkSha256_compares_exactly path Scenario.sha_abc_upper w
                    Scenario.abc H)).
    + vm_compute. reflexivity.
    + vm_compute. discriminate.
Defined.

(** C10: when the cache directory cannot be made, [downloadDependency]
    ends the process ([log.Fatalf], exit status 1) and returns no error;
    whenever the directory can be made the call returns, with a [File] or
    with an error. *)
Theorem downloadDependency_exits_when_MkdirAll_fails url_Parse d cacheDir w :
  (forall err w', os_MkdirAll cacheDir 493 w = (Err err, w') ->
     downloadDependency url_Parse d cacheDir w = (Exit 1, w')) /\
  (forall w0, os_MkdirAll cacheDir 493 w = (Ok tt, w0) ->
     returns (fst (downloadDependency url_Parse d cacheDir w))).
Proof.
  split.
  - intros err w' Hmk. unfold downloadDependency, bind, try. rewrite Hmk.
    reflexivity.
  - intros w0 Hmk.
    destruct (downloadDependency url_Parse d cacheDir w) as [r w'] eqn:Hrun.
    apply downloadDependency_inv in Hrun.
    destruct Hrun as [(err & Hmk' & ->)|[(w0' & w1 & _ & _ & v & Hch & ->)
                                        |(w0' & err & e' & _ & _ & _ & ->)]].
    + rewrite Hmk in Hmk'. discriminate.
    + pose proof (normal_checkSha256 (Filepath.Join [cacheDir; cacheFile d])
                    (SHA256 d) w1) as N.
      rewrite Hch in N. simpl in *. destruct v; simpl; auto.
    + exact I.
Qed.

Lemma downloadDependency_exits_when_MkdirAll_fails_witness :
  let w := Scenario.world (Dir 493 [("cache", Reg 420 [])]) [] in
  os_MkdirAll "/cache" 493 w = (Err (PathError "mkdir" "/cache" ENOTDIR), w) /\
  downloadDependency Scenario.url_Parse Scenario.dep_good "/cache" w = (Exit 1, w) /\
  os_MkdirAll "/cache" 493 (Scenario.world Scenario.empty_cache [])
    = (Ok tt, Scenario.world Scenario.empty_cache []) /\
  returns (fst (downloadDependency Scenario.url_Parse Scenario.dep_good "/cache"
                  (Scenario.world Scenario.empty_cache []))).
Proof.
  intros w.
  assert (H : os_MkdirAll "/cache" 493 w
              = (Err (PathError "mkdir" "/cache" ENOTDIR), w))
    by (vm_compute; reflexivity).
  assert (H' : os_MkdirAll "/cache" 493 (Scenario.world Scenario.empty_cache [])
               = (Ok tt, Scenario.world Scenario.empty_cache []))
    by (vm_compute; reflexivity).
  split; [exact H|]. split; [|split; [exact H'|]].
  - exact (proj1 (downloadDependency_exits_when_MkdirAll_fails
                    Scenario.url_Parse Scenario.dep_good "/cache" w) _ _ H).
  - exact (proj2 (downloadDependency_exits_when_MkdirAll_fails
                    Scenario.url_Parse Scenario.dep_good "/cache" _) _ H').
Defined.


(** C2, as stated, fails for an empty target stack: a dependency that
    lists no stack is dropped, the rewritten sequence is empty. *)
Lemma Package_drops_dependency_without_stacks :
  let w := Scenario.world Scenario.empty_cache [] in
  Package_dependencies Scenario.url_Parse "/cache" "" false
    [Scenario.entry "ruby"] 0 [Scenario.dep_on []] [] [] w = (Ok ([], []), w).
Proof. reflexivity. Qed.

(** C2, amended: the rewritten sequence is the raw sequence filtered, in
    order and without duplicates, by the typed dependencies: with a target
    stack those that list it stay, with an empty target stack those that
    list at least one stack stay.  Uncached mode keeps the entries as they
    are and cannot fail; in cached mode, when the loop comes to its end,
    the same entries stay, with their ["file"] key set. *)
Theorem Package_dependencies_filters_by_stack
    url_Parse cacheDir stack cached deps ds files w :
  (length ds <= length deps)%nat ->
  let kept := filter (fun p => keeps stack (fst p)) (combine ds deps) in
  (forall d, stack <> "" -> (keeps stack d = true <-> In stack (Stacks d))) /\
  (forall d, keeps "" d = true <-> Stacks d <> []) /\
  (cached = false ->
   Package_dependencies url_Parse cacheDir stack cached deps 0 ds files [] w
     = (Ok (files, map snd kept), w)) /\
  (forall files' out w',
     Package_dependencies url_Parse cacheDir stack cached deps 0 ds files [] w
       = (Ok (files', out), w') ->
     out = map (fun p => if cached then with_file (fst p) (snd p) else snd p)
               kept).
Proof.
  intros Hlen kept. split; [|split; [|split]].
  - intros d Hne. apply keeps_stack_iff, Hne.
  - intros d. unfold keeps. simpl. destruct (Stacks d); split; congruence.
  - intros ->.
    rewrite (Package_dependencies_uncached url_Parse cacheDir stack deps ds 0
               files [] w Hlen).
    reflexivity.
  - intros files' out w' Hrun. destruct cached.
    + apply Package_dependencies_cached in Hrun as [-> _]. reflexivity.
    + rewrite (Package_dependencies_uncached url_Parse cacheDir stack deps ds 0
                 files [] w Hlen) in Hrun.
      injection Hrun as _ <- _. reflexivity.
Qed.

Lemma Package_dependencies_filters_by_stack_witness :
  let w := Scenario.world Scenario.empty_cache [] in
  let ds := [Scenario.dep_on ["cflinuxfs2"; "cflinuxfs3"];
             Scenario.dep_on ["cflinuxfs2"];
             Scenario.dep_on ["cflinuxfs3"; "cflinuxfs3"]] in
  let deps := [Scenario.entry "a"; Scenario.entry "b"; Scenario.entry "c"] in
  (length ds <= length deps)%nat /\
  Package_dependencies Scenario.url_Parse "/cache" "cflinuxfs3" false deps 0 ds
    [] [] w = (Ok ([], [Scenario.entry "a"; Scenario.entry "c"]), w).
Proof.
  intros w ds deps. split; [simpl; lia|].
  refine (proj1 (proj2 (proj2
            (Package_dependencies_filters_by_stack Scenario.url_Parse "/cache"
               "cflinuxfs3" false deps ds [] w _))) eq_refl).
  simpl. lia.
Defined.

(** C6, as stated, fails in both modes: a retained entry that is a
    string and no mapping goes into the rewritten sequence as it is, and
    the loop returns no error; [updateDependencyMap] does produce the cast
    error, which [Package] drops. *)
Lemma Package_keeps_entry_that_is_no_mapping :
  let w := Scenario.world (Scenario.cache_with Scenario.abc) [] in
  let entry := YStr "ruby 2.4.1" in
  let file := cached_file "/cache" Scenario.dep_good in
  Package_dependencies Scenario.url_Parse "/cache" "cflinuxfs3" false
    [entry] 0 [Scenario.dep_good] [] [] w = (Ok ([], [entry]), w) /\
  Package_dependencies Scenario.url_Parse "/cache" "cflinuxfs3" true
    [entry] 0 [Scenario.dep_good] [] [] w = (Ok ([file], [entry]), w) /\
  updateDependencyMap entry file =
    inr (Errorf "Could not cast deps[idx] to map[interface{}]interface{}").
Proof. vm_compute. repeat split; reflexivity. Qed.

(** C6, amended: for an entry that is not a mapping [updateDependencyMap]
    returns the cast error; uncached mode casts no entry, and a retained
    entry of any shape is kept as it is, without an error. *)
Theorem Package_uncached_casts_no_entry entry :
  (forall pairs, entry <> YMap pairs) ->
  (forall file,
     updateDependencyMap entry file =
       inr (Errorf "Could not cast deps[idx] to map[interface{}]interface{}")) /\
  (forall url_Parse cacheDir stack deps idx d files dependenciesForStack w,
     nth_error deps idx = Some entry ->
     retained stack d = true ->
     Package_stacks url_Parse cacheDir stack false deps idx d (Stacks d)
       files dependenciesForStack w
     = (Ok (files, dependenciesForStack ++ [entry]), w)).
Proof.
  intros Hshape. split.
  - intros file. destruct entry; try reflexivity.
    exfalso. eapply Hshape. reflexivity.
  - intros url_Parse cacheDir stack deps idx d files dfs w Hnth Hret.
    rewrite Package_stacks_spec. unfold retained in Hret. rewrite Hret.
    unfold retain. rewrite Hnth. reflexivity.
Qed.

Lemma Package_uncached_casts_no_entry_witness :
  (forall pairs, YStr "ruby 2.4.1" <> YMap pairs) /\
  Package_stacks Scenario.url_Parse "/cache" "cflinuxfs3" false
    [YStr "ruby 2.4.1"] 0 Scenario.dep_good (Stacks Scenario.dep_good) [] []
    (Scenario.world Scenario.empty_cache [])
  = (Ok ([], [YStr "ruby 2.4.1"]), Scenario.world Scenario.empty_cache []).
Proof.
  assert (H : forall pairs, YStr "ruby 2.4.1" <> YMap pairs) by discriminate.
  split; [exact H|].
  exact (proj2 (Package_uncached_casts_no_entry (YStr "ruby 2.4.1") H)
           Scenario.url_Parse "/cache" "cflinuxfs3" [YStr "ruby 2.4.1"] 0%nat
           Scenario.dep_good [] [] (Scenario.world Scenario.empty_cache [])
           eq_refl eq_refl).
Defined.

(** C8: [Package] reads [deps[idx]] with the index of the typed list and
    no bounds check.  For a retained dependency whose index is outside the
    raw sequence, the loop over its stacks panics, before any fetch; the
    loop over the dependencies then never comes to a successful end, and in
    uncached mode it ends in that panic. *)
Theorem Package_panics_on_short_dependencies
    url_Parse cacheDir stack cached deps ds i d :
  nth_error ds i = Some d ->
  retained stack d = true ->
  (length deps <= i)%nat ->
  (forall files dependenciesForStack w,
     Package_stacks url_Parse cacheDir stack cached deps i d (Stacks d)
       files dependenciesForStack w
     = (Panic "runtime error: index out of range", w)) /\
  (forall files w r w',
     Package_dependencies url_Parse cacheDir stack cached deps 0 ds files [] w
       = (r, w') ->
     forall result, r <> Ok result) /\
  (cached = false ->
   forall files w,
     Package_dependencies url_Parse cacheDir stack cached deps 0 ds files [] w
       = (Panic "runtime error: index out of range", w)).
Proof.
  intros Hnth Hret Hlen.
  assert (Hstacks : forall idx files dfs w, (length deps <= idx)%nat ->
            retain url_Parse cacheDir cached deps idx d files dfs w
            = (Panic "runtime error: index out of range", w)).
  { intros idx files dfs w Hidx. unfold retain.
    apply nth_error_None in Hidx. rewrite Hidx. reflexivity. }
  split; [|split].
  - intros files dfs w. rewrite Package_stacks_spec.
    unfold retained in Hret. rewrite Hret. apply Hstacks, Hlen.
  - (* the loop cannot get past index [i] *)
    assert (Hgen : forall ds0 idx j files dfs w r w',
               nth_error ds0 j = Some d -> (length deps <= idx + j)%nat ->
               Package_dependencies url_Parse cacheDir stack cached deps idx ds0
                 files dfs w = (r, w') ->
               forall result, r <> Ok result).
    { induction ds0 as [|d0 ds0 IH]; intros idx j files dfs w r w' Hj Hidx Hrun.
      - destruct j; discriminate.
      - rewrite Package_dependencies_cons in Hrun. unfold bind in Hrun.
        destruct j as [|j].
        + injection Hj as ->. rewrite Hret in Hrun.
          rewrite Hstacks in Hrun by lia. injection Hrun as <- _. discriminate.
        + simpl in Hj.
          destruct ((if retained stack d0
                     then retain url_Parse cacheDir cached deps idx d0 files dfs
                     else ret (files, dfs)) w) as [[x|e|msg|c] w1];
            try (injection Hrun as <- _; discriminate).
          eapply (IH (S idx) j); [exact Hj|lia|exact Hrun]. }
    intros files w r w' Hrun. eapply (Hgen ds 0%nat i); eauto.
  - intros ->.
    assert (Hgen : forall ds0 idx j files dfs w,
               nth_error ds0 j = Some d -> (length deps <= idx + j)%nat ->
               Package_dependencies url_Parse cacheDir stack false deps idx ds0
                 files dfs w = (Panic "runtime error: index out of range", w)).
    { induction ds0 as [|d0 ds0 IH]; intros idx j files dfs w Hj Hidx.
      - destruct j; discriminate.
      - rewrite Package_dependencies_cons. unfold bind.
        destruct (retained stack d0) eqn:Er0.
        + unfold retain. destruct (nth_error deps idx) eqn:En.
          * unfold ret. cbn [fst snd]. destruct j as [|j].
            -- assert (idx < length deps)%nat
                 by (apply nth_error_Some; congruence).
               lia.
            -- apply (IH (S idx) j); [exact Hj|lia].
          * reflexivity.
        + unfold ret. cbn [fst snd]. destruct j as [|j].
          * injection Hj as ->. congruence.
          * apply (IH (S idx) j); [exact Hj|lia]. }
    intros files w. apply (Hgen ds 0%nat i); auto.
Qed.

Lemma Package_panics_on_short_dependencies_witness :
  let ds := [Scenario.dep_on ["cflinuxfs3"]; Scenario.dep_on ["cflinuxfs3"]] in
  let deps := [Scenario.entry "a"] in
  let w := Scenario.world Scenario.empty_cache [] in
  nth_error ds 1 = Some (Scenario.dep_on ["cflinuxfs3"]) /\
  retained "cflinuxfs3" (Scenario.dep_on ["cflinuxfs3"]) = true /\
  (length deps <= 1)%nat /\
  Package_dependencies Scenario.url_Parse "/cache" "cflinuxfs3" false deps 0 ds
    [] [] w = (Panic "runtime error: index out of range", w).
Proof.
  intros ds deps w.
  assert (H1 : nth_error ds 1 = Some (Scenario.dep_on ["cflinuxfs3"]))
    by reflexivity.
  assert (H2 : retained "cflinuxfs3" (Scenario.dep_on ["cflinuxfs3"]) = true)
    by reflexivity.
  assert (H3 : (length deps <= 1)%nat) by (simpl; lia).
  split; [exact H1|]. split; [exact H2|]. split; [exact H3|].
  exact (proj2 (proj2 (Package_panics_on_short_dependencies Scenario.url_Parse
                         "/cache" "cflinuxfs3" false deps ds 1%nat _ H1 H2 H3))
           eq_refl [] w).
Defined.


(** Whatever error [ZipFiles] returns, [Package] returns the archive path
    and a nil error. *)
Lemma Package_drops_ZipFiles_error
    url_Parse NewManifest DefaultVersion UnmarshalManifest Unmarshal Marshal
    exec zip_local zip_central bpDir cacheDir version stack cached
    w zipFile files w1 e w2 :
  Package_prepare url_Parse NewManifest DefaultVersion UnmarshalManifest
    Unmarshal Marshal exec bpDir cacheDir version stack cached w
    = (Ok (zipFile, files), w1) ->
  ZipFiles zip_local zip_central zipFile files w1 = (Err e, w2) ->
  Package url_Parse NewManifest DefaultVersion UnmarshalManifest
    Unmarshal Marshal exec zip_local zip_central
    bpDir cacheDir version stack cached w
    = (Ok zipFile, w2).
Proof.
  intros Hprep Hzip. unfold Package, bind, try. rewrite Hprep, Hzip.
  reflexivity.
Qed.

(** C3 fails on the code.  The manifest of the buildpack in [/bp] includes
    [missing.txt], which is not there: [ZipFiles] returns the error of
    opening it, and [Package], called with the same buildpack, returns the
    archive path and no error. *)
Theorem Package_succeeds_when_ZipFiles_fails :
  let w := Scenario.world Scenario.buildpack [] in
  let zipFile := "/bp/ruby_buildpack-v1.2.3.zip" in
  let files := [mkFile "bin/run" "/tmp/buildpack-packager001/bin/run";
                mkFile "missing.txt" "/tmp/buildpack-packager001/missing.txt"] in
  exists w1 w2,
    Scenario.Package_prepare "" "/bp" "/cache" "1.2.3" "cflinuxfs3" false w
      = (Ok (zipFile, files), w1) /\
    ZipFiles Scenario.zip_local Scenario.zip_central zipFile files w1
      = (Err (PathError "open" "/tmp/buildpack-packager001/missing.txt" ENOENT),
         w2) /\
    Scenario.Package "" "/bp" "/cache" "1.2.3" "cflinuxfs3" false w
      = (Ok zipFile, w2).
Proof.
  intros w zipFile files.
  exists (snd (Scenario.Package_prepare "" "/bp" "/cache" "1.2.3" "cflinuxfs3"
                 false w)).
  exists (snd (Scenario.Package "" "/bp" "/cache" "1.2.3" "cflinuxfs3" false w)).
  vm_compute. repeat split; reflexivity.
Qed.

(** C8 seen from [Package]: the pre-package hook [shrink] rewrites the
    staged manifest after the typed view was read; the raw document then
    has no dependency entry, the typed view has two, and [Package]
    panics. *)
Example Package_panics_after_hook_shrinks_manifest :
  fst (Scenario.Package "shrink" "/bp" "/cache" "1.2.3" "cflinuxfs3" false
         (Scenario.world Scenario.buildpack []))
  = Panic "runtime error: index out of range".
Proof. vm_compute. reflexivity. Qed.


(** C7, as stated, fails: when the server cannot be reached, the first
    call returns the transport error and takes no checksum (the checksum
    of the file it leaves would have answered with a mismatch, as the
    second call does).  And where the cache directory cannot be made, a
    file being in its place, the process exits before any checksum. *)
Lemma first_fetch_fails_before_the_checksum :
  let w := Scenario.world Scenario.empty_cache [] in
  let d := Scenario.dep_good in
  let path := Filepath.Join ["/cache"; cacheFile d] in
  let refused :=
    Err (ErrOther "Get http://example.com/x/a.tgz: dial tcp: connection refused") in
  let mismatch :=
    Errorf ("dependency sha256 mismatch: expected sha256 "
            ++ Scenario.sha_abc ++ ", actual sha256 "
            ++ Scenario.sha_empty)%string in
  (exists w1,
     downloadDependency Scenario.url_Parse d "/cache" w = (refused, w1) /\
     checkSha256 path (SHA256 d) w1 = (Err mismatch, w1) /\
     downloadDependency Scenario.url_Parse d "/cache" w1 = (Err mismatch, w1)) /\
  (let w0 := Scenario.world (Dir 493 [("cache", Reg 420 [])]) [] in
   downloadDependency Scenario.url_Parse d "/cache" w0 = (Exit 1, w0)).
Proof.
  intros w d path refused mismatch. split.
  - exists (snd (downloadDependency Scenario.url_Parse d "/cache" w)).
    vm_compute. repeat split; reflexivity.
  - vm_compute. reflexivity.
Qed.

(** C7, amended: two calls in sequence with the same arguments open at
    most one source (network or file copy).  Whenever the first call takes
    the checksum, that is, whenever the cache directory can be made and
    the file is found there or its download returns without an error, the
    second call changes nothing, so it downloads nothing, takes the
    checksum again and returns what the first call returned: the same
    [File], or the same mismatch error.  When the first call returns a
    [File], the cached content has the declared digest.  The first call
    takes no checksum in two cases only: its download fails, or the cache
    directory cannot be made and the process exits. *)
Theorem downloadDependency_twice url_Parse d cacheDir w r1 w1 r2 w2 :
  downloadDependency url_Parse d cacheDir w = (r1, w1) ->
  downloadDependency url_Parse d cacheDir w1 = (r2, w2) ->
  let path := Filepath.Join [cacheDir; cacheFile d] in
  (length (transfers w2) <= length (transfers w) + 1)%nat /\
  (forall w0 wm,
     os_MkdirAll cacheDir 493 w = (Ok tt, w0) ->
     reaches_checksum url_Parse d cacheDir w0 wm ->
     exists v,
       checkSha256 path (SHA256 d) wm = (v, w1) /\ r1 = fetched d cacheDir v /\
       checkSha256 path (SHA256 d) w1 = (v, w1) /\ r2 = r1 /\ w2 = w1) /\
  (forall f, r1 = Ok f ->
     (exists perm content,
        lookup (resolve (Path f)) (fs w1) = Some (Reg perm content) /\
        Bytes.hex_EncodeToString (Sha256.Sum256 content) = SHA256 d) /\
     r2 = Ok f /\ w2 = w1 /\
     checkSha256 (Path f) (SHA256 d) w1 = (Ok tt, w1)) /\
  ((exists w0 wm,
      os_MkdirAll cacheDir 493 w = (Ok tt, w0) /\
      reaches_checksum url_Parse d cacheDir w0 wm) \/
   (exists w0 err e,
      os_MkdirAll cacheDir 493 w = (Ok tt, w0) /\
      os_Stat path w0 = (Err err, w0) /\
      downloadFromURI url_Parse (URI d) path w0 = (Err e, w1) /\ r1 = Err e) \/
   (exists err, os_MkdirAll cacheDir 493 w = (Err err, w1) /\ r1 = Exit 1)).
Proof.
  intros H1 H2 path. subst path.
  pose proof (downloadDependency_ways _ _ _ _ _ _ H1) as Hways.
  cbv zeta in Hways.
  assert (Hsettled : forall w0 wm v,
             os_MkdirAll cacheDir 493 w = (Ok tt, w0) ->
             reaches_checksum url_Parse d cacheDir w0 wm ->
             checkSha256 (Filepath.Join [cacheDir; cacheFile d]) (SHA256 d) wm
               = (v, w1) ->
             wm = w1 /\ r2 = fetched d cacheDir v /\ w2 = w1).
  { intros w0 wm v Hmk Hreach Hch.
    destruct (downloadDependency_settled _ _ _ _ _ _ _ _ Hmk Hreach Hch)
      as [-> Hsecond].
    rewrite Hsecond in H2. injection H2 as <- <-. auto. }
  split; [|split; [|split]].
  - destruct Hways as [(err & Hmk & ->)
                      |[(w0 & wm & v & Hmk & Hreach & Hch & ->)
                       |(w0 & err & e & Hmk & Hst & Hdl & ->)]].
    + destruct (os_MkdirAll_inv _ _ _ _ _ Hmk) as [(e & f & _ & ->)|(? & _)];
        [|discriminate].
      destruct (downloadDependency_effect _ _ _ _ _ _ H2) as [_ [Ht2|[Ht2 _]]];
        rewrite Ht2, ?length_app; simpl; lia.
    + destruct (Hsettled _ _ _ Hmk Hreach Hch) as (_ & _ & ->).
      destruct (downloadDependency_effect _ _ _ _ _ _ H1) as [_ [Ht1|[Ht1 _]]];
        rewrite Ht1, ?length_app; simpl; lia.
    + destruct (downloadDependency_effect _ _ _ _ _ _ H1)
        as [_ [Ht1|[Ht1 (perm & c & Hl)]]].
      * destruct (downloadDependency_effect _ _ _ _ _ _ H2) as [_ [Ht2|[Ht2 _]]];
          rewrite Ht2, ?length_app, Ht1; simpl; lia.
      * assert (Hagain : os_MkdirAll cacheDir 493 w1 = (Ok tt, w1)).
        { apply (os_MkdirAll_again _ _ _ _ _ _ Hmk).
          exact (downloadFromURI_dirs _ _ _ _ _ _ Hdl). }
        rewrite (downloadDependency_cached _ _ _ _ _ _ Hagain Hl) in H2.
        injection H2 as _ <-. rewrite Ht1, length_app. simpl. lia.
  - intros w0 wm Hmk Hreach.
    destruct Hways as [(err & Hmk' & _)
                      |[(w0' & wm' & v & Hmk' & Hreach' & Hch & ->)
                       |(w0' & err & e & Hmk' & Hst & Hdl & _)]];
      rewrite Hmk in Hmk'; try discriminate; injection Hmk' as <-.
    + assert (wm' = wm) as ->.
      { destruct Hreach as [[[fi Hfi] ->]|[[err Herr] Hdl]],
                 Hreach' as [[[fi' Hfi'] ->]|[[err' Herr'] Hdl']];
          try reflexivity; cbv zeta in *; congruence. }
      destruct (Hsettled _ _ _ Hmk Hreach Hch) as (-> & -> & ->).
      exists v. auto.
    + exfalso. destruct Hreach as [[[fi Hfi] _]|[_ Hdl']]; cbv zeta in *;
        congruence.
  - intros f ->.
    destruct Hways as [(err & _ & H)|[(w0 & wm & v & Hmk & Hreach & Hch & H)
                                     |(w0 & err & e' & _ & _ & _ & H)]];
      try discriminate.
    destruct (Hsettled _ _ _ Hmk Hreach Hch) as (-> & -> & ->).
    destruct v as [[]| | |]; try discriminate.
    cbv beta iota delta [fetched] in *.
    injection H as ->. cbn [Path].
    apply checkSha256_inv in Hch as [_ [(perm & c & Hl & Hv)|[_ [e He]]]];
      [|discriminate].
    assert (Heq : Bytes.hex_EncodeToString (Sha256.Sum256 c) = SHA256 d).
    { unfold verdict in Hv.
      destruct (Bytes.hex_EncodeToString (Sha256.Sum256 c) =? SHA256 d)%string
        eqn:E; [|discriminate].
      apply String.eqb_eq, E. }
    repeat split; eauto.
    rewrite (checkSha256_file _ _ _ _ _ Hl), <- Hv. reflexivity.
  - destruct Hways as [(err & Hmk & ->)
                      |[(w0 & wm & v & Hmk & Hreach & _)
                       |(w0 & err & e & Hmk & Hst & Hdl & ->)]].
    + right. right. eauto.
    + left. eauto.
    + right. left. exists w0, err, e. auto.
Qed.

Lemma downloadDependency_twice_witness :
  let w := Scenario.world Scenario.empty_cache (Scenario.serving Scenario.abc) in
  let f := cached_file "/cache" Scenario.dep_good in
  let bad := Scenario.dep_bad in
  let path := Filepath.Join ["/cache"; cacheFile bad] in
  let mismatch :=
    Errorf ("dependency sha256 mismatch: expected sha256 " ++ SHA256 bad
            ++ ", actual sha256 " ++ Scenario.sha_abc)%string in
  (exists w1,
     downloadDependency Scenario.url_Parse Scenario.dep_good "/cache" w = (Ok f, w1) /\
     downloadDependency Scenario.url_Parse Scenario.dep_good "/cache" w1 = (Ok f, w1) /\
     (length (transfers w1) <= length (transfers w) + 1)%nat) /\
  (exists wm,
     os_MkdirAll "/cache" 493 w = (Ok tt, w) /\
     downloadFromURI Scenario.url_Parse (URI bad) path w = (Ok tt, wm) /\
     downloadDependency Scenario.url_Parse bad "/cache" w = (Err mismatch, wm) /\
     downloadDependency Scenario.url_Parse bad "/cache" wm = (Err mismatch, wm) /\
     transfers wm = [URI bad]).
Proof.
  intros w f bad path mismatch. split.
  - exists (snd (downloadDependency Scenario.url_Parse Scenario.dep_good "/cache" w)).
    assert (H1 : downloadDependency Scenario.url_Parse Scenario.dep_good "/cache" w
                 = (Ok f, snd (downloadDependency Scenario.url_Parse
                                 Scenario.dep_good "/cache" w)))
      by (vm_compute; reflexivity).
    assert (H2 : downloadDependency Scenario.url_Parse Scenario.dep_good "/cache"
                   (snd (downloadDependency Scenario.url_Parse Scenario.dep_good
                           "/cache" w))
                 = (Ok f, snd (downloadDependency Scenario.url_Parse
                                 Scenario.dep_good "/cache" w)))
      by (vm_compute; reflexivity).
    split; [exact H1|]. split; [exact H2|].
    exact (proj1 (downloadDependency_twice _ _ _ _ _ _ _ _ H1 H2)).
  - set (wm := snd (downloadFromURI Scenario.url_Parse (URI bad) path w)).
    exists wm.
    assert (Hmk : os_MkdirAll "/cache" 493 w = (Ok tt, w))
      by (vm_compute; reflexivity).
    assert (Hst : os_Stat path w = (Err (PathError "stat" path ENOENT), w))
      by (vm_compute; reflexivity).
    assert (Hdl : downloadFromURI Scenario.url_Parse (URI bad) path w = (Ok tt, wm))
      by (vm_compute; reflexivity).
    assert (H1 : downloadDependency Scenario.url_Parse bad "/cache" w
                 = (Err mismatch, wm)) by (vm_compute; reflexivity).
    split; [exact Hmk|]. split; [exact Hdl|]. split; [exact H1|].
    split; [|vm_compute; reflexivity].
    destruct (proj1 (proj2 (downloadDependency_twice Scenario.url_Parse bad
                              "/cache" w _ wm _ _ H1 (surjective_pairing _)))
                w wm Hmk (or_intror (conj (ex_intro _ _ Hst) Hdl)))
      as (v & _ & _ & _ & Hr & Hw).
    rewrite (surjective_pairing (downloadDependency _ _ _ wm)), Hr, Hw.
    reflexivity.
Defined.





(** C4, as stated, fails: [.git] and [tests] inside [lib], at depth two,
    are staged with their content; only the ones at the top of the
    source directory are left out. *)
Lemma copyDirectory_copies_nested_git_and_tests :
  let w := Scenario.world Scenario.source_tree [] in
  exists w',
    copyDirectory "/bp" w = (Ok "/tmp/buildpack-packager001", w') /\
    ioutil_ReadFile "/tmp/buildpack-packager001/lib/tests/unit.rb" w'
      = (Ok (Bytes.of_string "assert"), w') /\
    ioutil_ReadFile "/tmp/buildpack-packager001/lib/.git/HEAD" w'
      = (Ok (Bytes.of_string "ref"), w') /\
    lookup (resolve "/tmp/buildpack-packager001/tests") (fs w') = None /\
    lookup (resolve "/tmp/buildpack-packager001/.git") (fs w') = None.
Proof.
  intros w. exists (snd (copyDirectory "/bp" w)).
  vm_compute. repeat split; reflexivity.
Qed.

(** C4, amended: in a file system whose entries have real names, the
    staged copy has no entry [.git] and no entry [tests] at its top, so
    nothing of the subtrees of the source's top-level [.git] and [tests]
    either.  Only the top level is tested: for an entry two or more
    levels below the source directory, whatever its name, the visiting
    function skips nothing and copies the entry. *)
Theorem copyDirectory_skips_top_level_git_and_tests srcDir :
  (forall w destDir w',
     names_ok (fs w) = true ->
     copyDirectory srcDir w = (Ok destDir, w') ->
     forall g below,
       g = ".git" \/ g = "tests" ->
       lookup (resolve destDir ++ g :: below) (fs w') = None) /\
  (forall destDir names info,
     (2 <= length names)%nat ->
     forallb plain names = true -> forallb slashfree names = true ->
     copyDirectory_visit srcDir destDir (walk_path srcDir names) (Some info) None
     = copy_entry srcDir destDir (String.concat "/" names) info).
Proof.
  split; [|intros; apply visit_deeper; assumption].
  intros w destDir w' Hok Hrun g below Hg.
  unfold copyDirectory, bind, ioutil_TempDir in Hrun.
  destruct (TempDir_try _ _ _ w) as [[dest|e|msg|c] w1] eqn:Etmp; try discriminate.
  destruct (TempDir_try_new _ _ _ _ _ _ Hok Etmp) as [Hok1 [perm Hnew]].
  destruct (Walk (copyDirectory_visit srcDir dest) srcDir w1)
    as [[[]|e|msg|c] w2] eqn:Ewalk; try discriminate.
  injection Hrun as <- <-.
  change (g :: below) with ([g] ++ below). rewrite app_assoc.
  apply lookup_app_None.
  eapply (Walk_untouched srcDir dest g Hg); [exact Hok1|exact Ewalk|].
  rewrite lookup_app, Hnew. reflexivity.
Qed.

Lemma copyDirectory_skips_top_level_git_and_tests_witness :
  let w := Scenario.world Scenario.source_tree [] in
  names_ok (fs w) = true /\
  copyDirectory "/bp" w
    = (Ok "/tmp/buildpack-packager001", snd (copyDirectory "/bp" w)) /\
  lookup (resolve "/tmp/buildpack-packager001" ++ ["tests"; "spec.rb"])
         (fs (snd (copyDirectory "/bp" w))) = None /\
  copyDirectory_visit "/bp" "/tmp/buildpack-packager001"
    (walk_path "/bp" ["lib"; "tests"]) (Some (mkFileInfo "tests" ModeDir)) None
  = copy_entry "/bp" "/tmp/buildpack-packager001" "lib/tests"
      (mkFileInfo "tests" ModeDir).
Proof.
  intros w.
  assert (H1 : names_ok (fs w) = true) by (vm_compute; reflexivity).
  assert (H2 : copyDirectory "/bp" w
               = (Ok "/tmp/buildpack-packager001", snd (copyDirectory "/bp" w)))
    by (vm_compute; reflexivity).
  split; [exact H1|]. split; [exact H2|]. split.
  - exact (proj1 (copyDirectory_skips_top_level_git_and_tests "/bp") w _ _ H1 H2
             "tests" ["spec.rb"] (or_intror eq_refl)).
  - refine (proj2 (copyDirectory_skips_top_level_git_and_tests "/bp")
              "/tmp/buildpack-packager001" ["lib"; "tests"] _ _ eq_refl eq_refl).
    simpl. lia.
Defined.

(** * Further properties of the code *)

Import StackFacts.

(** X1: a stack that no entry of the manifest lists is refused by
    [validateStack] with an error that names it, before the environment
    is touched and before any default version is looked up; [Package]
    returns the same error, and nothing was staged: the world is the one
    the manifest loader left. *)
Theorem validateStack_refuses_unknown_stack
    url_Parse NewManifest DefaultVersion UnmarshalManifest Unmarshal Marshal
    exec zip_local zip_central
    stack bpDir cacheDir version cached w m w1 :
  stack <> "" ->
  NewManifest bpDir w = (Ok m, w1) ->
  (forall e, In e (Libbuildpack.ManifestEntries m) ->
             ~ In stack (Libbuildpack.CFStacks e)) ->
  let refused :=
    Errorf ("Stack `" ++ stack ++ "` not found in manifest")%string in
  validateStack NewManifest DefaultVersion stack bpDir w = (Err refused, w1) /\
  (forall dir,
     filepath_Abs dir w = (Ok bpDir, w) ->
     Package url_Parse NewManifest DefaultVersion UnmarshalManifest Unmarshal
       Marshal exec zip_local zip_central dir cacheDir version stack cached w
     = (Err refused, w1)).
Proof.
  intros Hne Hm Hno refused.
  assert (Hhas : hasStack m stack = false).
  { destruct (hasStack m stack) eqn:E; [|reflexivity].
    apply hasStack_iff in E. destruct E as [e [Hin Hs]].
    exfalso. exact (Hno e Hin Hs). }
  assert (Hv : validateStack NewManifest DefaultVersion stack bpDir w
               = (Err refused, w1)).
  { unfold validateStack.
    destruct (stack =? "")%string eqn:E;
      [apply String.eqb_eq in E; contradiction|].
    unfold bind at 1. rewrite Hm, Hhas. reflexivity. }
  split; [exact Hv|].
  intros dir Habs. unfold Package, Package_prepare.
  unfold bind at 1. unfold bind at 1. rewrite Habs.
  unfold bind at 1. rewrite Hv. reflexivity.
Qed.

Lemma validateStack_refuses_unknown_stack_witness :
  let w := Defaults.world "" in
  "cflinuxfs4" <> "" /\
  validateStack Defaults.libbuildpack_NewManifest
    Defaults.Manifest_DefaultVersion "cflinuxfs4" "/bp" w
  = (Err (Errorf "Stack `cflinuxfs4` not found in manifest"), w) /\
  Package Scenario.url_Parse Defaults.libbuildpack_NewManifest
    Defaults.Manifest_DefaultVersion (Scenario.yaml_Unmarshal_Manifest "")
    Scenario.yaml_Unmarshal Scenario.yaml_Marshal Scenario.exec_CombinedOutput
    Scenario.zip_local Scenario.zip_central
    "bp" "/cache" "1.0" "cflinuxfs4" false w
  = (Err (Errorf "Stack `cflinuxfs4` not found in manifest"), w).
Proof.
  intros w. split; [discriminate|].
  assert (Hno : forall e, In e (Libbuildpack.ManifestEntries Defaults.manifest) ->
                          ~ In "cflinuxfs4" (Libbuildpack.CFStacks e)).
  { intros e He. simpl in He.
    destruct He as [<-|[<-|[]]]; simpl; intros H;
      repeat (destruct H as [H|H]; [discriminate|]); exact H. }
  assert (Hne : "cflinuxfs4" <> "") by discriminate.
  destruct (validateStack_refuses_unknown_stack
              Scenario.url_Parse Defaults.libbuildpack_NewManifest
              Defaults.Manifest_DefaultVersion
              (Scenario.yaml_Unmarshal_Manifest "") Scenario.yaml_Unmarshal
              Scenario.yaml_Marshal Scenario.exec_CombinedOutput
              Scenario.zip_local Scenario.zip_central
              "cflinuxfs4" "/bp" "/cache" "1.0" false w Defaults.manifest w
              Hne eq_refl Hno) as [Hv Hp].
  split; [exact Hv|]. exact (Hp "bp" eq_refl).
Defined.

(** X2: once the stack was found, [validateStack] sets [CF_STACK] and
    leaves it unset on every return, with or without an error and also
    after a panic of the manifest model: a value the variable had before
    the call is not restored.  Only a process exit keeps the deferred call
    from running.  A stack with a NUL byte is refused by [Setenv]:
    [validateStack] then returns that error before anything is deferred,
    and the environment stays as the manifest loader left it. *)
Theorem validateStack_leaves_CF_STACK_unset
    NewManifest DefaultVersion stack bpDir w m w1 r w' :
  stack <> "" ->
  NewManifest bpDir w = (Ok m, w1) ->
  hasStack m stack = true ->
  validateStack NewManifest DefaultVersion stack bpDir w = (r, w') ->
  (has_byte Ascii.zero stack = false ->
   (forall code, r <> Exit code) ->
   assoc "CF_STACK" (env w') = None /\ os_Getenv "CF_STACK" w' = "") /\
  (has_byte Ascii.zero stack = true ->
   r = Err (ErrOther "setenv: invalid argument") /\ w' = w1).
Proof.
  intros Hne Hm Hhas Hrun. split.
  - intros Hnul Hexit.
    rewrite (validateStack_found NewManifest DefaultVersion stack bpDir w m w1
               Hne Hm Hhas Hnul) in Hrun.
    unfold defer in Hrun.
    destruct (validateStack_defaults DefaultVersion m stack
                (Libbuildpack.DefaultVersions m)
                (set_env w1 (assoc_set "CF_STACK" stack (env w1))))
      as [r0 w0].
    assert (Henv : assoc "CF_STACK" (env (os_Unsetenv "CF_STACK" w0)) = None)
      by apply assoc_del_same.
    destruct r0; inversion Hrun; subst;
      try (split; [exact Henv | unfold os_Getenv; now rewrite Henv]).
    exfalso. exact (Hexit code eq_refl).
  - intros Hnul.
    rewrite (validateStack_refused NewManifest DefaultVersion stack bpDir w m w1
               Hne Hm Hhas Hnul) in Hrun.
    injection Hrun as <- <-. auto.
Qed.

Lemma validateStack_leaves_CF_STACK_unset_witness :
  let w := Defaults.world "cflinuxfs3" in
  let r := validateStack Defaults.libbuildpack_NewManifest
             Defaults.Manifest_DefaultVersion "cflinuxfs2" "/bp" w in
  let nul := String Ascii.zero "" in
  let r0 := validateStack (fun _ => ret Defaults.manifest_nul)
              Defaults.Manifest_DefaultVersion nul "/bp" w in
  os_Getenv "CF_STACK" w = "cflinuxfs3" /\
  fst r = Ok tt /\
  os_Getenv "CF_STACK" (snd r) = "" /\
  hasStack Defaults.manifest_nul nul = true /\
  r0 = (Err (ErrOther "setenv: invalid argument"), w).
Proof.
  intros w r nul r0. split; [reflexivity|]. split; [reflexivity|]. split.
  - refine (proj2 (proj1 (validateStack_leaves_CF_STACK_unset
              Defaults.libbuildpack_NewManifest Defaults.Manifest_DefaultVersion
              "cflinuxfs2" "/bp" w Defaults.manifest w (fst r) (snd r)
              _ eq_refl eq_refl _) eq_refl _)).
    + discriminate.
    + reflexivity.
    + intros code. discriminate.
  - split; [reflexivity|].
    destruct (proj2 (validateStack_leaves_CF_STACK_unset
                (fun _ => ret Defaults.manifest_nul)
                Defaults.Manifest_DefaultVersion
                nul "/bp" w Defaults.manifest_nul w (fst r0) (snd r0)
                ltac:(discriminate) eq_refl eq_refl (surjective_pairing r0))
              eq_refl) as [H1 H2].
    rewrite (surjective_pairing r0), H1, H2. reflexivity.
Defined.

(** X3: for a stack that [Setenv] accepts, the default versions are
    looked up one after the other, in the order of the manifest, in a
    world where [CF_STACK] holds the stack.  The first one that is not
    found ends the loop: the error names it and the stack, the error of
    the lookup itself is dropped, and the later ones are not looked up.
    When all are found the call returns nil.  In both cases what remains
    of the call is that [CF_STACK] is unset. *)
Theorem validateStack_names_first_default_not_found
    NewManifest DefaultVersion stack bpDir w m w1 :
  stack <> "" ->
  NewManifest bpDir w = (Ok m, w1) ->
  hasStack m stack = true ->
  has_byte Ascii.zero stack = false ->
  let w2 := set_env w1 (assoc_set "CF_STACK" stack (env w1)) in
  (forall pre d post e,
     Libbuildpack.DefaultVersions m = pre ++ d :: post ->
     (forall p, In p pre ->
        exists v, DefaultVersion m (Libbuildpack.Name p) w2 = (Ok v, w2)) ->
     DefaultVersion m (Libbuildpack.Name d) w2 = (Err e, w2) ->
     validateStack NewManifest DefaultVersion stack bpDir w =
     (Err (Errorf ("No matching default dependency `" ++ Libbuildpack.Name d
                   ++ "` for stack `" ++ stack ++ "`")%string),
      os_Unsetenv "CF_STACK" w2)) /\
  ((forall p, In p (Libbuildpack.DefaultVersions m) ->
      exists v, DefaultVersion m (Libbuildpack.Name p) w2 = (Ok v, w2)) ->
   validateStack NewManifest DefaultVersion stack bpDir w =
   (Ok tt, os_Unsetenv "CF_STACK" w2)).
Proof.
  intros Hne Hm Hhas Hnul w2.
  rewrite (validateStack_found NewManifest DefaultVersion stack bpDir w m w1
             Hne Hm Hhas Hnul).
  fold w2. split.
  - intros pre d post e Hds Hpre Hd. unfold defer. rewrite Hds.
    rewrite (validateStack_defaults_first DefaultVersion m stack w2 pre d post e
               Hpre Hd).
    reflexivity.
  - intros Hall. unfold defer.
    rewrite (validateStack_defaults_all DefaultVersion m stack w2 _ Hall).
    reflexivity.
Qed.

Lemma validateStack_names_first_default_not_found_witness :
  let w := Defaults.world "" in
  validateStack Defaults.libbuildpack_NewManifest
    Defaults.Manifest_DefaultVersion "cflinuxfs3" "/bp" w
  = (Err (Errorf "No matching default dependency `node` for stack `cflinuxfs3`"),
     set_env w [("HOME", "/home/vcap")]) /\
  validateStack Defaults.libbuildpack_NewManifest
    Defaults.Manifest_DefaultVersion "cflinuxfs2" "/bp" w
  = (Ok tt, set_env w [("HOME", "/home/vcap")]).
Proof.
  intros w. split.
  - refine (proj1 (validateStack_names_first_default_not_found
              Defaults.libbuildpack_NewManifest Defaults.Manifest_DefaultVersion
              "cflinuxfs3" "/bp" w Defaults.manifest w _ eq_refl eq_refl eq_refl)
              [Libbuildpack.mkDependency "ruby" "2.4.1"]
              (Libbuildpack.mkDependency "node" "8.9.0") []
              (ErrOther "no match found for node") eq_refl _ eq_refl).
    + discriminate.
    + intros p [<-|[]]. eexists. reflexivity.
  - refine (proj2 (validateStack_names_first_default_not_found
              Defaults.libbuildpack_NewManifest Defaults.Manifest_DefaultVersion
              "cflinuxfs2" "/bp" w Defaults.manifest w _ eq_refl eq_refl eq_refl) _).
    + discriminate.
    + intros p [<-|[<-|[]]]; eexists; reflexivity.
Defined.

(** X4: on a mapping, [updateDependencyMap] returns no error and the
    mapping has its ["file"] key set to the name of the file, whatever it
    held before; every other key keeps its value, a key ["file"] that was
    there is replaced and not added a second time, and a second call with
    the same file changes nothing more. *)
Theorem updateDependencyMap_sets_file_key dep file :
  exists dep',
    updateDependencyMap (YMap dep) file = inl (YMap dep') /\
    ymap_get "file" dep' = Some (YStr (Name file)) /\
    (forall k, k <> "file" -> ymap_get k dep' = ymap_get k dep) /\
    length dep' = match ymap_get "file" dep with
                  | Some _ => length dep
                  | None => S (length dep)
                  end /\
    updateDependencyMap (YMap dep') file = inl (YMap dep').
Proof.
  exists (ymap_set "file" (YStr (Name file)) dep).
  split; [reflexivity|]. split; [apply ymap_get_set_same|].
  split; [intros k Hk; now apply ymap_get_set_other|].
  split; [apply ymap_set_length|].
  cbn [updateDependencyMap]. now rewrite ymap_set_twice.
Qed.

(** X5: [checkSha256] changes nothing and always returns; for a cleaned
    path it returns nil exactly when the path leads to a regular file and
    the declared checksum is the lower-case hex encoding of the SHA-256
    digest of its content.  A missing file, a directory and a symbolic
    link are errors. *)
Theorem checkSha256_nil_iff_regular_file_with_digest filePath expectedSha256 w :
  Filepath.Clean filePath = filePath ->
  snd (checkSha256 filePath expectedSha256 w) = w /\
  returns (fst (checkSha256 filePath expectedSha256 w)) /\
  (fst (checkSha256 filePath expectedSha256 w) = Ok tt <->
   exists perm content,
     lookup (resolve filePath) (fs w) = Some (Reg perm content) /\
     Bytes.hex_EncodeToString (Sha256.Sum256 content) = expectedSha256).
Proof.
  intros _.
  destruct (checkSha256 filePath expectedSha256 w) as [r w'] eqn:Hrun.
  destruct (checkSha256_inv _ _ _ _ _ Hrun) as [-> Hcases].
  cbn [fst snd]. split; [reflexivity|]. split.
  - pose proof (normal_checkSha256 filePath expectedSha256 w) as Hn.
    rewrite Hrun in Hn. exact Hn.
  - split.
    + intros ->. destruct Hcases as [[perm [content [Hl Hv]]]|[_ [e He]]];
        [|discriminate].
      exists perm, content. split; [exact Hl|].
      unfold verdict in Hv.
      destruct (Bytes.hex_EncodeToString (Sha256.Sum256 content)
                =? expectedSha256)%string eqn:E; [|discriminate].
      now apply String.eqb_eq.
    + intros [perm [content [Hl Hd]]].
      rewrite (checkSha256_file filePath expectedSha256 w perm content Hl)
        in Hrun.
      inversion Hrun as [[Hr]]. unfold verdict.
      apply String.eqb_eq in Hd. now rewrite Hd.
Qed.

Lemma checkSha256_nil_iff_regular_file_with_digest_witness :
  let w := Scenario.world (Scenario.cache_with Scenario.abc) [] in
  let path := Filepath.Join ["/cache"; cacheFile Scenario.dep_good] in
  checkSha256 path Scenario.sha_abc w = (Ok tt, w) /\
  fst (checkSha256 "/cache" Scenario.sha_abc w) <> Ok tt.
Proof.
  intros w path. split.
  - destruct (checkSha256_nil_iff_regular_file_with_digest path Scenario.sha_abc w
                ltac:(vm_compute; reflexivity)) as (Hw & _ & Hiff).
    rewrite (surjective_pairing (checkSha256 path Scenario.sha_abc w)), Hw.
    rewrite (proj2 Hiff); [reflexivity|].
    exists 420, Scenario.abc. split; vm_compute; reflexivity.
  - intros H.
    destruct (proj1 (proj2 (proj2 (checkSha256_nil_iff_regular_file_with_digest
                "/cache" Scenario.sha_abc w eq_refl))) H)
      as (perm & content & Hl & _).
    revert Hl. vm_compute. discriminate.
Defined.

Import KeepFacts.

(** X6: a download over HTTP to a cleaned path that is answered with a
    status from 200 to 299 writes the body of the response, and nothing
    else, into the destination file, which was emptied first.  When the
    body breaks off, the error of the copy is returned and the bytes
    received so far stay in the file. *)
Theorem downloadFromURI_http_writes_body
    url_Parse uri fileName w wa output wb u r :
  Filepath.Clean fileName = fileName ->
  os_MkdirAll (Filepath.Dir fileName) 493 w = (Ok tt, wa) ->
  os_Create fileName wa = (Ok output, wb) ->
  url_Parse uri = inl u ->
  (Scheme u =? "file")%string = false ->
  assoc uri (net w) = Some r ->
  200 <= StatusCode r <= 299 ->
  exists w' perm,
    downloadFromURI url_Parse uri fileName w
      = ((if body_fails r then Err (ErrOther "unexpected EOF") else Ok tt), w') /\
    lookup (resolve fileName) (fs w') = Some (Reg perm (Body r)) /\
    transfers w' = transfers w ++ [uri].
Proof.
  intros _ Hmk Hcr Hu Hs Hnet Hcode.
  destruct (os_MkdirAll_inv _ _ _ _ _ Hmk) as [(? & ? & ? & _)|(_ & fa & ->)];
    [discriminate|].
  destruct (os_Create_inv _ _ _ _ Hcr) as [(? & ? & _)|(Hout & fb & perm & -> & Hl)];
    [discriminate|].
  injection Hout as ->.
  set (wc := add_transfer (set_fs (set_fs w fa) fb) uri).
  assert (Hlc : lookup (resolve fileName) (fs wc) = Some (Reg perm [])) by exact Hl.
  destruct (file_Write_reg (resolve fileName) (Body r) wc perm [] Hlc)
    as (f & Hw & Hlf & _).
  exists (set_fs wc f), perm. split; [|split; [exact Hlf|reflexivity]].
  rewrite downloadFromURI_stages. unfold bind at 1. rewrite Hmk.
  unfold bind at 1. rewrite Hcr.
  unfold download_rest. unfold bind at 1. rewrite Hu. cbn [lift ret].
  rewrite Hs. unfold bind at 1. unfold http_Get.
  change (net (set_fs (set_fs w fa) fb)) with (net w). rewrite Hnet.
  fold wc. rewrite (status_2xx _ Hcode).
  cbn [io_Copy]. unfold bind. rewrite Hw.
  destruct (body_fails r); reflexivity.
Qed.

Lemma downloadFromURI_http_writes_body_witness :
  let w := Scenario.world Scenario.empty_cache
             [(Scenario.dep_uri, Response 200 Scenario.abc true)] in
  exists w',
    downloadFromURI Scenario.url_Parse Scenario.dep_uri "/cache/x/a.tgz" w
      = (Err (ErrOther "unexpected EOF"), w') /\
    ioutil_ReadFile "/cache/x/a.tgz" w' = (Ok Scenario.abc, w').
Proof.
  intros w.
  destruct (downloadFromURI_http_writes_body Scenario.url_Parse
              Scenario.dep_uri "/cache/x/a.tgz" w
              (snd (os_MkdirAll "/cache/x" 493 w)) (resolve "/cache/x/a.tgz")
              (snd (os_Create "/cache/x/a.tgz" (snd (os_MkdirAll "/cache/x" 493 w))))
              (mkURL "http" "/x/a.tgz") (Response 200 Scenario.abc true))
    as (w' & perm & Hrun & Hl & _).
  - vm_compute. reflexivity.
  - vm_compute. reflexivity.
  - vm_compute. reflexivity.
  - vm_compute. reflexivity.
  - reflexivity.
  - reflexivity.
  - cbn. lia.
  - exists w'. split; [exact Hrun|].
    exact (ReadFile_file _ _ _ _ Hl).
Defined.

(** X7: a [file] URI copies the bytes of the source file into the
    destination and leaves the source as it was, when the two are
    different files, both given by cleaned paths.  When the URI names the
    destination itself, the file was emptied before it is read: the copy
    succeeds and the content is lost. *)
Theorem downloadFromURI_file_copies_source
    url_Parse uri fileName w wa output wb u perm content :
  Filepath.Clean fileName = fileName ->
  Filepath.Clean (UrlPath u) = UrlPath u ->
  os_MkdirAll (Filepath.Dir fileName) 493 w = (Ok tt, wa) ->
  os_Create fileName wa = (Ok output, wb) ->
  url_Parse uri = inl u ->
  (Scheme u =? "file")%string = true ->
  lookup (resolve (UrlPath u)) (fs w) = Some (Reg perm content) ->
  exists w',
    downloadFromURI url_Parse uri fileName w = (Ok tt, w') /\
    (resolve (UrlPath u) <> resolve fileName ->
     (exists perm', lookup (resolve fileName) (fs w')
                    = Some (Reg perm' content)) /\
     lookup (resolve (UrlPath u)) (fs w') = Some (Reg perm content)) /\
    (resolve (UrlPath u) = resolve fileName ->
     exists perm', lookup (resolve fileName) (fs w') = Some (Reg perm' [])).
Proof.
  intros _ _ Hmk Hcr Hu Hs Hsrc.
  pose proof (os_MkdirAll_keeps _ (Reg perm content) eq_refl _ _ _ _ _ Hmk Hsrc) as Hsrca.
  destruct (os_Create_inv _ _ _ _ Hcr) as [(? & ? & _)|(Hout & fb & perm0 & Hwb & Hl)];
    [discriminate|].
  injection Hout as ->.
  set (wc := add_transfer wb uri).
  assert (Hstart : downloadFromURI url_Parse uri fileName w =
                   (source <- os_Open (UrlPath u) ;;
                    io_Copy (resolve fileName) (FileReader source)) wc).
  { rewrite downloadFromURI_stages. unfold bind at 1. rewrite Hmk.
    unfold bind at 1. rewrite Hcr.
    unfold download_rest. unfold bind at 1. rewrite Hu. cbn [lift ret].
    rewrite Hs. unfold bind at 1. reflexivity. }
  assert (Hlc : lookup (resolve fileName) (fs wc) = Some (Reg perm0 [])).
  { subst wc wb. exact Hl. }
  destruct (list_eq_dec string_dec (resolve (UrlPath u)) (resolve fileName))
    as [Heq|Hne].
  - (* the source is the destination *)
    destruct (file_Write_reg (resolve fileName) [] wc perm0 [] Hlc)
      as (f & Hw & Hlf & _).
    exists (set_fs wc f). split; [|split; [intros; contradiction|]].
    + rewrite Hstart. unfold bind at 1. unfold os_Open. rewrite Heq, Hlc.
      cbn [io_Copy]. unfold bind. unfold file_ReadAll. rewrite Hlc. exact Hw.
    + intros _. exists perm0. exact Hlf.
  - assert (Hsrcc : lookup (resolve (UrlPath u)) (fs wc)
                    = Some (Reg perm content)).
    { exact (os_OpenFile_keeps _ (Reg perm content) eq_refl _ _ _ _ _ Hcr Hne Hsrca). }
    destruct (file_Write_reg (resolve fileName) content wc perm0 [] Hlc)
      as (f & Hw & Hlf & Hp).
    exists (set_fs wc f). split; [|split; [|intros; contradiction]].
    + rewrite Hstart. unfold bind at 1. unfold os_Open. rewrite Hsrcc.
      cbn [io_Copy]. unfold bind. unfold file_ReadAll. rewrite Hsrcc. exact Hw.
    + intros _. split; [exists perm0; exact Hlf|].
      apply (file_Write_keeps _ (Reg perm content) eq_refl _ _ _ _ _ Hw Hne Hsrcc).
Qed.

Lemma downloadFromURI_file_copies_source_witness :
  let w := Scenario.world
             (Dir 493 [("cache", Dir 493 []);
                       ("src", Dir 493 [("a.tgz", Reg 420 Scenario.abc)])]) [] in
  (exists w',
     downloadFromURI Scenario.url_Parse "file:///src/a.tgz" "/cache/a.tgz" w
       = (Ok tt, w') /\
     ioutil_ReadFile "/cache/a.tgz" w' = (Ok Scenario.abc, w') /\
     ioutil_ReadFile "/src/a.tgz" w' = (Ok Scenario.abc, w')) /\
  (exists w',
     downloadFromURI Scenario.url_Parse "file:///src/a.tgz" "/src/a.tgz" w
       = (Ok tt, w') /\
     ioutil_ReadFile "/src/a.tgz" w' = (Ok [], w')).
Proof.
  intros w. split.
  - destruct (downloadFromURI_file_copies_source Scenario.url_Parse
                "file:///src/a.tgz" "/cache/a.tgz" w
                (snd (os_MkdirAll "/cache" 493 w)) (resolve "/cache/a.tgz")
                (snd (os_Create "/cache/a.tgz" (snd (os_MkdirAll "/cache" 493 w))))
                (mkURL "file" "/src/a.tgz") 420 Scenario.abc)
      as (w' & Hrun & Hdiff & _); try (vm_compute; reflexivity).
    exists w'. split; [exact Hrun|].
    destruct Hdiff as [[perm' Hl] Hs]; [vm_compute; discriminate|].
    split; [exact (ReadFile_file _ _ _ _ Hl)|exact (ReadFile_file _ _ _ _ Hs)].
  - destruct (downloadFromURI_file_copies_source Scenario.url_Parse
                "file:///src/a.tgz" "/src/a.tgz" w
                (snd (os_MkdirAll "/src" 493 w)) (resolve "/src/a.tgz")
                (snd (os_Create "/src/a.tgz" (snd (os_MkdirAll "/src" 493 w))))
                (mkURL "file" "/src/a.tgz") 420 Scenario.abc)
      as (w' & Hrun & _ & Hsame); try (vm_compute; reflexivity).
    exists w'. split; [exact Hrun|].
    destruct Hsame as [perm' Hl]; [reflexivity|].
    exact (ReadFile_file _ _ _ _ Hl).
Defined.

Import MkdirFacts ConfineFacts AgainFacts.



(** X9: the place of a file in the cache is given by the URI alone.
    After a fetch has succeeded, a fetch of a dependency with the same URI
    and another declared checksum finds the file, downloads nothing,
    changes nothing and returns a mismatch error; with the same checksum
    it returns the same [File]. *)
Theorem downloadDependency_cache_key_is_URI url_Parse d1 d2 cacheDir w f w1 :
  downloadDependency url_Parse d1 cacheDir w = (Ok f, w1) ->
  URI d2 = URI d1 ->
  (SHA256 d2 = SHA256 d1 ->
   downloadDependency url_Parse d2 cacheDir w1 = (Ok f, w1)) /\
  (SHA256 d2 <> SHA256 d1 ->
   downloadDependency url_Parse d2 cacheDir w1 =
   (Err (Errorf ("dependency sha256 mismatch: expected sha256 "
                 ++ SHA256 d2 ++ ", actual sha256 " ++ SHA256 d1)%string),
    w1)).
Proof.
  intros Hrun Huri.
  assert (Hcf : cacheFile d2 = cacheFile d1) by (unfold cacheFile; now rewrite Huri).
  pose proof (downloadDependency_Ok _ _ _ _ _ _ Hrun) as Hf.
  pose proof (downloadDependency_Ok_again _ _ _ _ _ _ Hrun) as Hagain.
  apply downloadDependency_inv in Hrun. cbv zeta in Hrun.
  destruct Hrun as [(err & _ & Hr)
                   |[(w0 & w1' & _ & _ & v & Hch & Hr)
                    |(w0 & err & e' & _ & _ & _ & Hr)]]; try discriminate.
  destruct (checkSha256_inv _ _ _ _ _ Hch) as [Heq Hcases]. subst w1'.
  destruct Hcases as [(perm & content & Hl & ->)|(_ & e & ->)];
    [|discriminate].
  assert (Hdig : Bytes.hex_EncodeToString (Sha256.Sum256 content) = SHA256 d1).
  { unfold verdict in Hr.
    destruct (_ =? _)%string eqn:E in Hr; [|discriminate].
    now apply String.eqb_eq. }
  assert (Hl2 : lookup (resolve (Filepath.Join [cacheDir; cacheFile d2])) (fs w1)
                = Some (Reg perm content)) by (rewrite Hcf; exact Hl).
  rewrite (downloadDependency_cached _ _ _ _ _ _ Hagain Hl2).
  unfold verdict, fetched. rewrite Hdig, Hcf. split.
  - intros ->. rewrite String.eqb_refl. rewrite Hf. reflexivity.
  - intros Hne. destruct (SHA256 d1 =? SHA256 d2)%string eqn:E; [|reflexivity].
    apply String.eqb_eq in E. congruence.
Qed.

Lemma downloadDependency_cache_key_is_URI_witness :
  let w := Scenario.world Scenario.empty_cache (Scenario.serving Scenario.abc) in
  let w1 := snd (downloadDependency Scenario.url_Parse Scenario.dep_good "/cache" w) in
  downloadDependency Scenario.url_Parse Scenario.dep_good "/cache" w
    = (Ok (cached_file "/cache" Scenario.dep_good), w1) /\
  exists msg,
    downloadDependency Scenario.url_Parse Scenario.dep_bad "/cache" w1
      = (Err (Errorf msg), w1).
Proof.
  intros w w1.
  assert (Hrun : downloadDependency Scenario.url_Parse Scenario.dep_good "/cache" w
                 = (Ok (cached_file "/cache" Scenario.dep_good), w1))
    by (vm_compute; reflexivity).
  split; [exact Hrun|].
  destruct (downloadDependency_cache_key_is_URI Scenario.url_Parse
              Scenario.dep_good Scenario.dep_bad "/cache" w _ w1 Hrun eq_refl)
    as [_ Hbad].
  eexists. apply Hbad. discriminate.
Defined.

(** X10: in cached mode, when the loop over the dependencies comes to its
    end, the files to be archived are those collected before, followed by
    one [File] for each retained dependency, in the order of the manifest
    and without merging equal ones; the rewritten sequence has as many
    entries.  Each of these files is then in the cache, as a regular file
    whose SHA-256 digest is the declared one: a later fetch of the loop
    has not changed what an earlier one verified, and no regular file
    that was there before the loop was changed. *)
Theorem Package_dependencies_cached_files_verified
    url_Parse cacheDir stack deps ds files w files' out w' :
  Package_dependencies url_Parse cacheDir stack true deps 0 ds files [] w
    = (Ok (files', out), w') ->
  files' = files ++ map (cached_file cacheDir) (filter (keeps stack) ds) /\
  length out = length (filter (keeps stack) ds) /\
  (forall d, In d (filter (keeps stack) ds) ->
     exists perm content,
       lookup (resolve (Path (cached_file cacheDir d))) (fs w')
         = Some (Reg perm content) /\
       Bytes.hex_EncodeToString (Sha256.Sum256 content) = SHA256 d) /\
  (forall q a c, lookup q (fs w) = Some (Reg a c) ->
                 lookup q (fs w') = Some (Reg a c)).
Proof.
  intros Hrun.
  destruct (Package_dependencies_verified _ _ _ _ _ _ _ _ _ _ _ _ Hrun)
    as (Hf & Hlen & Hkeep & Hver).
  repeat split; assumption.
Qed.

Lemma Package_dependencies_cached_files_verified_witness :
  let w := Scenario.world Scenario.empty_cache (Scenario.serving Scenario.abc) in
  let ds := [Scenario.dep_on ["cflinuxfs3"]; Scenario.dep_on ["cflinuxfs2"];
             Scenario.dep_on ["cflinuxfs2"; "cflinuxfs3"]] in
  let deps := [Scenario.entry "a"; Scenario.entry "b"; Scenario.entry "c"] in
  let run := Package_dependencies Scenario.url_Parse "/cache" "cflinuxfs3" true
               deps 0 ds [] [] w in
  let f := cached_file "/cache" (Scenario.dep_on ["cflinuxfs3"]) in
  exists out,
    fst run = Ok ([f; f], out) /\ length out = 2%nat /\
    ioutil_ReadFile (Path f) (snd run) = (Ok Scenario.abc, snd run).
Proof.
  intros w ds deps run f.
  assert (Hrun : run = (Ok ([f; f], snd (match fst run with
                                         | Ok r => r
                                         | _ => ([], [])
                                         end)), snd run))
    by (vm_compute; reflexivity).
  destruct (Package_dependencies_cached_files_verified _ _ _ _ _ _ _ _ _ _ Hrun)
    as (_ & Hlen & Hver & _).
  eexists. split; [rewrite Hrun at 1; reflexivity|]. split; [exact Hlen|].
  destruct (Hver (Scenario.dep_on ["cflinuxfs3"])) as (perm & content & Hl & Hdig);
    [left; reflexivity|].
  assert (Hc : content = Scenario.abc).
  { revert Hl. vm_compute. intros [= _ <-]. reflexivity. }
  subst content. exact (ReadFile_file _ _ _ _ Hl).
Defined.

Import ZipFacts WalkFacts.





(** X13: an entry at the top of the source directory, given by a
    cleaned path, that is named [.git] or [tests] and is no directory (a [.git] file of a submodule or
    a work tree, say) ends the copy.  The visiting function answers
    [SkipDir] for it; [filepath.Walk] then leaves the directory that
    holds the entry, which is the source directory, so the entries listed
    after it are never visited, and [Walk] returns nil as if the copy were
    complete.  The walk is the walk of the entries before it. *)
Theorem copyDirectory_walk_ends_at_file_named_git_or_tests
    srcDir destDir perm es1 g child es2 :
  Filepath.Clean srcDir = srcDir ->
  skipped g = true ->
  is_dir child = false ->
  let visit := copyDirectory_visit srcDir destDir in
  (forall w,
     walk visit srcDir (Dir perm (es1 ++ (g, child) :: es2)) w =
     match walk visit srcDir (Dir perm es1) w with
     | (Ok _, w') => (Err SkipDir, w')
     | r => r
     end) /\
  (forall w,
     lookup (resolve srcDir) (fs w) = Some (Dir perm (es1 ++ (g, child) :: es2)) ->
     Walk visit srcDir w =
     match walk visit srcDir (Dir perm es1) w with
     | (Err err, w') => if is_SkipDir err then (Ok tt, w') else (Err err, w')
     | (Ok _, w') => (Ok tt, w')
     | r => r
     end).
Proof.
  intros _ Hg Hchild. cbv zeta.
  destruct (skipped_name g Hg) as [Hp Hs].
  assert (Hwalk : forall w,
     walk (copyDirectory_visit srcDir destDir) srcDir (Dir perm (es1 ++ (g, child) :: es2)) w =
     match walk (copyDirectory_visit srcDir destDir) srcDir (Dir perm es1) w with
     | (Ok _, w') => (Err SkipDir, w')
     | r => r
     end).
  { intros w. cbn [walk]. unfold bind, try.
    change (node_info srcDir (Dir perm (es1 ++ (g, child) :: es2)))
      with (node_info srcDir (Dir perm es1)).
    destruct ((copyDirectory_visit srcDir destDir) srcDir (Some (node_info srcDir (Dir perm es1))) None w)
      as [[[]|e|msg|c] w1]; try reflexivity.
    rewrite walk_entries_app.
    destruct (walk_entries (walk (copyDirectory_visit srcDir destDir)) srcDir es1 w1) as [[[]|e|msg|c] w2];
      try reflexivity.
    cbn [walk_entries]. unfold bind, try.
    rewrite (path_of_child srcDir g Hp Hs).
    rewrite (walk_skipped srcDir destDir ".git" (or_introl eq_refl) g child w2
               Hp Hs Hg).
    rewrite Hchild. reflexivity. }
  split; [exact Hwalk|].
  intros w Hl. unfold Walk. rewrite Hl, Hwalk.
  destruct (walk (copyDirectory_visit srcDir destDir) srcDir (Dir perm es1) w) as [[[]|e|msg|c] w1];
    reflexivity.
Qed.

Lemma copyDirectory_walk_ends_at_file_named_git_or_tests_witness :
  let root :=
    Dir 493
      [("bp", Dir 493 [(".git", Reg 420 (Bytes.of_string "gitdir: ../.git/modules/bp"));
                       ("bin", Dir 493 [("run", Reg 493 (Bytes.of_string "#!/bin/sh"))]);
                       ("manifest.yml", Reg 420 Scenario.manifest_text)]);
       ("out", Dir 493 [])] in
  let w := Scenario.world root [] in
  Walk (copyDirectory_visit "/bp" "/out") "/bp" w = (Ok tt, w) /\
  exists w',
    copyDirectory "/bp"
      (Scenario.world
         (Dir 493 [("bp", Dir 493 [("tests", Reg 420 []); ("vendor", Dir 493 [])]);
                   ("tmp", Dir 511 [])]) [])
    = (Ok "/tmp/buildpack-packager001", w') /\
    lookup ["tmp"; "buildpack-packager001"] (fs w') = Some (Dir 448 []).
Proof.
  intros root w. split.
  - rewrite (proj2 (copyDirectory_walk_ends_at_file_named_git_or_tests
                      "/bp" "/out" 493 [] ".git"
                      (Reg 420 (Bytes.of_string "gitdir: ../.git/modules/bp"))
                      [("bin", Dir 493 [("run", Reg 493 (Bytes.of_string "#!/bin/sh"))]);
                       ("manifest.yml", Reg 420 Scenario.manifest_text)]
                      eq_refl eq_refl eq_refl) w eq_refl).
    vm_compute. reflexivity.
  - eexists. split; vm_compute; reflexivity.
Defined.

Import CopyFacts.

(** X14: the staged copy holds every file and link of the source that is
    not below a skipped entry.  Let the source, given by a cleaned path,
    be a directory whose entries have real names, each listed once, and in which whatever is
    named [.git] or [tests] at the top is a directory; let the temporary
    directory lie apart from the source.  When [copyDirectory] returns the
    directory, every regular file below the source whose first name is not
    skipped is, at the same relative path below the returned directory, a
    regular file with the same bytes, every symbolic link is a link with
    the same target, and the source is as it was. *)
Theorem copyDirectory_stages_every_file_and_link
    srcDir w destDir w' perm es :
  Filepath.Clean srcDir = srcDir ->
  copyDirectory srcDir w = (Ok destDir, w') ->
  lookup (resolve srcDir) (fs w) = Some (Dir perm es) ->
  names_ok (Dir perm es) = true ->
  names_once (Dir perm es) = true ->
  (forall k ch, In (k, ch) es -> skipped k = true -> is_dir ch = true) ->
  diverge (resolve srcDir) (resolve destDir) = true ->
  forall name below x,
    skipped name = false ->
    is_dir x = false ->
    lookup (resolve srcDir ++ name :: below) (fs w) = Some x ->
    copied x (lookup (resolve destDir ++ name :: below) (fs w')) /\
    lookup (resolve srcDir ++ name :: below) (fs w') = Some x.
Proof.
  intros _ Hrun Hl Hok Honce Htop Hdiv name below x Hskip Hx Hlx.
  destruct (copyDirectory_inv _ _ _ _ Hrun) as (w1 & Htmp & Hwalk).
  assert (Hsame : forall q, lookup (resolve srcDir ++ q) (fs w1)
                            = lookup (resolve srcDir ++ q) (fs w)).
  { intros q. apply (TempDir_try_diverge _ _ _ _ _ _ _ Htmp).
    rewrite diverge_sym. apply diverge_app_l, Hdiv. }
  assert (Hl1 : lookup (resolve srcDir) (fs w1) = Some (Dir perm es)).
  { pose proof (Hsame []) as H. rewrite app_nil_r in H. now rewrite H. }
  destruct (Walk_copies srcDir destDir Hdiv perm es w1 w' Hl1 Hok Honce Htop Hwalk)
    as [Hst Hkeep].
  rewrite lookup_app, Hl in Hlx. cbn [lookup] in Hlx.
  destruct (find name es) as [ch|] eqn:Ef; [|discriminate].
  split.
  - exact (Hst name ch (find_In _ _ _ Ef) Hskip below x Hx Hlx).
  - apply Hkeep; [exact Hx| |].
    + rewrite <- (app_nil_r (resolve destDir)).
      apply (src_not_below_dst srcDir destDir Hdiv).
    + rewrite Hsame, lookup_app, Hl. cbn [lookup]. rewrite Ef. exact Hlx.
Qed.

Lemma copyDirectory_stages_every_file_and_link_witness :
  let w := Scenario.world Scenario.source_tree [] in
  let w' := snd (copyDirectory "/bp" w) in
  (exists perm,
     lookup ["tmp"; "buildpack-packager001"; "lib"; "tests"; "unit.rb"] (fs w')
     = Some (Reg perm (Bytes.of_string "assert"))) /\
  lookup ["bp"; "lib"; "tests"; "unit.rb"] (fs w')
  = Some (Reg 420 (Bytes.of_string "assert")).
Proof.
  intros w w'.
  assert (Hrun : copyDirectory "/bp" w = (Ok "/tmp/buildpack-packager001", w'))
    by (vm_compute; reflexivity).
  refine (copyDirectory_stages_every_file_and_link "/bp" w
            "/tmp/buildpack-packager001" w' 493 _ eq_refl Hrun eq_refl eq_refl
            eq_refl
            _ eq_refl "lib" ["tests"; "unit.rb"]
            (Reg 420 (Bytes.of_string "assert")) eq_refl eq_refl eq_refl).
  intros k ch Hin Hskip. simpl in Hin.
  destruct Hin as [[= <- <-]|[[= <- <-]|[[= <- <-]|[[= <- <-]|[]]]]];
    try reflexivity; discriminate.
Defined.

Import DigestFacts.

(** X15: [checkSha256] can return nil only for a declared checksum of
    exactly 64 characters, each a digit or a letter from [a] to [f] in
    lower case: this is what [hex.EncodeToString] makes of the 32 bytes
    of a SHA-256 digest, and the comparison is that of the strings.  A
    checksum in upper case, with a prefix, or with white space around it
    is refused whatever the file holds. *)
Theorem checkSha256_accepts_only_64_lower_case_hex_digits
    filePath expectedSha256 w :
  fst (checkSha256 filePath expectedSha256 w) = Ok tt ->
  String.length expectedSha256 = 64%nat /\
  Forall (fun c => In c Bytes.hextable) (list_ascii_of_string expectedSha256).
Proof.
  destruct (checkSha256 filePath expectedSha256 w) as [r w'] eqn:Hrun.
  cbn [fst]. intros ->.
  destruct (checkSha256_inv _ _ _ _ _ Hrun) as [_ Hcases].
  destruct Hcases as [(perm & content & _ & Hv)|(_ & e & He)]; [|discriminate].
  unfold verdict in Hv.
  destruct (Bytes.hex_EncodeToString (Sha256.Sum256 content)
            =? expectedSha256)%string eqn:E; [|discriminate].
  apply String.eqb_eq in E. subst expectedSha256. split.
  - rewrite hex_length, sha256_Sum256_length. reflexivity.
  - apply hex_digits.
Qed.

Lemma checkSha256_accepts_only_64_lower_case_hex_digits_witness :
  let w := Scenario.world (Scenario.cache_with Scenario.abc) [] in
  let path := "/cache/dependencies/2f67f96d623098d1b533c71d2562a686/a.tgz" in
  fst (checkSha256 path Scenario.sha_abc w) = Ok tt /\
  String.length Scenario.sha_abc = 64%nat.
Proof.
  intros w path.
  assert (H : fst (checkSha256 path Scenario.sha_abc w) = Ok tt)
    by (vm_compute; reflexivity).
  split; [exact H|].
  exact (proj1 (checkSha256_accepts_only_64_lower_case_hex_digits _ _ _ H)).
Defined.
